(** * RNI measurement database: ingestion, coercion and aggregation

    A shallow embedding of the data pipeline of [rni_app_v3.2.py] (and of its
    predecessor [app.py], whose helper functions are the same):

    - [calcular_tiempo_total_por_archivo]   the duration aggregator,
    - [eliminar_localidad]                  deletion of a locality,
    - [max_resultado_pct], [rangos_colores], [color_semaforo]
                                            percentage of limit and colour scale,
    - [parse_dms_to_decimal], [extract_numeric_from_text]
                                            the field coercions,
    - [find_index_column], [procesar_archivos]
                                            the file normaliser,
    - [format_timedelta_long], [tiempo_a_horas], the daily, monthly and
      per-locality summaries                the displayed durations,
    - [guardar_cambios], [eliminar_localidad_cb], [eliminar_localidad] of
      [app.py]                              the other edits of the table,
    - [load_tabla_maestra_from_db], the merge of a processed batch
                                            loading and growing the table.

    Conventions.
    - A pandas null (NaN, NaT, None) is [None].
    - Dates are [date.toordinal()]; times of day and [timedelta]s are in
      microseconds.  The rows of the master table carry the fields of
      [EXPECTED_COLS], typed as the callers leave them before aggregating
      ([pd.to_datetime(...).dt.date], [.dt.time]).
    - A text is the list of its UTF-8 bytes.  The classes [\d], [\D], [\s] of
      the patterns, [str.strip] and [float] are those of the ASCII range: the
      decimal digits and white space of other scripts are outside the model.
    - A number read from a text or held by a cell is the exact rational its
      decimal literal denotes ([Q]): rounding to binary64 and the infinities
      are outside the model, and a spelling of infinity reads as a null.  The
      index column is the exception: its maximum goes through [int], which
      raises on an infinity, so its cells keep their infinities ([flotante]).
    - The percentage of limit and the colour scale are computed on binary64
      floats ([PrimFloat]), as the interpreter computes them.  The power
      [x ** y] is the [pow] of the C library, which is not always correctly
      rounded: it is a variable of the development.
    - An exception that leaves a function is a value [Raise e] of its result. *)

From Stdlib Require Import ZArith List String Ascii Bool Lia QArith Qabs Qpower
  Permutation PrimFloat.
From Stdlib Require Floats Uint63.
Import ListNotations.

#[local] Open Scope string_scope.
#[local] Open Scope list_scope.
#[local] Open Scope Z_scope.

(* ================================================================= *)
(** ** The master table *)

Definition fecha := Z.        (* datetime.date:  date.toordinal()              *)
Definition hora := Z.         (* datetime.time:  microseconds since 00:00:00  *)
Definition timedelta := Z.    (* datetime.timedelta, in microseconds          *)

Definition us_por_segundo : Z := 1000000.
Definition us_por_dia : Z := 86400 * us_por_segundo.

(** [time(h, m, s)] and [timedelta(hours=h)]. *)
Definition time_hms (h m s : Z) : hora := ((h * 60 + m) * 60 + s) * us_por_segundo.
Definition horas (h : Z) : timedelta := h * 3600 * us_por_segundo.

(** One row of [tabla_maestra], with the columns of [EXPECTED_COLS]. *)
Record Registro : Type := mkRegistro {
  r_CCTE : option string;
  r_Provincia : option string;
  r_Localidad : option string;
  r_Resultado : option Q;
  r_Fecha : option fecha;
  r_Hora : option hora;
  r_NombreArchivo : option string;
  r_Expediente : option string;
  r_Sonda : option string;
  r_Lat : option Q;
  r_Lon : option Q;
  r_FechaCarga : option Z
}.

(** A DataFrame over those rows: the column labels it carries, and its rows. *)
Record Tabla : Type := mkTabla {
  columnas : list string;
  filas : list Registro
}.

(** [label in df.columns] *)
Definition tiene_columna (c : string) (df : Tabla) : bool :=
  existsb (String.eqb c) (columnas df).

(** [df.empty]: no rows or no columns. *)
Definition vacia (df : Tabla) : bool :=
  match filas df, columnas df with
  | [], _ => true
  | _, [] => true
  | _, _ => false
  end.

(* ----------------------------------------------------------------- *)
(** *** groupby *)

(** [series.dropna()] *)
Fixpoint dropna {A : Type} (l : list (option A)) : list A :=
  match l with
  | [] => []
  | Some x :: l' => x :: dropna l'
  | None :: l' => dropna l'
  end.

Section GroupBy.
Context {K : Type}.
Variable leb : K -> K -> bool.
Variable eqb : K -> K -> bool.
Variable clave : Registro -> option K.

(** The distinct values of a list, each at its first place. *)
Fixpoint unicos (l : list K) : list K :=
  match l with
  | [] => []
  | k :: l' => k :: filter (fun x => negb (eqb k x)) (unicos l')
  end.

(** Insertion sort, ascending. *)
Fixpoint insertar (k : K) (l : list K) : list K :=
  match l with
  | [] => [k]
  | x :: l' => if leb k x then k :: l else x :: insertar k l'
  end.

Definition ordenar (l : list K) : list K := fold_right insertar [] l.

(** The group keys of [df.groupby(col)]: the distinct non-null values of the
    column, ascending. *)
Definition claves (rs : list Registro) : list K :=
  ordenar (unicos (dropna (map clave rs))).

Definition en_grupo (k : K) (r : Registro) : bool :=
  match clave r with
  | Some k' => eqb k k'
  | None => false
  end.

(** [df.groupby(col)]: each key with the rows that carry it, in row order. *)
Definition groupby (rs : list Registro) : list (K * list Registro) :=
  map (fun k => (k, filter (en_grupo k) rs)) (claves rs).

Hypothesis eqb_eq : forall x y, eqb x y = true <-> x = y.

Lemma unicos_In (l : list K) (x : K) : In x (unicos l) <-> In x l.
Proof.
  induction l as [|k l IH]; simpl; [tauto|].
  rewrite filter_In, IH. split.
  - intros [H|[H _]]; auto.
  - intros [H|H]; [auto|].
    destruct (eqb k x) eqn:E; [left; apply eqb_eq; exact E|right; auto].
Qed.

Lemma unicos_NoDup (l : list K) : NoDup (unicos l).
Proof.
  induction l as [|k l IH]; simpl; constructor.
  - rewrite filter_In. intros [_ H].
    assert (E : eqb k k = true) by (apply eqb_eq; reflexivity).
    rewrite E in H. discriminate H.
  - apply NoDup_filter. exact IH.
Qed.

Lemma insertar_perm (k : K) (l : list K) : Permutation (insertar k l) (k :: l).
Proof.
  induction l as [|x l IH]; simpl; [apply Permutation_refl|].
  destruct (leb k x); [apply Permutation_refl|].
  apply Permutation_trans with (x :: k :: l);
    [apply perm_skip; exact IH|apply perm_swap].
Qed.

Lemma ordenar_perm (l : list K) : Permutation (ordenar l) l.
Proof.
  induction l as [|k l IH]; simpl; [apply Permutation_refl|].
  apply Permutation_trans with (k :: ordenar l);
    [apply insertar_perm|apply perm_skip; exact IH].
Qed.

Lemma dropna_In {A : Type} (l : list (option A)) (x : A) :
  In x (dropna l) <-> In (Some x) l.
Proof.
  induction l as [|[y|] l IH]; simpl; [tauto| |].
  - rewrite IH. split; intros [H|H]; auto; [left; congruence|].
    injection H as ->. auto.
  - rewrite IH. split; [auto|]. intros [H|H]; [discriminate|exact H].
Qed.

(** The keys of a groupby are distinct, and they are the non-null values that
    occur in the column. *)
Lemma claves_NoDup (rs : list Registro) : NoDup (claves rs).
Proof.
  unfold claves.
  apply (Permutation_NoDup (Permutation_sym (ordenar_perm _))), unicos_NoDup.
Qed.

Lemma claves_In (rs : list Registro) (k : K) :
  In k (claves rs) <-> exists r, In r rs /\ clave r = Some k.
Proof.
  unfold claves. split.
  - intro H. apply (Permutation_in _ (ordenar_perm _)) in H.
    apply unicos_In, dropna_In, in_map_iff in H. destruct H as (r & Hr & Hin).
    exists r. auto.
  - intros (r & Hin & Hr).
    apply (Permutation_in _ (Permutation_sym (ordenar_perm _))).
    apply unicos_In, dropna_In, in_map_iff. exists r. auto.
Qed.

(** A row is in the group of its own key, and in no other. *)
Lemma en_grupo_clave (k : K) (r : Registro) :
  en_grupo k r = true <-> clave r = Some k.
Proof.
  unfold en_grupo. destruct (clave r) as [k'|]; [|split; discriminate].
  rewrite eqb_eq. split; congruence.
Qed.

Lemma groupby_claves (rs : list Registro) : map fst (groupby rs) = claves rs.
Proof. unfold groupby. rewrite map_map. simpl. apply map_id. Qed.
End GroupBy.

Definition groupby_archivo := groupby String.leb String.eqb r_NombreArchivo.
Definition groupby_fecha := groupby Z.leb Z.eqb r_Fecha.

(* ----------------------------------------------------------------- *)
(** *** Series helpers *)

(** [series.min()] and [series.max()] of a non-empty series [h :: hs]. *)
Definition serie_min (h : Z) (hs : list Z) : Z := fold_left Z.min hs h.
Definition serie_max (h : Z) (hs : list Z) : Z := fold_left Z.max hs h.

(** [datetime.combine(fecha, hora)], as microseconds since ordinal 0. *)
Definition datetime_combine (f : fecha) (h : hora) : Z := f * us_por_dia + h.

(* ----------------------------------------------------------------- *)
(** *** calcular_tiempo_total_por_archivo *)

(** The body of the inner loop, for one [(fecha, df_dia)] group. *)
Definition sumar_dia (total : timedelta) (g : fecha * list Registro) : timedelta :=
  let '(f, df_dia) := g in
  let horas_validas := dropna (map r_Hora df_dia) in
  match horas_validas with
  | [] => total
  | h :: hs =>
      let dt_inicio := datetime_combine f (serie_min h hs) in
      let dt_fin := datetime_combine f (serie_max h hs) in
      let delta := dt_fin - dt_inicio in
      let delta := if delta <? 0 then delta + us_por_dia else delta in
      total + delta
  end.

(** The body of the outer loop, for one [(archivo, df_archivo)] group;
    [cols] are the columns of [df], which every group keeps. *)
Definition sumar_archivo (cols : list string) (total : timedelta)
    (g : string * list Registro) : timedelta :=
  let '(_, df_archivo) := g in
  if existsb (String.eqb "Fecha") cols && existsb (String.eqb "Hora") cols
  then fold_left sumar_dia (groupby_fecha df_archivo) total
  else total.

Definition calcular_tiempo_total_por_archivo (df : Tabla) : timedelta :=
  if tiene_columna "Nombre Archivo" df
  then fold_left (sumar_archivo (columnas df)) (groupby_archivo (filas df)) 0
  else 0.

(** [format_timedelta_long]: hours, minutes and seconds of a duration. *)
Definition format_timedelta_long (td : timedelta) : Z * Z * Z :=
  let total_seconds := Z.quot td us_por_segundo in
  (total_seconds / 3600, (total_seconds mod 3600) / 60, total_seconds mod 60).

(* ----------------------------------------------------------------- *)
(** *** The aggregation as the design document words it *)

(** Span from the minimum to the maximum of the valid times of a group. *)
Definition tramo (hs : list hora) : timedelta :=
  match hs with
  | [] => 0
  | h :: hs' => serie_max h hs' - serie_min h hs'
  end.

(** The (file, date) groups: by file first, then by date inside each file. *)
Definition grupos_archivo_fecha (df : Tabla) : list (list Registro) :=
  if tiene_columna "Nombre Archivo" df && tiene_columna "Fecha" df
     && tiene_columna "Hora" df
  then flat_map (fun ga => map snd (groupby_fecha (snd ga)))
                (groupby_archivo (filas df))
  else [].

Definition suma_Z (l : list Z) : Z := fold_right Z.add 0 l.

Definition suma_de_tramos (df : Tabla) : timedelta :=
  suma_Z (map (fun g => tramo (dropna (map r_Hora g))) (grupos_archivo_fecha df)).

(** Rows for the examples: only file, date and time matter. *)
Definition fila (archivo : string) (f : fecha) (h : option hora) : Registro :=
  mkRegistro None None None None (Some f) h (Some archivo) None None None None None.

Definition columnas_maestra : list string :=
  ["CCTE"; "Provincia"; "Localidad"; "Resultado"; "Fecha"; "Hora";
   "Nombre Archivo"; "Expediente"; "Sonda"; "Lat"; "Lon"; "FechaCarga"].

(* ================================================================= *)
(** ** Properties of the duration aggregator *)

Lemma serie_min_le_acc (hs : list Z) (h : Z) : serie_min h hs <= h.
Proof.
  unfold serie_min. revert h.
  induction hs as [|x hs IH]; intro h; simpl; [lia|].
  specialize (IH (Z.min h x)). lia.
Qed.

Lemma serie_max_ge_acc (hs : list Z) (h : Z) : h <= serie_max h hs.
Proof.
  unfold serie_max. revert h.
  induction hs as [|x hs IH]; intro h; simpl; [lia|].
  specialize (IH (Z.max h x)). lia.
Qed.

Lemma serie_min_le_max (h : Z) (hs : list Z) : serie_min h hs <= serie_max h hs.
Proof.
  pose proof (serie_min_le_acc hs h). pose proof (serie_max_ge_acc hs h). lia.
Qed.

(** The rollover branch of the inner loop is never taken: the span of a group
    is taken between the minimum and the maximum of the same series. *)
Lemma sumar_dia_tramo (total : timedelta) (f : fecha) (rs : list Registro) :
  sumar_dia total (f, rs) = total + tramo (dropna (map r_Hora rs)).
Proof.
  unfold sumar_dia, tramo.
  destruct (dropna (map r_Hora rs)) as [|h hs]; [lia|].
  unfold datetime_combine.
  pose proof (serie_min_le_max h hs) as Hle.
  destruct (Z.ltb_spec (f * us_por_dia + serie_max h hs
                        - (f * us_por_dia + serie_min h hs)) 0); lia.
Qed.

Lemma fold_sumar_dia (gs : list (fecha * list Registro)) (total : timedelta) :
  fold_left sumar_dia gs total
  = total + suma_Z (map (fun g => tramo (dropna (map r_Hora (snd g)))) gs).
Proof.
  revert total. induction gs as [|[f rs] gs IH]; intro total;
    cbn [fold_left map suma_Z fold_right snd]; [lia|].
  rewrite IH, sumar_dia_tramo. unfold suma_Z. lia.
Qed.

Lemma suma_Z_app (l1 l2 : list Z) : suma_Z (l1 ++ l2) = suma_Z l1 + suma_Z l2.
Proof. induction l1 as [|x l1 IH]; simpl; lia. Qed.

Lemma serie_repetida (h : Z) (n : nat) :
  serie_min h (repeat h n) = h /\ serie_max h (repeat h n) = h.
Proof.
  unfold serie_min, serie_max.
  induction n as [|n [IHm IHM]]; simpl; [split; reflexivity|].
  rewrite Z.min_id, Z.max_id. split; assumption.
Qed.

Lemma fold_sumar_archivo (cols : list string)
    (gs : list (string * list Registro)) (total : timedelta) :
  fold_left (sumar_archivo cols) gs total
  = total
    + suma_Z (map (fun g => tramo (dropna (map r_Hora g)))
                  (if existsb (String.eqb "Fecha") cols
                      && existsb (String.eqb "Hora") cols
                   then flat_map (fun ga => map snd (groupby_fecha (snd ga))) gs
                   else [])).
Proof.
  revert total. induction gs as [|[a rs] gs IH]; intro total.
  - cbn [fold_left flat_map]. destruct (_ && _); simpl; lia.
  - cbn [fold_left]. rewrite IH. unfold sumar_archivo.
    destruct (existsb (String.eqb "Fecha") cols
              && existsb (String.eqb "Hora") cols).
    + rewrite fold_sumar_dia. cbn [flat_map snd].
      rewrite map_app, suma_Z_app, map_map. symmetry. apply Z.add_assoc.
    + simpl. lia.
Qed.

(** The total is the sum of the per-group spans, with no correction ever
    applied. *)
Lemma calcular_tiempo_suma_de_tramos (df : Tabla) :
  calcular_tiempo_total_por_archivo df = suma_de_tramos df.
Proof.
  unfold calcular_tiempo_total_por_archivo, suma_de_tramos, grupos_archivo_fecha.
  unfold tiene_columna.
  destruct (existsb (String.eqb "Nombre Archivo") (columnas df)); [|reflexivity].
  rewrite fold_sumar_archivo. cbn [andb]. lia.
Qed.

(** The tables of the examples. *)
Definition tabla_medianoche : Tabla :=
  mkTabla columnas_maestra
    [ fila "a.xlsx" 739000 (Some (time_hms 23 0 0));
      fila "a.xlsx" 739000 (Some (time_hms 1 0 0)) ].

Definition tabla_dos_archivos : Tabla :=
  mkTabla columnas_maestra
    [ fila "a.xlsx" 739000 (Some (time_hms 9 0 0));
      fila "b.xlsx" 739000 (Some (time_hms 14 0 0));
      fila "a.xlsx" 739000 (Some (time_hms 10 0 0));
      fila "b.xlsx" 739000 (Some (time_hms 15 0 0)) ].

(** C1.  One file, one nominal date, times 23:00:00 and 01:00:00: the
    aggregator returns 22:00:00, not the 02:00:00 of a midnight rollover.  The
    span is taken from the minimum to the maximum time of day, so it is 22 hours
    and never negative, and the 24-hour correction cannot apply. *)
Theorem medianoche_veintidos_horas :
  calcular_tiempo_total_por_archivo tabla_medianoche = horas 22
  /\ calcular_tiempo_total_por_archivo tabla_medianoche <> horas 2
  /\ format_timedelta_long (calcular_tiempo_total_por_archivo tabla_medianoche)
     = (22, 0, 0).
Proof. repeat split; vm_compute; congruence. Qed.

(** C2.  For every table the total is the sum, over the groups made by file
    and then by date, of the span from the minimum to the maximum valid time of
    the group; a group whose valid times are all one value spans zero, a group
    with no valid time contributes zero, and two files of one hour each on the
    same day total two hours.  The groups of a column are one per distinct
    non-null value that occurs in it. *)
Theorem total_es_suma_por_archivo_y_fecha :
  (forall df, calcular_tiempo_total_por_archivo df = suma_de_tramos df)
  /\ (forall (h : Z) n, tramo (repeat h (S n)) = 0)
  /\ tramo [] = 0
  /\ (forall total f rs, dropna (map r_Hora rs) = [] ->
        sumar_dia total (f, rs) = total)
  /\ calcular_tiempo_total_por_archivo tabla_dos_archivos = horas 2
  /\ (forall rs,
        NoDup (map fst (groupby_archivo rs))
        /\ forall a, In a (map fst (groupby_archivo rs))
                     <-> exists r, In r rs /\ r_NombreArchivo r = Some a)
  /\ (forall rs,
        NoDup (map fst (groupby_fecha rs))
        /\ forall f, In f (map fst (groupby_fecha rs))
                     <-> exists r, In r rs /\ r_Fecha r = Some f).
Proof.
  assert (Hgrupos :
    (forall rs,
        NoDup (map fst (groupby_archivo rs))
        /\ forall a, In a (map fst (groupby_archivo rs))
                     <-> exists r, In r rs /\ r_NombreArchivo r = Some a)
    /\ (forall rs,
        NoDup (map fst (groupby_fecha rs))
        /\ forall f, In f (map fst (groupby_fecha rs))
                     <-> exists r, In r rs /\ r_Fecha r = Some f)).
  { split; intro rs; unfold groupby_archivo, groupby_fecha;
      rewrite groupby_claves; split.
    - apply claves_NoDup, String.eqb_eq.
    - intro a. apply claves_In, String.eqb_eq.
    - apply claves_NoDup, Z.eqb_eq.
    - intro f. apply claves_In, Z.eqb_eq. }
  destruct Hgrupos as [Hga Hgf].
  split; [exact calcular_tiempo_suma_de_tramos|].
  split.
  { intros h n. destruct (serie_repetida h n) as [Hm HM].
    cbn [repeat tramo]. rewrite Hm, HM. lia. }
  split; [reflexivity|].
  split; [|split; [vm_compute; reflexivity|split; assumption]].
  intros total f rs H. unfold sumar_dia. rewrite H. reflexivity.
Qed.

Lemma total_es_suma_por_archivo_y_fecha_witness :
  calcular_tiempo_total_por_archivo tabla_dos_archivos
  = suma_de_tramos tabla_dos_archivos
  /\ sumar_dia 5 (739000, [fila "a.xlsx" 739000 None]) = 5.
Proof.
  destruct total_es_suma_por_archivo_y_fecha as (H1 & _ & _ & H4 & _ & _ & _).
  split; [apply H1 | apply H4; reflexivity].
Defined.

(* ================================================================= *)
(** ** Deleting a locality *)

(** The session: [st.session_state["tabla_maestra"]] and what the table
    [tabla_maestra] of [rni.db] holds ([None] before any write). *)
Record Sesion : Type := mkSesion {
  tabla_maestra : Tabla;
  db : option Tabla
}.

(** What [eliminar_localidad] shows: [st.warning], [st.error], [st.info] or
    [st.success], with the values formatted into the message. *)
Inductive Mensaje : Type :=
| warning_sin_datos
| error_sin_columna
| info_no_encontrada (nombre_localidad : string)
| success_eliminada (nombre_localidad : string) (eliminados : nat).

(** [save_tabla_maestra_to_db]: the table is replaced as a whole. *)
Definition save_tabla_maestra_to_db (df : Tabla) (s : Sesion) : Sesion :=
  mkSesion (tabla_maestra s) (Some df).

(** [df["Localidad"] == nombre_localidad], on one row: a null never equals. *)
Definition localidad_igual (nombre_localidad : string) (r : Registro) : bool :=
  match r_Localidad r with
  | Some l => String.eqb l nombre_localidad
  | None => false
  end.

(** [df["Localidad"] != nombre_localidad], on one row. *)
Definition localidad_distinta (nombre_localidad : string) (r : Registro) : bool :=
  negb (localidad_igual nombre_localidad r).

Definition eliminar_localidad (nombre_localidad : string) (s : Sesion)
  : Sesion * Mensaje :=
  if vacia (tabla_maestra s) then (s, warning_sin_datos)
  else
    let df := tabla_maestra s in
    if negb (tiene_columna "Localidad" df) then (s, error_sin_columna)
    else
      let eliminados := List.length (filter (localidad_igual nombre_localidad) (filas df)) in
      if Nat.eqb eliminados 0 then (s, info_no_encontrada nombre_localidad)
      else
        let df' := mkTabla (columnas df)
                           (filter (localidad_distinta nombre_localidad) (filas df)) in
        (save_tabla_maestra_to_db df' (mkSesion df' (db s)),
         success_eliminada nombre_localidad eliminados).

Definition registro_localidad (l : option string) (res : option Q) : Registro :=
  mkRegistro (Some "CABA") (Some "CABA") l res None None (Some "a.xlsx") None None
             None None None.

Definition sesion_ejemplo : Sesion :=
  mkSesion (mkTabla columnas_maestra
              [ registro_localidad (Some "Salta") None;
                registro_localidad (Some "salta") None;
                registro_localidad None None;
                registro_localidad (Some "Salta") None ])
           None.

(** The [Localidad] cell of a row of [df]: the field when [df] has the column,
    nothing otherwise.  A row matches a name when this cell is that very
    string. *)
Definition celda_Localidad (df : Tabla) (r : Registro) : option string :=
  if tiene_columna "Localidad" df then r_Localidad r else None.

Definition coincide (df : Tabla) (nombre_localidad : string) (r : Registro) : bool :=
  match celda_Localidad df r with
  | Some l => String.eqb l nombre_localidad
  | None => false
  end.

Definition es_success (m : Mensaje) : bool :=
  match m with success_eliminada _ _ => true | _ => false end.

Lemma filter_ninguno {A : Type} (p : A -> bool) (l : list A) :
  List.length (filter p l) = 0%nat -> filter (fun x => negb (p x)) l = l.
Proof.
  induction l as [|x l IH]; simpl; [reflexivity|].
  destruct (p x); simpl; [discriminate|].
  intro H. f_equal. exact (IH H).
Qed.

Lemma filter_particion {A : Type} (p : A -> bool) (l : list A) :
  (List.length (filter (fun x => negb (p x)) l) + List.length (filter p l))%nat = List.length l.
Proof.
  induction l as [|x l IH]; simpl; [reflexivity|].
  destruct (p x); simpl; lia.
Qed.

Lemma coincide_con_columna (df : Tabla) (nombre_localidad : string) :
  tiene_columna "Localidad" df = true ->
  forall r, coincide df nombre_localidad r = localidad_igual nombre_localidad r.
Proof. intros H r. unfold coincide, celda_Localidad. rewrite H. reflexivity. Qed.

Lemma coincide_sin_columna (df : Tabla) (nombre_localidad : string) :
  tiene_columna "Localidad" df = false ->
  forall r, coincide df nombre_localidad r = false.
Proof. intros H r. unfold coincide, celda_Localidad. rewrite H. reflexivity. Qed.

Lemma vacia_con_columna (df : Tabla) :
  vacia df = true -> tiene_columna "Localidad" df = true -> filas df = [].
Proof.
  unfold vacia, tiene_columna. destruct (filas df); [reflexivity|].
  destruct (columnas df); simpl; discriminate.
Qed.

Lemma en_filtro_distinta (df : Tabla) (nombre_localidad : string)
    (l : list Registro) (r : Registro) :
  In r (filter (fun x => negb (coincide df nombre_localidad x)) l)
  <-> In r l /\ celda_Localidad df r <> Some nombre_localidad.
Proof.
  rewrite filter_In. unfold coincide.
  destruct (celda_Localidad df r) as [x|]; simpl.
  - destruct (String.eqb_spec x nombre_localidad) as [->|Hne]; simpl;
      split; intros [H1 H2]; split; try assumption; congruence.
  - split; intros [H1 H2]; split; try assumption; congruence.
Qed.

(** What the function returns, case by case. *)
Lemma eliminar_localidad_casos (nombre_localidad : string) (s : Sesion) :
  let df := tabla_maestra s in
  let n := List.length (filter (coincide df nombre_localidad) (filas df)) in
  (n = 0%nat /\ fst (eliminar_localidad nombre_localidad s) = s
   /\ es_success (snd (eliminar_localidad nombre_localidad s)) = false
   /\ (vacia df = false -> tiene_columna "Localidad" df = true ->
       snd (eliminar_localidad nombre_localidad s)
       = info_no_encontrada nombre_localidad))
  \/ (n <> 0%nat
      /\ eliminar_localidad nombre_localidad s
         = (let df' := mkTabla (columnas df)
                         (filter (fun r => negb (coincide df nombre_localidad r))
                                 (filas df)) in
            (mkSesion df' (Some df'), success_eliminada nombre_localidad n))).
Proof.
  cbv zeta. unfold eliminar_localidad.
  destruct (tiene_columna "Localidad" (tabla_maestra s)) eqn:Hc.
  - rewrite (filter_ext _ _ (coincide_con_columna _ nombre_localidad Hc)).
    rewrite (filter_ext _ _
               (fun r => f_equal negb (coincide_con_columna _ nombre_localidad Hc r))).
    destruct (vacia (tabla_maestra s)) eqn:Hv.
    + left. rewrite (vacia_con_columna _ Hv Hc). simpl.
      repeat split; intros; congruence.
    + cbn [negb].
      destruct (Nat.eqb_spec
                  (List.length (filter (localidad_igual nombre_localidad)
                             (filas (tabla_maestra s)))) 0) as [H0|Hn0].
      * left. repeat split; auto.
      * right. split; [exact Hn0|]. reflexivity.
  - left. rewrite (filter_ext _ _ (coincide_sin_columna _ nombre_localidad Hc)).
    assert (Hnil : forall l : list Registro, filter (fun _ => false) l = []).
    { induction l; simpl; auto. }
    rewrite Hnil. simpl.
    destruct (vacia (tabla_maestra s)); simpl;
      repeat split; intros; congruence.
Qed.

(** C7.  Deleting a locality keeps exactly the rows whose [Localidad] cell is
    not the given string (compared exactly, case included), each kept row
    unchanged and in its place, and the columns unchanged.  When no row matches,
    the session is left as it was, nothing is written, and the notice shown
    reports no deletion: it is [st.info] on a table with rows and a [Localidad]
    column.  When rows match, the count shown is the number of rows removed and
    the new table is the one written to the store. *)
Theorem eliminar_localidad_exacta (nombre_localidad : string) (s : Sesion) :
  let df := tabla_maestra s in
  let s' := fst (eliminar_localidad nombre_localidad s) in
  let m := snd (eliminar_localidad nombre_localidad s) in
  let n := List.length (filter (coincide df nombre_localidad) (filas df)) in
  filas (tabla_maestra s')
    = filter (fun r => negb (coincide df nombre_localidad r)) (filas df)
  /\ columnas (tabla_maestra s') = columnas df
  /\ (forall r, In r (filas (tabla_maestra s')) <->
                In r (filas df) /\ celda_Localidad df r <> Some nombre_localidad)
  /\ (List.length (filas (tabla_maestra s')) + n)%nat = List.length (filas df)
  /\ (n = 0%nat ->
        s' = s /\ es_success m = false
        /\ (vacia df = false -> tiene_columna "Localidad" df = true ->
            m = info_no_encontrada nombre_localidad))
  /\ (n <> 0%nat ->
        m = success_eliminada nombre_localidad n
        /\ db s' = Some (tabla_maestra s')).
Proof.
  cbv zeta.
  pose proof (filter_particion (coincide (tabla_maestra s) nombre_localidad)
                (filas (tabla_maestra s))) as Hpart.
  pose proof (filter_ninguno (coincide (tabla_maestra s) nombre_localidad)
                (filas (tabla_maestra s))) as Hnone.
  destruct (eliminar_localidad_casos nombre_localidad s)
    as [(H0 & Hs & Hm & Hinfo) | (Hn0 & Heq)]; cbv zeta in *.
  - rewrite Hs, (Hnone H0).
    split; [reflexivity|]. split; [reflexivity|].
    split.
    { intro r. rewrite <- (Hnone H0) at 1. apply en_filtro_distinta. }
    split; [lia|]. split; [auto|]. intro Hn. contradiction.
  - rewrite Heq. cbn [fst snd tabla_maestra filas columnas db].
    split; [reflexivity|]. split; [reflexivity|].
    split; [intro r; apply en_filtro_distinta|].
    split; [exact Hpart|]. split; [intro H0; contradiction|].
    intros _. split; reflexivity.
Qed.

Lemma eliminar_localidad_exacta_witness :
  snd (eliminar_localidad "Salta" sesion_ejemplo) = success_eliminada "Salta" 2
  /\ fst (eliminar_localidad "SALTA" sesion_ejemplo) = sesion_ejemplo
  /\ snd (eliminar_localidad "SALTA" sesion_ejemplo) = info_no_encontrada "SALTA".
Proof.
  pose proof (eliminar_localidad_exacta "Salta" sesion_ejemplo) as H1.
  pose proof (eliminar_localidad_exacta "SALTA" sesion_ejemplo) as H2.
  cbv zeta in H1, H2.
  destruct H1 as (_ & _ & _ & _ & _ & H1).
  destruct H2 as (_ & _ & _ & _ & H2 & _).
  split; [apply H1; vm_compute; discriminate|].
  destruct (H2 eq_refl) as (Hs & _ & Hi).
  split; [exact Hs | apply Hi; reflexivity].
Defined.

(* ================================================================= *)
(** ** Percentage of limit and colour scale *)

Module Semaforo.
#[local] Open Scope float_scope.
#[local] Set Warnings "-inexact-float".

(** An integer literal that meets a float in an operation is converted to the
    float of the same value. *)
Definition entero (n : Z) : float := of_uint63 (Uint63.of_Z n).

Section Porcentaje.

(** [x ** y] on floats: the power of the float type, in the end the [pow] of
    the C library.  The program does not define it, and it is not always the
    correctly rounded power (at 4.536 the square it gives is one unit in the
    last place below the rounded product): nothing is assumed of it but what a
    statement says. *)
Variable potencia : float -> float -> float.

(** [max_resultado**2 / 3770 / 0.20021 * 100 if pd.notna(max_resultado) else None].
    [None] is Python's [None], a NaN is the float NaN; [**] binds tighter than
    [/], and [/] and [*] are taken from left to right. *)
Definition max_resultado_pct (max_resultado : option float) : option float :=
  match max_resultado with
  | Some r =>
      if is_nan r then None
      else Some (potencia r (entero 2) / entero 3770 / 0.20021 * entero 100)
  | None => None
  end.

(** The reference expression, as the specification writes it: the square,
    divided by 3770, divided by 0.20021, times 100, on floats. *)
Definition pct_referencia (r : float) : float :=
  ((potencia r 2 / 3770) / 0.20021) * 100.

End Porcentaje.

(** A power that is the correctly rounded product on squares. *)
Definition potencia_por_producto (x y : float) : float :=
  if y =? 2 then x * x else nan.

(** The rational a finite float stands for. *)
Definition valor_exacto (f : float) : option Q :=
  match FloatOps.Prim2SF f with
  | SpecFloat.S754_zero _ => Some 0%Q
  | SpecFloat.S754_finite s m e =>
      Some ((if s then - inject_Z (Z.pos m) else inject_Z (Z.pos m))
            * Qpower (inject_Z 2) e)%Q
  | _ => None
  end.

(** The reference expression on exact numbers. *)
Definition porcentaje_exacto (r : Q) : Q :=
  (r * r / 3770 / (20021 # 100000) * 100)%Q.

(** [next((color for low, high, color in rangos if low <= v < high), defecto)] *)
Fixpoint primero {C : Type} (rangos : list (float * float * C)) (v : float)
    (defecto : C) : C :=
  match rangos with
  | [] => defecto
  | (low, high, color) :: resto =>
      if (low <=? v) && (v <? high) then color else primero resto v defecto
  end.

(** The position of the range a value falls in, when there is one. *)
Fixpoint cubeta {C : Type} (rangos : list (float * float * C)) (v : float)
  : option nat :=
  match rangos with
  | [] => None
  | (low, high, _) :: resto =>
      if (low <=? v) && (v <? high) then Some O
      else option_map S (cubeta resto v)
  end.

Definition rangos_colores : list (float * float * string) :=
  [ (0, 1, "#84C2F5"%string); (1, 2, "#489DFF"%string); (2, 4, "#006BD6"%string);
    (4, 8, "#A9E7A9"%string); (8, 15, "#89DD89"%string); (15, 20, "#4D9623"%string);
    (20, 35, "#D9FF00"%string); (35, 50, "#F39A6D"%string);
    (50, 100, "#E68200"%string); (100, infinity, "#CC0000"%string) ].

(** The on-screen indicator: [color_localidad]. *)
Definition color_localidad (max_resultado_pct : float) : string :=
  primero rangos_colores max_resultado_pct "#FFFFFF"%string.

(** The indicator is drawn [if max_resultado_pct and not df_localidad.empty]:
    a [None] and a zero are falsy. *)
Definition indicador (pct : option float) (df_empty : bool) : option string :=
  match pct with
  | Some p => if (p =? 0) || df_empty then None else Some (color_localidad p)
  | None => None
  end.

Definition rangos_colores_map : list (float * float * list Z) :=
  [ (0, 1, [132; 194; 245]%Z); (1, 2, [72; 157; 255]%Z); (2, 4, [0; 107; 214]%Z);
    (4, 8, [169; 231; 169]%Z); (8, 15, [137; 221; 137]%Z); (15, 20, [77; 150; 35]%Z);
    (20, 35, [217; 255; 0]%Z); (35, 50, [243; 154; 109]%Z);
    (50, 100, [230; 130; 0]%Z); (100, infinity, [204; 0; 0]%Z) ].

(** The map: [color_semaforo], applied to the [Resultado] of each point by
    [coords["color"] = coords["Resultado"].apply(color_semaforo)]. *)
Definition color_semaforo (valor : float) : list Z :=
  if is_nan valor then [200; 200; 200]%Z
  else primero rangos_colores_map valor [0; 0; 0]%Z.

Definition color_punto (resultado : float) : list Z := color_semaforo resultado.

(** Reading a ["#RRGGBB"] colour as its three components. *)
Definition hex_digito (c : ascii) : option Z :=
  let n := Z.of_nat (nat_of_ascii c) in
  if ((48 <=? n) && (n <=? 57))%Z then Some (n - 48)%Z
  else if ((65 <=? n) && (n <=? 70))%Z then Some (n - 55)%Z
  else if ((97 <=? n) && (n <=? 102))%Z then Some (n - 87)%Z
  else None.

Definition hex_par (a b : ascii) : option Z :=
  match hex_digito a, hex_digito b with
  | Some x, Some y => Some (16 * x + y)%Z
  | _, _ => None
  end.

Definition rgb_de_hex (s : string) : option (list Z) :=
  match s with
  | String "#" (String r1 (String r2 (String g1 (String g2
      (String b1 (String b2 EmptyString)))))) =>
      match hex_par r1 r2, hex_par g1 g2, hex_par b1 b2 with
      | Some r, Some g, Some b => Some [r; g; b]
      | _, _, _ => None
      end
  | _ => None
  end.

(** The integers of the expression are the floats of the reference. *)
Lemma pct_es_referencia (potencia : float -> float -> float) (r : float) :
  is_nan r = false ->
  max_resultado_pct potencia (Some r) = Some (pct_referencia potencia r).
Proof.
  intro H. unfold max_resultado_pct, pct_referencia. rewrite H.
  assert (H2 : entero 2 = 2) by (vm_compute; reflexivity).
  assert (H3770 : entero 3770 = 3770) by (vm_compute; reflexivity).
  assert (H100 : entero 100 = 100) by (vm_compute; reflexivity).
  rewrite H2, H3770, H100. reflexivity.
Qed.

(** C10.  For every non-null result [r] the percentage of limit is the value
    of the reference expression [r ** 2 / 3770 / 0.20021 * 100] on binary64
    floats, the integers converted and the operations taken from left to
    right; where the power is the rounded product, it is
    [r * r / 3770 / 0.20021 * 100].  For [r = 87.0], whose square 7569 is a
    float, it is the double 0x1.f5658843b9beap+9 (1002.7932209641415): the value
    of the reference expression on floats, and the float nearest to the exact
    87^2 / 3770 / 0.20021 * 100, within half a unit of its last place (2^-44).
    A null result, [None] or NaN, has no percentage. *)
Theorem porcentaje_del_limite (potencia : float -> float -> float) :
  (forall r, is_nan r = false ->
     max_resultado_pct potencia (Some r) = Some (pct_referencia potencia r))
  /\ (forall r, is_nan r = false -> potencia r 2 = r * r ->
       max_resultado_pct potencia (Some r) = Some (r * r / 3770 / 0.20021 * 100))
  /\ (potencia 87 2 = 7569 ->
       max_resultado_pct potencia (Some 87) = Some 0x1.f5658843b9beap+9
       /\ pct_referencia potencia 87 = 0x1.f5658843b9beap+9
       /\ exists q, valor_exacto 0x1.f5658843b9beap+9 = Some q
                    /\ (Qabs (q - porcentaje_exacto 87) <= 1 # 2 ^ 44)%Q)
  /\ max_resultado_pct potencia None = None
  /\ max_resultado_pct potencia (Some nan) = None.
Proof.
  pose proof (pct_es_referencia potencia) as Hgen.
  split; [exact Hgen|]. split.
  - intros r H Hp. rewrite (Hgen r H). unfold pct_referencia. rewrite Hp.
    reflexivity.
  - split; [|split; reflexivity].
    intro Hp.
    assert (Hr : pct_referencia potencia 87 = 0x1.f5658843b9beap+9).
    { unfold pct_referencia. rewrite Hp. vm_compute. reflexivity. }
    split; [rewrite (Hgen 87 eq_refl), Hr; reflexivity|].
    split; [exact Hr|].
    eexists. split; [vm_compute; reflexivity|].
    apply Qle_bool_iff. vm_compute. reflexivity.
Qed.

Lemma porcentaje_del_limite_witness :
  max_resultado_pct potencia_por_producto (Some 27.5)
  = Some (27.5 * 27.5 / 3770 / 0.20021 * 100)
  /\ max_resultado_pct potencia_por_producto (Some 87) = Some 0x1.f5658843b9beap+9.
Proof.
  split.
  - apply (proj1 (proj2 (porcentaje_del_limite potencia_por_producto)));
      vm_compute; reflexivity.
  - apply (proj1 (proj2 (proj2 (porcentaje_del_limite potencia_por_producto)))).
    vm_compute. reflexivity.
Defined.

(** The power cannot be replaced by the product: where it gives, as the C
    library does at 4.536, the float below the rounded product, the
    percentage is another float. *)
Lemma potencia_no_es_producto (potencia : float -> float -> float) :
  potencia 4.536 2 = 0x1.4934699418504p+4 ->
  4.536 * 4.536 = 0x1.4934699418505p+4
  /\ max_resultado_pct potencia (Some 4.536) = Some 0x1.5cec27627a995p+1
  /\ 4.536 * 4.536 / 3770 / 0.20021 * 100 = 0x1.5cec27627a996p+1.
Proof.
  intro Hp. split; [vm_compute; reflexivity|]. split; [|vm_compute; reflexivity].
  rewrite (pct_es_referencia potencia 4.536 eq_refl).
  unfold pct_referencia. rewrite Hp. vm_compute. reflexivity.
Qed.

Ltac por_rangos :=
  repeat match goal with
         | |- context [if ?b then _ else _] => destruct b
         end.

(** The two tables have the same boundaries: a value falls in the same
    position of both. *)
Lemma cubeta_comun (v : float) :
  cubeta rangos_colores v = cubeta rangos_colores_map v.
Proof. unfold rangos_colores, rangos_colores_map. cbn [cubeta]. reflexivity. Qed.

(** X26.  The indicator and the map share the ten half-open ranges and the ten
    colours: every non-null value is put in the same range by both, and a
    value in a range gets the same colour, written in hexadecimal for the
    indicator and as RGB components for the map.  Outside the ranges the
    indicator is white and the map black; a null value of the map is grey, and
    the indicator is not drawn for a null. *)
Theorem escala_compartida (v : float) :
  (is_nan v = false ->
   cubeta rangos_colores v = cubeta rangos_colores_map v
   /\ (cubeta rangos_colores v <> None ->
       rgb_de_hex (color_localidad v) = Some (color_semaforo v))
   /\ (cubeta rangos_colores v = None ->
       color_localidad v = "#FFFFFF"%string /\ color_semaforo v = [0; 0; 0]%Z))
  /\ (is_nan v = true -> color_semaforo v = [200; 200; 200]%Z)
  /\ forall df_empty, indicador None df_empty = None.
Proof.
  split; [|split; [intro Hnan; unfold color_semaforo; rewrite Hnan; reflexivity
                  |reflexivity]].
  intro Hnan. split; [apply cubeta_comun|].
  unfold color_semaforo, color_localidad. rewrite Hnan.
  unfold rangos_colores, rangos_colores_map. cbn [cubeta primero option_map].
  split.
  - por_rangos; intro H; try reflexivity; exfalso; apply H; reflexivity.
  - por_rangos; intro H; try discriminate H; split; reflexivity.
Qed.

Lemma escala_compartida_witness :
  rgb_de_hex (color_localidad 9.5) = Some (color_semaforo 9.5)
  /\ color_semaforo (-1) = [0; 0; 0]%Z
  /\ color_semaforo nan = [200; 200; 200]%Z.
Proof.
  split; [|split].
  - apply (proj1 (escala_compartida 9.5)); vm_compute; [reflexivity | discriminate].
  - apply (proj1 (escala_compartida (-1))); vm_compute; reflexivity.
  - apply (proj1 (proj2 (escala_compartida nan))). vm_compute. reflexivity.
Defined.

(** C9.  The indicator and the map do not classify the same value.  The
    indicator is given the percentage of limit of the largest result; the map
    gives [color_semaforo] the [Resultado] of each point, in V/m, and not its
    percentage.  For a record whose result is 3 V/m (whose square 9 is a
    float) the percentage is 1.19..., in the second range, and the indicator
    is [#489DFF]; the map colours the point by 3, in the third range, with
    the colour of [#006BD6].  So it is not true that every record is put in the
    same range by both. *)
Theorem mapa_clasifica_resultado (potencia : float -> float -> float) :
  potencia 3 2 = 9 ->
  max_resultado_pct potencia (Some 3) = Some 0x1.313ff18cc5187p+0
  /\ cubeta rangos_colores 0x1.313ff18cc5187p+0 = Some 1%nat
  /\ indicador (max_resultado_pct potencia (Some 3)) false = Some "#489DFF"%string
  /\ cubeta rangos_colores_map 3 = Some 2%nat
  /\ color_punto 3 = [0; 107; 214]%Z
  /\ rgb_de_hex "#489DFF" <> Some (color_punto 3)
  /\ ~ (forall r p, max_resultado_pct potencia (Some r) = Some p ->
          cubeta rangos_colores_map r = cubeta rangos_colores p).
Proof.
  intro Hp.
  assert (H : max_resultado_pct potencia (Some 3) = Some 0x1.313ff18cc5187p+0).
  { rewrite (pct_es_referencia potencia 3 eq_refl). unfold pct_referencia.
    rewrite Hp. vm_compute. reflexivity. }
  split; [exact H|]. split; [vm_compute; reflexivity|].
  split; [rewrite H; vm_compute; reflexivity|].
  split; [vm_compute; reflexivity|]. split; [vm_compute; reflexivity|].
  split; [vm_compute; discriminate|].
  intro Hall. specialize (Hall 3 _ H). vm_compute in Hall. discriminate Hall.
Qed.

Lemma mapa_clasifica_resultado_witness :
  indicador (max_resultado_pct potencia_por_producto (Some 3)) false
  = Some "#489DFF"%string
  /\ color_punto 3 = [0; 107; 214]%Z.
Proof.
  destruct (mapa_clasifica_resultado potencia_por_producto eq_refl)
    as (_ & _ & H1 & _ & H2 & _).
  split; [exact H1|exact H2].
Defined.

End Semaforo.

(* ================================================================= *)
(** ** Text and regular expressions *)

(** A text is the list of its characters. *)
Definition texto := list ascii.

Definition t (s : string) : texto := list_ascii_of_string s.

(** Character classes: [\d], [\D], [\s], and the sets of the patterns. *)
Definition codigo (a : ascii) : N := N_of_ascii a.

Definition es_digito (a : ascii) : bool :=
  ((48 <=? codigo a) && (codigo a <=? 57))%N.

Definition no_digito (a : ascii) : bool := negb (es_digito a).

Definition es_espacio (a : ascii) : bool :=
  (((9 <=? codigo a) && (codigo a <=? 13))
   || ((28 <=? codigo a) && (codigo a <=? 32)))%N.

Definition es_signo (a : ascii) : bool := Ascii.eqb a "+" || Ascii.eqb a "-".
Definition es_punto (a : ascii) : bool := Ascii.eqb a ".".
Definition es_e (a : ascii) : bool := Ascii.eqb a "e" || Ascii.eqb a "E".
Definition es_hemisferio (a : ascii) : bool :=
  existsb (Ascii.eqb a) (t "NnSsEeWwOo").

(** The fragment of [re] syntax the patterns of the program use.  Repetition
    is only ever applied to a character class. *)
Inductive re : Type :=
| Cls (p : ascii -> bool)        (* one character of a class            *)
| Seq (r1 r2 : re)               (* r1 r2                               *)
| Opt (r : re)                   (* r?     greedy                       *)
| Star (p : ascii -> bool)       (* [p]*   greedy                       *)
| Plus (p : ascii -> bool)       (* [p]+   greedy                       *)
| Grp (i : nat) (r : re).        (* ( r )  capturing group number i     *)

(** Captured groups, the latest capture first. *)
Definition capturas := list (nat * texto).

Fixpoint grupo (i : nat) (c : capturas) : option texto :=
  match c with
  | [] => None
  | (j, x) :: c' => if Nat.eqb i j then Some x else grupo i c'
  end.

Section Motor.
Context {A : Type}.

(** Greedy repetition of a class: the longest run first, then shorter ones. *)
Fixpoint repetir (p : ascii -> bool) (s : texto) (k : texto -> option A)
  : option A :=
  match s with
  | a :: s' =>
      if p a
      then match repetir p s' k with
           | Some x => Some x
           | None => k s
           end
      else k s
  | [] => k []
  end.

(** The backtracking matcher, in continuation-passing style: [exec r s c k]
    matches [r] at the head of [s] and hands the rest of the text and the
    captures to [k]; when [k] fails, the next alternative of [r] is tried, in
    the order of the [re] module. *)
Fixpoint exec (r : re) (s : texto) (c : capturas)
    (k : texto -> capturas -> option A) : option A :=
  match r with
  | Cls p =>
      match s with
      | a :: s' => if p a then k s' c else None
      | [] => None
      end
  | Seq r1 r2 => exec r1 s c (fun s1 c1 => exec r2 s1 c1 k)
  | Opt r1 =>
      match exec r1 s c k with
      | Some x => Some x
      | None => k s c
      end
  | Star p => repetir p s (fun s' => k s' c)
  | Plus p =>
      match s with
      | a :: s' => if p a then repetir p s' (fun s'' => k s'' c) else None
      | [] => None
      end
  | Grp i r1 =>
      exec r1 s c
        (fun s1 c1 => k s1 ((i, firstn (List.length s - List.length s1) s) :: c1))
  end.
End Motor.

(** A match object: where it starts, [m.group(0)] and the captured groups. *)
Record Match : Type := mkMatch {
  inicio : nat;
  coincidencia : texto;
  grupos : capturas
}.

Definition fin (s : texto) (c : capturas) : option (texto * capturas) :=
  Some (s, c).

(** [re.match]: the pattern at the head of the text. *)
Definition re_match (r : re) (s : texto) : option (texto * capturas) :=
  exec r s [] fin.

(** [re.search]: the first position, from the left, where the pattern
    matches. *)
Fixpoint buscar (r : re) (s : texto) (pos : nat) : option Match :=
  match re_match r s with
  | Some (s', c) =>
      Some (mkMatch pos (firstn (List.length s - List.length s') s) c)
  | None =>
      match s with
      | [] => None
      | _ :: s' => buscar r s' (S pos)
      end
  end.

Definition re_search (r : re) (s : texto) : option Match := buscar r s 0.

(** [\d+(?:\.\d+)?] *)
Definition NUMERO_SIMPLE : re :=
  Seq (Plus es_digito) (Opt (Seq (Cls es_punto) (Plus es_digito))).

(** [[+-]?\d+(?:\.\d+)?] *)
Definition NUMERO_CON_SIGNO : re := Seq (Opt (Cls es_signo)) NUMERO_SIMPLE.

(** [\D*\s*([NnSsEeWwOo])?] *)
Definition COLA_DMS : re :=
  Seq (Star no_digito) (Seq (Star es_espacio) (Opt (Grp 4 (Cls es_hemisferio)))).

(** [([+-]?\d+(?:\.\d+)?)\D+(\d+(?:\.\d+)?)\D+(\d+(?:\.\d+)?)\D*\s*([NnSsEeWwOo])?] *)
Definition PATRON_DMS : re :=
  Seq (Grp 1 NUMERO_CON_SIGNO)
 (Seq (Plus no_digito)
 (Seq (Grp 2 NUMERO_SIMPLE)
 (Seq (Plus no_digito)
 (Seq (Grp 3 NUMERO_SIMPLE) COLA_DMS)))).

(** [[eE][-+]?\d+] *)
Definition EXPONENTE : re :=
  Seq (Cls es_e) (Seq (Opt (Cls es_signo)) (Plus es_digito)).

(** [[-+]?\d+(?:\.\d+)?(?:[eE][-+]?\d+)?] *)
Definition NUMERO_EXP : re := Seq NUMERO_CON_SIGNO (Opt EXPONENTE).

(** [([-+]?\d+(?:\.\d+)?(?:[eE][-+]?\d+)?)] *)
Definition PATRON_NUMERO : re := Grp 1 NUMERO_EXP.

(** [s.replace(",", ".")] *)
Definition replace_coma (s : texto) : texto :=
  map (fun a => if Ascii.eqb a "," then "."%char else a) s.

(** [s.strip()] *)
Fixpoint lstrip (s : texto) : texto :=
  match s with
  | a :: s' => if es_espacio a then lstrip s' else s
  | [] => []
  end.

Definition strip (s : texto) : texto := rev (lstrip (rev (lstrip s))).

(* ================================================================= *)
(** ** Reading numbers: [float(...)] and [pd.to_numeric] *)

(** Letters of the ASCII range, one case to the other. *)
Definition minuscula (a : ascii) : ascii :=
  if ((65 <=? codigo a) && (codigo a <=? 90))%N
  then ascii_of_N (codigo a + 32) else a.

Definition mayuscula (a : ascii) : ascii :=
  if ((97 <=? codigo a) && (codigo a <=? 122))%N
  then ascii_of_N (codigo a - 32) else a.

Definition texto_eqb (x y : texto) : bool :=
  String.eqb (string_of_list_ascii x) (string_of_list_ascii y).

(** What [float(s)] does on a text: it raises [ValueError] or returns a float.
    A finite float is the exact rational its literal denotes; a NaN is [None],
    and so is an infinity, which the rationals do not have. *)
Inductive float_de_texto : Type :=
| ValueError
| valor (v : option Q).

Definition valor_digito (a : ascii) : Z := Z.of_N (codigo a) - 48.

Definition valor_digitos (ds : texto) : Z :=
  fold_left (fun acc a => 10 * acc + valor_digito a) ds 0.

Section Literal.
(** Python's [float] lets one underscore stand between two digits;
    [pd.to_numeric] does not. *)
Variable guion_bajo : bool.

(** The digits after the first one of a [digitpart]. *)
Fixpoint digitos_resto (s : texto) : texto * texto :=
  match s with
  | a :: s' =>
      if es_digito a
      then let (ds, r) := digitos_resto s' in (a :: ds, r)
      else if guion_bajo && Ascii.eqb a "_"
      then match s' with
           | b :: s'' =>
               if es_digito b
               then let (ds, r) := digitos_resto s'' in (b :: ds, r)
               else ([], s)
           | [] => ([], s)
           end
      else ([], s)
  | [] => ([], [])
  end.

(** [digitpart ::= digit (["_"] digit)*]: its digits and the rest of the text. *)
Definition digitpart (s : texto) : option (texto * texto) :=
  match s with
  | a :: s' =>
      if es_digito a
      then let (ds, r) := digitos_resto s' in Some (a :: ds, r)
      else None
  | [] => None
  end.

(** [number ::= [digitpart] "." digitpart | digitpart ["."]]: the digits as an
    integer, how many of them are decimals, and the rest. *)
Definition leer_numero (s : texto) : option (Z * Z * texto) :=
  match digitpart s with
  | Some (ds, r) =>
      match r with
      | a :: r1 =>
          if es_punto a
          then match digitpart r1 with
               | Some (fs, r2) =>
                   Some (valor_digitos (ds ++ fs), Z.of_nat (List.length fs), r2)
               | None => Some (valor_digitos ds, 0, r1)
               end
          else Some (valor_digitos ds, 0, r)
      | [] => Some (valor_digitos ds, 0, [])
      end
  | None =>
      match s with
      | a :: r1 =>
          if es_punto a
          then match digitpart r1 with
               | Some (fs, r2) =>
                   Some (valor_digitos fs, Z.of_nat (List.length fs), r2)
               | None => None
               end
          else None
      | [] => None
      end
  end.

(** [[sign]]: whether it is a minus, and the rest. *)
Definition leer_signo (s : texto) : bool * texto :=
  match s with
  | a :: s' =>
      if Ascii.eqb a "-" then (true, s')
      else if Ascii.eqb a "+" then (false, s')
      else (false, s)
  | [] => (false, [])
  end.

(** [exponent ::= ("e" | "E") [sign] digitpart], when there is one. *)
Definition leer_exponente (s : texto) : option (Z * texto) :=
  match s with
  | a :: s1 =>
      if es_e a
      then let (neg, s2) := leer_signo s1 in
           match digitpart s2 with
           | Some (ds, r) =>
               Some ((if neg then - valor_digitos ds else valor_digitos ds), r)
           | None => None
           end
      else Some (0, s)
  | [] => Some (0, [])
  end.

Definition es_inf_o_nan (s : texto) : bool :=
  let l := map minuscula s in
  texto_eqb l (t "inf") || texto_eqb l (t "infinity") || texto_eqb l (t "nan").

(** The value [m * 10^e] of a literal. *)
Definition decimal (neg : bool) (m e : Z) : Q :=
  (if neg then - inject_Z m else inject_Z m) * Qpower (inject_Z 10) e.

(** The literal after its sign. *)
Definition literal_sin_signo (neg : bool) (s1 : texto) : float_de_texto :=
  if es_inf_o_nan s1 then valor None
  else match leer_numero s1 with
       | Some (m, nf, r) =>
           match leer_exponente r with
           | Some (e, []) => valor (Some (decimal neg m (e - nf)))
           | _ => ValueError
           end
       | None => ValueError
       end.

Definition literal (s : texto) : float_de_texto :=
  let (neg, s1) := leer_signo (strip s) in literal_sin_signo neg s1.
End Literal.

(** [float(s)] on a text. *)
Definition py_float (s : texto) : float_de_texto := literal true s.

(** [pd.to_numeric(s, errors="coerce")] on a text: what is not a number is a
    null. *)
Definition to_numeric_texto (s : texto) : option Q :=
  match literal false s with
  | valor v => v
  | ValueError => None
  end.

(* ================================================================= *)
(** ** Field coercions *)

(** A cell of a sheet: a null, a number, a text, or another object (a date, a
    time) with its [str()]. *)
Inductive celda : Type :=
| NaN
| Num (x : Q)
| Txt (s : string)
| Otro (repr : string).

Inductive excepcion : Type :=
| IndexError
| TypeError
| AttributeError
| ValueErrorExc
| OverflowError.

Inductive resultado (A : Type) : Type :=
| Ok (a : A)
| Raise (e : excepcion).
Arguments Ok {A} a.
Arguments Raise {A} e.

Definition bind {A B : Type} (x : resultado A) (f : A -> resultado B)
  : resultado B :=
  match x with
  | Ok a => f a
  | Raise e => Raise e
  end.

Notation "x <- e1 ;; e2" := (bind e1 (fun x => e2))
  (at level 61, e1 at next level, right associativity).

(** [float(m.group(i))], outside any [try]. *)
Definition float_de_grupo (m : Match) (i : nat) : resultado (option Q) :=
  match grupo i (grupos m) with
  | Some x =>
      match py_float x with
      | valor v => Ok v
      | ValueError => Raise ValueErrorExc
      end
  | None => Raise TypeError
  end.

(** Float arithmetic, a NaN being contagious. *)
Definition f_abs (x : option Q) : option Q := option_map Qabs x.
Definition f_neg (x : option Q) : option Q := option_map Qopp x.
Definition f_add (x y : option Q) : option Q :=
  match x, y with
  | Some a, Some b => Some (a + b)%Q
  | _, _ => None
  end.
Definition f_div (x : option Q) (d : Z) : option Q :=
  option_map (fun a => a / inject_Z d)%Q x.

(** [(m.group(4) or "").upper()] *)
Definition hemisferio_de (m : Match) : texto :=
  match grupo 4 (grupos m) with
  | Some x => map mayuscula x
  | None => []
  end.

(** The part of [parse_dms_to_decimal] that works on [str(val)]. *)
Definition parse_dms_texto (s0 : texto) : resultado (option Q) :=
  let s := replace_coma (strip s0) in
  match re_search PATRON_DMS s with
  | Some m =>
      d <- float_de_grupo m 1 ;;
      mnt <- float_de_grupo m 2 ;;
      sec <- float_de_grupo m 3 ;;
      let hemi := hemisferio_de m in
      let dec := f_add (f_add (f_abs d) (f_div mnt 60)) (f_div sec 3600) in
      Ok (if existsb (texto_eqb hemi) [t "S"; t "W"; t "O"]
          then f_neg dec else dec)
  | None =>
      match re_search PATRON_NUMERO s with
      | Some m2 =>
          match float_de_grupo m2 1 with
          | Ok v => Ok v
          | Raise _ => Ok None
          end
      | None => Ok None
      end
  end.

Definition parse_dms_to_decimal (val : celda) : resultado (option Q) :=
  match val with
  | NaN => Ok None
  | Num x => Ok (Some x)
  | Txt s =>
      match py_float (t s) with
      | valor v => Ok v
      | ValueError => parse_dms_texto (t s)
      end
  | Otro repr => parse_dms_texto (t repr)
  end.

(** [extract_numeric_from_text], on the text of one cell. *)
Definition extract_numeric_texto (s0 : texto) : option Q :=
  let s := replace_coma s0 in
  match re_search PATRON_NUMERO s with
  | Some m =>
      match grupo 1 (grupos m) with
      | Some num => to_numeric_texto num
      | None => None
      end
  | None => None
  end.

(** On one cell.  [astype(str)] writes a null as ["nan"]; it writes a number
    as the shortest literal that reads back as that number, which the pattern
    matches whole. *)
Definition extract_numeric_celda (c : celda) : option Q :=
  match c with
  | NaN => extract_numeric_texto (t "nan")
  | Num x => Some x
  | Txt s => extract_numeric_texto (t s)
  | Otro repr => extract_numeric_texto (t repr)
  end.

Definition extract_numeric_from_text (series : list celda) : list (option Q) :=
  map extract_numeric_celda series.

(* ================================================================= *)
(** ** What the matcher finds *)

(** The language of a pattern. *)
Inductive Coincide : re -> texto -> Prop :=
| C_cls p a : p a = true -> Coincide (Cls p) [a]
| C_seq r1 r2 x y :
    Coincide r1 x -> Coincide r2 y -> Coincide (Seq r1 r2) (x ++ y)
| C_opt_no r : Coincide (Opt r) []
| C_opt_si r x : Coincide r x -> Coincide (Opt r) x
| C_star p x : forallb p x = true -> Coincide (Star p) x
| C_plus p a x : p a = true -> forallb p x = true -> Coincide (Plus p) (a :: x)
| C_grp i r x : Coincide r x -> Coincide (Grp i r) x.

Fixpoint sin_grupos (r : re) : bool :=
  match r with
  | Cls _ | Star _ | Plus _ => true
  | Seq r1 r2 => sin_grupos r1 && sin_grupos r2
  | Opt r1 => sin_grupos r1
  | Grp _ _ => false
  end.

(** A text that does not start with a character of the class. *)
Definition no_empieza (p : ascii -> bool) (s : texto) : bool :=
  match s with
  | a :: _ => negb (p a)
  | [] => true
  end.

Lemma firstn_prefijo (u s' : texto) :
  firstn (List.length (u ++ s') - List.length s') (u ++ s') = u.
Proof.
  rewrite length_app, Nat.add_sub.
  rewrite firstn_app, Nat.sub_diag, firstn_all. simpl. apply app_nil_r.
Qed.

Section MotorTeoria.
Context {A : Type}.
Implicit Types (k : texto -> capturas -> option A) (x : A).

Lemma repetir_sound p s (k : texto -> option A) x :
  repetir p s k = Some x ->
  exists u s', s = u ++ s' /\ forallb p u = true /\ k s' = Some x.
Proof.
  induction s as [|a s IH]; simpl.
  - intro H. exists [], []. auto.
  - destruct (p a) eqn:Hp.
    + destruct (repetir p s k) as [y|] eqn:Hr.
      * intro H. inversion H; subst y.
        destruct (IH eq_refl) as (u & s' & -> & Hu & Hk).
        exists (a :: u), s'. simpl. rewrite Hp, Hu. auto.
      * intro H. exists [], (a :: s). auto.
    + intro H. exists [], (a :: s). auto.
Qed.

Lemma repetir_complete p s (k : texto -> option A) :
  repetir p s k = None ->
  forall u s', s = u ++ s' -> forallb p u = true -> k s' = None.
Proof.
  induction s as [|a s IH]; simpl; intros H u s' Hs Hu.
  - destruct u; [|discriminate]. simpl in Hs. subst s'. exact H.
  - destruct u as [|b u].
    + simpl in Hs. subst s'.
      destruct (p a); [destruct (repetir p s k); [discriminate|]|]; exact H.
    + simpl in Hs, Hu. injection Hs as -> ->.
      apply andb_true_iff in Hu as [Hb Hu]. rewrite Hb in H.
      destruct (repetir p (u ++ s') k) eqn:Hr; [discriminate|].
      exact (IH eq_refl u s' eq_refl Hu).
Qed.

(** The longest run is tried first. *)
Lemma repetir_greedy p u s' (k : texto -> option A) x :
  forallb p u = true -> no_empieza p s' = true -> k s' = Some x ->
  repetir p (u ++ s') k = Some x.
Proof.
  intros Hu Hs Hk. induction u as [|a u IH]; simpl in *.
  - destruct s' as [|b s']; [exact Hk|].
    simpl in Hs. apply negb_true_iff in Hs. simpl. rewrite Hs. exact Hk.
  - apply andb_true_iff in Hu as [Ha Hu]. rewrite Ha, (IH Hu). reflexivity.
Qed.

(** Every text splits into its longest run of a class and the rest. *)
Lemma tramo_maximo p (s : texto) :
  exists u s', s = u ++ s' /\ forallb p u = true /\ no_empieza p s' = true.
Proof.
  induction s as [|a s (u & s' & -> & Hu & Hs)].
  - exists [], []. auto.
  - destruct (p a) eqn:Hp.
    + exists (a :: u), s'. simpl. rewrite Hp, Hu. auto.
    + exists [], (a :: u ++ s'). simpl. rewrite Hp. auto.
Qed.

(** Soundness, for a pattern without groups: what is found is a prefix in the
    language of the pattern, and the continuation accepted the rest. *)
Lemma exec_sound r : sin_grupos r = true ->
  forall s c k x, exec r s c k = Some x ->
  exists u s', s = u ++ s' /\ Coincide r u /\ k s' c = Some x.
Proof.
  induction r as [p|r1 IH1 r2 IH2|r1 IH1|p|p|i r1 IH1]; simpl; intros Hg s c k x H.
  - destruct s as [|a s]; [discriminate|]. destruct (p a) eqn:Hp; [|discriminate].
    exists [a], s. split; [reflexivity|]. split; [constructor; exact Hp|exact H].
  - apply andb_true_iff in Hg as [Hg1 Hg2].
    destruct (IH1 Hg1 _ _ _ _ H) as (u1 & s1 & -> & Hc1 & H1).
    destruct (IH2 Hg2 _ _ _ _ H1) as (u2 & s2 & -> & Hc2 & H2).
    exists (u1 ++ u2), s2. rewrite app_assoc. split; [reflexivity|].
    split; [constructor; assumption|exact H2].
  - destruct (exec r1 s c k) as [y|] eqn:Hr.
    + inversion H; subst y.
      destruct (IH1 Hg _ _ _ _ Hr) as (u & s' & -> & Hc & Hk).
      exists u, s'. split; [reflexivity|]. split; [apply C_opt_si; exact Hc|exact Hk].
    + exists [], s. split; [reflexivity|]. split; [constructor|exact H].
  - destruct (repetir_sound _ _ _ _ H) as (u & s' & -> & Hu & Hk).
    exists u, s'. split; [reflexivity|]. split; [constructor; exact Hu|exact Hk].
  - destruct s as [|a s]; [discriminate|]. destruct (p a) eqn:Hp; [|discriminate].
    destruct (repetir_sound _ _ _ _ H) as (u & s' & -> & Hu & Hk).
    exists (a :: u), s'. split; [reflexivity|].
    split; [constructor; assumption|exact Hk].
  - discriminate.
Qed.

(** Completeness, for a pattern without groups: when nothing is found, the
    continuation refused the rest after every prefix in the language. *)
Lemma exec_complete r : sin_grupos r = true ->
  forall s c k, exec r s c k = None ->
  forall u s', s = u ++ s' -> Coincide r u -> k s' c = None.
Proof.
  induction r as [p|r1 IH1 r2 IH2|r1 IH1|p|p|i r1 IH1]; simpl;
    intros Hg s c k H u s' Hs Hc; inversion Hc; subst; clear Hc.
  - simpl in H. match goal with Hp : p _ = true |- _ => rewrite Hp in H end. exact H.
  - apply andb_true_iff in Hg as [Hg1 Hg2].
    rewrite <- app_assoc in H.
    match goal with
    | H1 : Coincide r1 ?x1, H2 : Coincide r2 ?y1 |- _ =>
        pose proof (IH1 Hg1 _ _ _ H x1 (y1 ++ s') eq_refl H1) as Hmid;
        exact (IH2 Hg2 _ _ _ Hmid y1 s' eq_refl H2)
    end.
  - simpl in H. destruct (exec r1 s' c k); [discriminate|exact H].
  - destruct (exec r1 (u ++ s') c k) eqn:Hr; [discriminate|].
    match goal with
    | H1 : Coincide r1 u |- _ => exact (IH1 Hg _ _ _ Hr u s' eq_refl H1)
    end.
  - match goal with
    | Hu : forallb p u = true |- _ =>
        exact (repetir_complete _ _ _ H u s' eq_refl Hu)
    end.
  - simpl in H.
    match goal with
    | Hp : p ?a = true, Hu : forallb p ?x = true |- _ =>
        rewrite Hp in H; exact (repetir_complete _ _ _ H x s' eq_refl Hu)
    end.
  - discriminate.
Qed.

(** The same for one capturing group around a pattern without groups. *)
Lemma exec_grp_sound i r : sin_grupos r = true ->
  forall s c k x, exec (Grp i r) s c k = Some x ->
  exists u s', s = u ++ s' /\ Coincide r u /\ k s' ((i, u) :: c) = Some x.
Proof.
  intros Hg s c k x H. simpl in H.
  destruct (exec_sound r Hg _ _ _ _ H) as (u & s' & -> & Hc & Hk).
  exists u, s'. rewrite firstn_prefijo in Hk. auto.
Qed.

Lemma exec_grp_complete i r : sin_grupos r = true ->
  forall s c k, exec (Grp i r) s c k = None ->
  forall u s', s = u ++ s' -> Coincide r u -> k s' ((i, u) :: c) = None.
Proof.
  intros Hg s c k H u s' -> Hc. simpl in H.
  pose proof (exec_complete r Hg _ _ _ H u s' eq_refl Hc) as Hk.
  cbv beta in Hk. rewrite firstn_prefijo in Hk. exact Hk.
Qed.

End MotorTeoria.

(* ================================================================= *)
(** ** Searching, and the captures of the DMS pattern *)

Lemma exec_seq {A : Type} r1 r2 s c (k : texto -> capturas -> option A) :
  exec (Seq r1 r2) s c k = exec r1 s c (fun s1 c1 => exec r2 s1 c1 k).
Proof. reflexivity. Qed.

(** The ten digits. *)
Lemma digito_casos (a : ascii) :
  es_digito a = true -> In a (t "0123456789").
Proof.
  destruct a as [[] [] [] [] [] [] [] []]; vm_compute; intro H;
    try discriminate H; tauto.
Qed.

Ltac por_digito a H :=
  let Hin := fresh "Hin" in
  pose proof (digito_casos a H) as Hin; cbn in Hin;
  repeat (destruct Hin as [<-|Hin]; [try reflexivity|]); try contradiction.

Lemma digito_no_espacio a : es_digito a = true -> es_espacio a = false.
Proof. intro H. por_digito a H. Qed.

Lemma digito_no_hemisferio a : es_digito a = true -> es_hemisferio a = false.
Proof. intro H. por_digito a H. Qed.

Lemma digito_no_signo a : es_digito a = true -> es_signo a = false.
Proof. intro H. por_digito a H. Qed.

Lemma digito_no_punto a : es_digito a = true -> es_punto a = false.
Proof. intro H. por_digito a H. Qed.

(** What a search that succeeds has found: the pattern matches at [inicio],
    and at no position before. *)
Lemma buscar_some r s pos m :
  buscar r s pos = Some m ->
  exists pre s1 s' c,
    s = pre ++ s1
    /\ re_match r s1 = Some (s', c)
    /\ inicio m = (pos + List.length pre)%nat
    /\ coincidencia m = firstn (List.length s1 - List.length s') s1
    /\ grupos m = c
    /\ (forall pre' s2, s = pre' ++ s2 ->
          (List.length pre' < List.length pre)%nat -> re_match r s2 = None).
Proof.
  revert pos. induction s as [|a s IH]; intro pos; simpl.
  - destruct (re_match r []) as [[s' c]|] eqn:Hm; [|discriminate].
    intro H. inversion H; subst m; clear H.
    exists [], [], s', c. simpl. rewrite Nat.add_0_r.
    repeat split; auto. intros pre' s2 _ Hlt. inversion Hlt.
  - destruct (re_match r (a :: s)) as [[s' c]|] eqn:Hm.
    + intro H. inversion H; subst m; clear H.
      exists [], (a :: s), s', c. simpl. rewrite Nat.add_0_r.
      repeat split; auto. intros pre' s2 _ Hlt. inversion Hlt.
    + intro H. destruct (IH _ H) as (pre & s1 & s' & c & -> & H1 & H2 & H3 & H4 & H5).
      exists (a :: pre), s1, s', c. simpl.
      repeat split; auto; [lia|].
      intros pre' s2 Hs Hlt. destruct pre' as [|b pre'].
      * simpl in Hs. subst s2. exact Hm.
      * simpl in Hs. injection Hs as -> Hs. apply (H5 pre' s2 Hs). simpl in Hlt. lia.
Qed.

(** A search that fails: the pattern matches at no position. *)
Lemma buscar_none r s pos :
  buscar r s pos = None ->
  forall pre s1, s = pre ++ s1 -> re_match r s1 = None.
Proof.
  revert pos. induction s as [|a s IH]; intro pos; simpl.
  - destruct (re_match r []) as [[s' c]|] eqn:Hm; [discriminate|].
    intros _ pre s1 Hs. symmetry in Hs. apply app_eq_nil in Hs as [-> ->]. exact Hm.
  - destruct (re_match r (a :: s)) as [[s' c]|] eqn:Hm; [discriminate|].
    intros H pre s1 Hs. destruct pre as [|b pre].
    + simpl in Hs. subst s1. exact Hm.
    + simpl in Hs. injection Hs as -> Hs. exact (IH _ H pre s1 Hs).
Qed.

(** The tail [\D*\s*([NnSsEeWwOo])?] of the DMS pattern.  [\D*] takes every
    character up to the next digit or the end, any hemisphere letter among
    them; what is left is empty or starts with a digit, where the optional
    group finds no letter.  The match succeeds on this first try, so no shorter
    [\D*] is ever tried, and group 4 is never set. *)
Lemma cola_dms_sin_grupo (s : texto) (c : capturas) :
  exists s', exec COLA_DMS s c fin = Some (s', c).
Proof.
  destruct (tramo_maximo no_digito s) as (u & s' & -> & Hu & Hs).
  exists s'. unfold COLA_DMS. rewrite exec_seq. cbn [exec].
  apply repetir_greedy; [exact Hu|exact Hs|].
  destruct s' as [|a s']; [reflexivity|].
  simpl in Hs. unfold no_digito in Hs. rewrite negb_involutive in Hs.
  cbn [repetir exec]. rewrite (digito_no_espacio a Hs), (digito_no_hemisferio a Hs).
  reflexivity.
Qed.

Lemma sin_grupos_numero_simple : sin_grupos NUMERO_SIMPLE = true.
Proof. reflexivity. Qed.

Lemma sin_grupos_numero_con_signo : sin_grupos NUMERO_CON_SIGNO = true.
Proof. reflexivity. Qed.

(** The captures of a DMS match: groups 1, 2 and 3, and nothing else. *)
Lemma dms_capturas (s s' : texto) (c : capturas) :
  re_match PATRON_DMS s = Some (s', c) ->
  exists u1 u2 u3,
    c = [(3%nat, u3); (2%nat, u2); (1%nat, u1)]
    /\ Coincide NUMERO_CON_SIGNO u1
    /\ Coincide NUMERO_SIMPLE u2
    /\ Coincide NUMERO_SIMPLE u3.
Proof.
  unfold re_match, PATRON_DMS. intro H.
  rewrite exec_seq in H.
  apply (exec_grp_sound _ _ sin_grupos_numero_con_signo) in H.
  destruct H as (u1 & s1 & _ & Hc1 & H). cbv beta in H.
  rewrite exec_seq in H.
  apply (exec_sound (Plus no_digito) eq_refl) in H.
  destruct H as (_ & s2 & _ & _ & H). cbv beta in H.
  rewrite exec_seq in H.
  apply (exec_grp_sound _ _ sin_grupos_numero_simple) in H.
  destruct H as (u2 & s3 & _ & Hc2 & H). cbv beta in H.
  rewrite exec_seq in H.
  apply (exec_sound (Plus no_digito) eq_refl) in H.
  destruct H as (_ & s4 & _ & _ & H). cbv beta in H.
  rewrite exec_seq in H.
  apply (exec_grp_sound _ _ sin_grupos_numero_simple) in H.
  destruct H as (u3 & s5 & _ & Hc3 & H). cbv beta in H.
  destruct (cola_dms_sin_grupo s5 [(3%nat, u3); (2%nat, u2); (1%nat, u1)])
    as (s6 & Hcola).
  pose proof (eq_trans (eq_sym H) Hcola) as E. inversion E; subst.
  exists u1, u2, u3. auto.
Qed.

(* ================================================================= *)
(** ** The literals the patterns capture *)

Definition digitos (ds : texto) : bool := forallb es_digito ds.

(** A text written as an integer part and, when [frac] is not empty, a point
    and a fractional part. *)
Definition escribir (ent frac : texto) : texto :=
  ent ++ match frac with
         | [] => []
         | _ :: _ => "."%char :: frac
         end.

(** A text that [digitpart] stops at: not a digit and not an underscore. *)
Definition corta (r : texto) : bool :=
  match r with
  | a :: _ => negb (es_digito a) && negb (Ascii.eqb a "_")
  | [] => true
  end.

Definition sin_espacios (s : texto) : bool :=
  forallb (fun a => negb (es_espacio a)) s.

Lemma es_punto_eq a : es_punto a = true -> a = "."%char.
Proof. unfold es_punto. apply Ascii.eqb_eq. Qed.

Lemma numero_simple_forma (u : texto) :
  Coincide NUMERO_SIMPLE u ->
  exists ent frac,
    u = escribir ent frac /\ ent <> [] /\ digitos ent = true /\ digitos frac = true.
Proof.
  unfold NUMERO_SIMPLE. intro H.
  inversion H as [| ? ? x y Hx Hy | | | | |]; subst; clear H.
  inversion Hx as [| | | | | p a ds Ha Hds |]; subst; clear Hx.
  inversion Hy as [| | r | r z Hz | | |]; subst; clear Hy.
  - exists (a :: ds), []. unfold escribir, digitos. simpl. rewrite Ha, Hds.
    repeat split; congruence.
  - inversion Hz as [| ? ? x1 y1 Hx1 Hy1 | | | | |]; subst; clear Hz.
    inversion Hx1 as [p c Hc | | | | | |]; subst; clear Hx1.
    inversion Hy1 as [| | | | | p b fs Hb Hfs |]; subst; clear Hy1.
    apply es_punto_eq in Hc. subst c.
    exists (a :: ds), (b :: fs). unfold escribir, digitos. simpl.
    rewrite Ha, Hds, Hb, Hfs. repeat split; congruence.
Qed.

Lemma numero_con_signo_forma (u : texto) :
  Coincide NUMERO_CON_SIGNO u ->
  exists sg num,
    u = sg ++ num
    /\ (sg = [] \/ sg = ["+"%char] \/ sg = ["-"%char])
    /\ Coincide NUMERO_SIMPLE num.
Proof.
  unfold NUMERO_CON_SIGNO. intro H.
  inversion H as [| ? ? x y Hx Hy | | | | |]; subst; clear H.
  inversion Hx as [| | r | r z Hz | | |]; subst; clear Hx.
  - exists [], y. auto.
  - inversion Hz as [p c Hc | | | | | |]; subst; clear Hz.
    exists [c], y. split; [reflexivity|]. split; [|exact Hy].
    unfold es_signo in Hc. apply orb_true_iff in Hc as [Hc|Hc];
      apply Ascii.eqb_eq in Hc; subst c; auto.
Qed.

Lemma valor_digito_cotas a : es_digito a = true -> 0 <= valor_digito a <= 9.
Proof. intro H. por_digito a H; vm_compute; split; congruence. Qed.

Lemma valor_digitos_desde (ds : texto) (acc : Z) :
  digitos ds = true -> 0 <= acc ->
  0 <= fold_left (fun acc a => 10 * acc + valor_digito a) ds acc.
Proof.
  revert acc. induction ds as [|a ds IH]; intros acc Hd Hacc; cbn [fold_left];
    [exact Hacc|].
  unfold digitos in Hd. simpl in Hd. apply andb_true_iff in Hd as [Ha Hd].
  apply IH; [exact Hd|]. pose proof (valor_digito_cotas a Ha). lia.
Qed.

Lemma valor_digitos_nonneg (ds : texto) :
  digitos ds = true -> 0 <= valor_digitos ds.
Proof. intro H. apply valor_digitos_desde; [exact H|lia]. Qed.

Lemma digitos_app (x y : texto) :
  digitos x = true -> digitos y = true -> digitos (x ++ y) = true.
Proof. unfold digitos. intros Hx Hy. rewrite forallb_app, Hx, Hy. reflexivity. Qed.

Section LiteralTeoria.
Variable g : bool.

Lemma digitos_resto_corta (ds r : texto) :
  digitos ds = true -> corta r = true -> digitos_resto g (ds ++ r) = (ds, r).
Proof.
  intros Hd Hr. induction ds as [|a ds IH]; simpl.
  - destruct r as [|b r]; [reflexivity|].
    simpl in Hr. apply andb_true_iff in Hr as [H1 H2].
    apply negb_true_iff in H1, H2. simpl. rewrite H1, H2, andb_false_r. reflexivity.
  - unfold digitos in Hd. simpl in Hd. apply andb_true_iff in Hd as [Ha Hd].
    rewrite Ha, (IH Hd). reflexivity.
Qed.

Lemma digitpart_corta (a : ascii) (ds r : texto) :
  es_digito a = true -> digitos ds = true -> corta r = true ->
  digitpart g (a :: ds ++ r) = Some (a :: ds, r).
Proof.
  intros Ha Hd Hr. unfold digitpart. rewrite Ha, (digitos_resto_corta _ _ Hd Hr).
  reflexivity.
Qed.

Lemma inf_o_nan_digito (a : ascii) (s : texto) :
  es_digito a = true -> es_inf_o_nan (a :: s) = false.
Proof. intro H. por_digito a H. Qed.

(** An exponent part, or none, and its value. *)
Definition exponente_bien (ex : texto) (e : Z) : Prop :=
  (ex = [] /\ e = 0)
  \/ exists c sg ds,
       ex = c :: sg ++ ds /\ es_e c = true
       /\ (sg = [] \/ sg = ["+"%char] \/ sg = ["-"%char])
       /\ ds <> [] /\ digitos ds = true
       /\ e = (if texto_eqb sg ["-"%char] then - valor_digitos ds
               else valor_digitos ds).

Lemma es_e_casos c : es_e c = true -> c = "e"%char \/ c = "E"%char.
Proof.
  unfold es_e. intro H. apply orb_true_iff in H as [H|H];
    apply Ascii.eqb_eq in H; auto.
Qed.

Lemma exponente_bien_corta ex e : exponente_bien ex e -> corta ex = true.
Proof.
  intros [[-> _]|(c & sg & ds & -> & Hc & _)]; [reflexivity|].
  destruct (es_e_casos c Hc) as [-> | ->]; reflexivity.
Qed.

Lemma leer_exponente_bien ex e :
  exponente_bien ex e -> leer_exponente g ex = Some (e, []).
Proof.
  intros [[-> ->]|(c & sg & ds & -> & Hc & Hsg & Hne & Hd & ->)]; [reflexivity|].
  unfold leer_exponente. rewrite Hc.
  destruct ds as [|d ds]; [congruence|].
  unfold digitos in Hd. simpl in Hd. apply andb_true_iff in Hd as [Hd Hds].
  pose proof (digitpart_corta d ds [] Hd Hds eq_refl) as Hp.
  rewrite app_nil_r in Hp.
  destruct Hsg as [->|[->| ->]].
  - assert (Hs : leer_signo ([] ++ d :: ds) = (false, d :: ds)).
    { simpl. por_digito d Hd. }
    rewrite Hs. cbv beta iota. rewrite Hp. reflexivity.
  - change (leer_signo (["+"%char] ++ d :: ds)) with (false, d :: ds).
    cbv beta iota. rewrite Hp. reflexivity.
  - change (leer_signo (["-"%char] ++ d :: ds)) with (true, d :: ds).
    cbv beta iota. rewrite Hp. reflexivity.
Qed.

(** The value of an unsigned literal [ent], [ent.frac], with or without an
    exponent. *)
Lemma literal_sin_signo_escribir (neg : bool) (ent frac ex : texto) (e : Z) :
  ent <> [] -> digitos ent = true -> digitos frac = true ->
  exponente_bien ex e ->
  literal_sin_signo g neg (escribir ent frac ++ ex)
  = valor (Some (decimal neg (valor_digitos (ent ++ frac))
                         (e - Z.of_nat (List.length frac)))).
Proof.
  intros Hne He Hf Hex. destruct ent as [|a ds]; [congruence|].
  unfold digitos in He. simpl in He. apply andb_true_iff in He as [Ha Hds].
  pose proof (exponente_bien_corta ex e Hex) as Hcorta.
  pose proof (leer_exponente_bien ex e Hex) as Hleer.
  unfold literal_sin_signo, escribir. rewrite <- app_assoc.
  change ((a :: ds) ++ ?x) with (a :: ds ++ x).
  rewrite (inf_o_nan_digito a _ Ha). unfold leer_numero.
  destruct frac as [|b fs].
  - cbn [app]. rewrite (digitpart_corta a ds ex Ha Hds Hcorta).
    rewrite app_nil_r.
    destruct ex as [|c ex'].
    + rewrite Hleer. reflexivity.
    + assert (Hp : es_punto c = false).
      { destruct Hex as [[Hx _]|(c' & sg & ds' & Hx & Hc & _)]; [discriminate|].
        injection Hx as <- _. destruct (es_e_casos c Hc) as [-> | ->]; reflexivity. }
      rewrite Hp, Hleer. reflexivity.
  - cbn [app].
    rewrite (digitpart_corta a ds ("."%char :: b :: fs ++ ex) Ha Hds eq_refl).
    change (es_punto ".") with true. cbv iota.
    unfold digitos in Hf. simpl in Hf. apply andb_true_iff in Hf as [Hb Hfs].
    rewrite (digitpart_corta b fs ex Hb Hfs Hcorta), Hleer. reflexivity.
Qed.

Lemma lstrip_id (s : texto) : no_empieza es_espacio s = true -> lstrip s = s.
Proof.
  destruct s as [|a s]; [reflexivity|]. simpl. intro H.
  apply negb_true_iff in H. rewrite H. reflexivity.
Qed.

Lemma sin_espacios_no_empieza (s : texto) :
  sin_espacios s = true -> no_empieza es_espacio s = true.
Proof.
  destruct s as [|a s]; [reflexivity|]. unfold sin_espacios. simpl.
  intro H. apply andb_true_iff in H as [H _]. exact H.
Qed.

Lemma sin_espacios_rev (s : texto) :
  sin_espacios s = true -> sin_espacios (rev s) = true.
Proof.
  unfold sin_espacios. rewrite !forallb_forall. intros H x Hx.
  apply H. apply in_rev. exact Hx.
Qed.

Lemma strip_sin_espacios (s : texto) : sin_espacios s = true -> strip s = s.
Proof.
  intro H. unfold strip.
  rewrite (lstrip_id s (sin_espacios_no_empieza s H)).
  rewrite (lstrip_id (rev s) (sin_espacios_no_empieza _ (sin_espacios_rev s H))).
  apply rev_involutive.
Qed.

Lemma digitos_sin_espacios (ds : texto) :
  digitos ds = true -> sin_espacios ds = true.
Proof.
  unfold digitos, sin_espacios. rewrite !forallb_forall. intros H x Hx.
  rewrite (digito_no_espacio x (H x Hx)). reflexivity.
Qed.

Lemma escribir_sin_espacios (ent frac : texto) :
  digitos ent = true -> digitos frac = true ->
  sin_espacios (escribir ent frac) = true.
Proof.
  intros He Hf. unfold escribir, sin_espacios. rewrite forallb_app.
  fold (sin_espacios ent). rewrite (digitos_sin_espacios ent He).
  destruct frac as [|b fs]; [reflexivity|].
  change (forallb _ ("."%char :: b :: fs)) with (sin_espacios (b :: fs)).
  rewrite (digitos_sin_espacios _ Hf). reflexivity.
Qed.

Lemma exponente_sin_espacios ex e :
  exponente_bien ex e -> sin_espacios ex = true.
Proof.
  intros [[-> _]|(c & sg & ds & -> & Hc & Hsg & _ & Hd & _)]; [reflexivity|].
  unfold sin_espacios. cbn [forallb]. rewrite forallb_app.
  fold (sin_espacios ds). rewrite (digitos_sin_espacios ds Hd).
  destruct (es_e_casos c Hc) as [-> | ->];
    destruct Hsg as [->|[->| ->]]; reflexivity.
Qed.

(** The value of a signed literal. *)
Lemma literal_con_signo (sg ent frac ex : texto) (e : Z) :
  sg = [] \/ sg = ["+"%char] \/ sg = ["-"%char] ->
  ent <> [] -> digitos ent = true -> digitos frac = true ->
  exponente_bien ex e ->
  literal g (sg ++ escribir ent frac ++ ex)
  = valor (Some (decimal (texto_eqb sg ["-"%char])
                         (valor_digitos (ent ++ frac))
                         (e - Z.of_nat (List.length frac)))).
Proof.
  intros Hsg Hne He Hf Hex. unfold literal.
  pose proof (escribir_sin_espacios ent frac He Hf) as Hse.
  pose proof (exponente_sin_espacios ex e Hex) as Hsx.
  rewrite strip_sin_espacios.
  2:{ unfold sin_espacios. rewrite !forallb_app.
      fold (sin_espacios (escribir ent frac)). fold (sin_espacios ex).
      rewrite Hse, Hsx. destruct Hsg as [->|[->| ->]]; reflexivity. }
  destruct Hsg as [->|[->| ->]].
  - destruct ent as [|a ds]; [congruence|].
    assert (Ha : es_digito a = true).
    { unfold digitos in He. simpl in He. apply andb_true_iff in He as [Ha _]. exact Ha. }
    assert (Hs : leer_signo ([] ++ escribir (a :: ds) frac ++ ex)
                 = (false, escribir (a :: ds) frac ++ ex)).
    { unfold escribir. simpl. por_digito a Ha. }
    rewrite Hs. apply literal_sin_signo_escribir; assumption.
  - change (leer_signo (["+"%char] ++ escribir ent frac ++ ex))
      with (false, escribir ent frac ++ ex).
    apply literal_sin_signo_escribir; assumption.
  - change (leer_signo (["-"%char] ++ escribir ent frac ++ ex))
      with (true, escribir ent frac ++ ex).
    apply literal_sin_signo_escribir; assumption.
Qed.

End LiteralTeoria.

Lemma Qpower_diez_pos (e : Z) : (0 < Qpower (inject_Z 10) e)%Q.
Proof. apply Qpower_0_lt. reflexivity. Qed.

Lemma decimal_nonneg (m e : Z) : 0 <= m -> (0 <= decimal false m e)%Q.
Proof.
  intro H. unfold decimal. apply Qmult_le_0_compat.
  - unfold Qle. simpl. lia.
  - apply Qlt_le_weak, Qpower_diez_pos.
Qed.

(** [float()] of a text of [\d+(?:\.\d+)?] is a finite number, not negative. *)
Lemma py_float_numero_simple (u : texto) :
  Coincide NUMERO_SIMPLE u ->
  exists q, py_float u = valor (Some q) /\ (0 <= q)%Q.
Proof.
  intro H. destruct (numero_simple_forma u H) as (ent & frac & -> & Hne & He & Hf).
  pose proof (literal_con_signo true [] ent frac [] 0 (or_introl eq_refl) Hne He Hf
                (or_introl (conj eq_refl eq_refl))) as Hl.
  rewrite app_nil_r in Hl. simpl app in Hl.
  unfold py_float. rewrite Hl. eexists. split; [reflexivity|].
  apply decimal_nonneg, valor_digitos_nonneg, digitos_app; assumption.
Qed.

(** [float()] of a text of [[+-]?\d+(?:\.\d+)?] is a finite number. *)
Lemma py_float_numero_con_signo (u : texto) :
  Coincide NUMERO_CON_SIGNO u -> exists q, py_float u = valor (Some q).
Proof.
  intro H. destruct (numero_con_signo_forma u H) as (sg & num & -> & Hsg & Hn).
  destruct (numero_simple_forma num Hn) as (ent & frac & -> & Hne & He & Hf).
  pose proof (literal_con_signo true sg ent frac [] 0 Hsg Hne He Hf
                (or_introl (conj eq_refl eq_refl))) as Hl.
  rewrite app_nil_r in Hl. unfold py_float. rewrite Hl.
  eexists. reflexivity.
Qed.

(* ================================================================= *)
(** ** Properties of [parse_dms_to_decimal] *)

Lemma dms_busqueda (s : texto) (m : Match) :
  re_search PATRON_DMS s = Some m ->
  exists u1 u2 u3,
    grupos m = [(3%nat, u3); (2%nat, u2); (1%nat, u1)]
    /\ Coincide NUMERO_CON_SIGNO u1
    /\ Coincide NUMERO_SIMPLE u2
    /\ Coincide NUMERO_SIMPLE u3.
Proof.
  unfold re_search. intro H.
  destruct (buscar_some _ _ _ _ H) as (pre & s1 & s' & c & _ & Hm & _ & _ & Hg & _).
  rewrite Hg. exact (dms_capturas s1 s' c Hm).
Qed.

(** Whatever the text, a DMS match carries no hemisphere: [m.group(4)] is
    [None]. *)
Lemma dms_grupo_4_nunca (s : texto) (m : Match) :
  re_search PATRON_DMS s = Some m ->
  grupo 4 (grupos m) = None /\ hemisferio_de m = [].
Proof.
  intro H. destruct (dms_busqueda s m H) as (u1 & u2 & u3 & Hg & _).
  unfold hemisferio_de. rewrite Hg. split; reflexivity.
Qed.

Lemma Qdiv_nonneg (a : Q) (d : Z) : (0 <= a)%Q -> 0 < d -> (0 <= a / inject_Z d)%Q.
Proof.
  intros Ha Hd. unfold Qdiv. apply Qmult_le_0_compat; [exact Ha|].
  apply Qinv_le_0_compat. unfold Qle. simpl. lia.
Qed.

(** The DMS branch on a text the pattern matches with no hemisphere captured:
    the three groups are read without error, no sign is applied, and the
    result is not negative. *)
Lemma parse_dms_texto_magnitud (s : texto) (m : Match) :
  re_search PATRON_DMS (replace_coma (strip s)) = Some m ->
  grupo 4 (grupos m) = None ->
  exists d mnt sec : Q,
    float_de_grupo m 1 = Ok (Some d)
    /\ float_de_grupo m 2 = Ok (Some mnt)
    /\ float_de_grupo m 3 = Ok (Some sec)
    /\ parse_dms_texto s
       = Ok (Some (Qabs d + mnt / inject_Z 60 + sec / inject_Z 3600)%Q)
    /\ (0 <= Qabs d + mnt / inject_Z 60 + sec / inject_Z 3600)%Q.
Proof.
  intros H Hg4.
  destruct (dms_busqueda _ m H) as (u1 & u2 & u3 & Hg & H1 & H2 & H3).
  destruct (py_float_numero_con_signo u1 H1) as (d & Hd).
  destruct (py_float_numero_simple u2 H2) as (mnt & Hmnt & Hmnt0).
  destruct (py_float_numero_simple u3 H3) as (sec & Hsec & Hsec0).
  assert (F1 : float_de_grupo m 1 = Ok (Some d)).
  { unfold float_de_grupo. rewrite Hg. cbn [grupo Nat.eqb]. rewrite Hd. reflexivity. }
  assert (F2 : float_de_grupo m 2 = Ok (Some mnt)).
  { unfold float_de_grupo. rewrite Hg. cbn [grupo Nat.eqb]. rewrite Hmnt. reflexivity. }
  assert (F3 : float_de_grupo m 3 = Ok (Some sec)).
  { unfold float_de_grupo. rewrite Hg. cbn [grupo Nat.eqb]. rewrite Hsec. reflexivity. }
  exists d, mnt, sec. repeat (split; [assumption|]). split.
  - unfold parse_dms_texto. rewrite H, F1, F2, F3. cbn [bind].
    unfold hemisferio_de. rewrite Hg4. reflexivity.
  - apply Qle_trans with (0 + 0 + 0)%Q; [unfold Qle; simpl; lia|].
    apply Qplus_le_compat; [apply Qplus_le_compat|].
    + apply Qabs_nonneg.
    + apply Qdiv_nonneg; [exact Hmnt0|lia].
    + apply Qdiv_nonneg; [exact Hsec0|lia].
Qed.

(** C5, as the code has it.  For every text cell that is not itself a float
    literal, that the degrees/minutes/seconds pattern matches and where no
    hemisphere letter is captured, the function returns [|D| + M/60 + S/3600],
    where D, M and S are the three captured numbers: the sign of the degrees
    literal is discarded by [abs], and the result is never negative. *)
Theorem dms_devuelve_magnitud (s : string) (m : Match) :
  py_float (t s) = ValueError ->
  re_search PATRON_DMS (replace_coma (strip (t s))) = Some m ->
  grupo 4 (grupos m) = None ->
  exists d mnt sec : Q,
    float_de_grupo m 1 = Ok (Some d)
    /\ float_de_grupo m 2 = Ok (Some mnt)
    /\ float_de_grupo m 3 = Ok (Some sec)
    /\ parse_dms_to_decimal (Txt s)
       = Ok (Some (Qabs d + mnt / inject_Z 60 + sec / inject_Z 3600)%Q)
    /\ (0 <= Qabs d + mnt / inject_Z 60 + sec / inject_Z 3600)%Q.
Proof.
  intros Hf H Hg4. unfold parse_dms_to_decimal. rewrite Hf.
  exact (parse_dms_texto_magnitud (t s) m H Hg4).
Qed.

Definition match_grados_negativos : Match :=
  mkMatch 0 (t "-34 36 12") [(3%nat, t "12"); (2%nat, t "36"); (1%nat, t "-34")].

Lemma dms_devuelve_magnitud_witness :
  exists q, parse_dms_to_decimal (Txt "-34 36 12") = Ok (Some q) /\ (0 <= q)%Q.
Proof.
  destruct (dms_devuelve_magnitud "-34 36 12" match_grados_negativos)
    as (d & mnt & sec & _ & _ & _ & Hp & Hq).
  - vm_compute. reflexivity.
  - vm_compute. reflexivity.
  - reflexivity.
  - eexists. split; [exact Hp|exact Hq].
Defined.

(** C5, as stated, fails: a cell with a negative degrees group and no
    hemisphere letter gives a positive result. *)
Lemma grados_negativos_resultado_positivo :
  re_search PATRON_DMS (t "-34 36 12") = Some match_grados_negativos
  /\ grupo 4 (grupos match_grados_negativos) = None
  /\ py_float (t "-34") = valor (Some (decimal true 34 0))
  /\ exists q, parse_dms_to_decimal (Txt "-34 36 12") = Ok (Some q)
               /\ (q == 10381 # 300)%Q /\ ~ (q < 0)%Q.
Proof.
  split; [vm_compute; reflexivity|].
  split; [reflexivity|].
  split; [vm_compute; reflexivity|].
  eexists. split; [vm_compute; reflexivity|].
  split; [vm_compute; reflexivity|].
  vm_compute. discriminate.
Qed.

Definition match_hemisferio_sur : Match :=
  mkMatch 0 (t "34 36 12 S") [(3%nat, t "12"); (2%nat, t "36"); (1%nat, t "34")].

(** C4.  On the cell ["34 36 12 S"] the match takes the whole text,
    [m.group(4)] is [None], and the function returns +34.6033..., the value it
    returns for ["34 36 12 N"]: the southern hemisphere does not negate. *)
Theorem hemisferio_sur_no_niega :
  re_search PATRON_DMS (t "34 36 12 S") = Some match_hemisferio_sur
  /\ grupo 4 (grupos match_hemisferio_sur) = None
  /\ parse_dms_to_decimal (Txt "34 36 12 S") = parse_dms_to_decimal (Txt "34 36 12 N")
  /\ exists q, parse_dms_to_decimal (Txt "34 36 12 S") = Ok (Some q)
               /\ (q == 34 + 36 / 60 + 12 / 3600)%Q /\ (0 < q)%Q.
Proof.
  split; [vm_compute; reflexivity|].
  split; [reflexivity|].
  split; [vm_compute; reflexivity|].
  eexists. split; [vm_compute; reflexivity|].
  split; vm_compute; reflexivity.
Qed.

(* ================================================================= *)
(** ** Properties of [extract_numeric_from_text] *)

Lemma sin_grupos_numero_exp : sin_grupos NUMERO_EXP = true.
Proof. reflexivity. Qed.

(** A successful search of the number pattern: group 1 is the leftmost match
    of the pattern in the text. *)
Lemma numero_busqueda (s : texto) (m : Match) :
  re_search PATRON_NUMERO s = Some m ->
  exists pre u post,
    s = pre ++ u ++ post
    /\ Coincide NUMERO_EXP u
    /\ grupos m = [(1%nat, u)]
    /\ (forall pre' u' post', s = pre' ++ u' ++ post' ->
          Coincide NUMERO_EXP u' -> (List.length pre <= List.length pre')%nat).
Proof.
  unfold re_search. intro H.
  destruct (buscar_some _ _ _ _ H)
    as (pre & s1 & s' & c & -> & Hm & _ & _ & Hg & Hleft).
  unfold re_match, PATRON_NUMERO in Hm.
  destruct (exec_grp_sound 1 _ sin_grupos_numero_exp _ _ _ _ Hm)
    as (u & post & -> & Hc & Hk).
  inversion Hk; subst s' c; clear Hk.
  exists pre, u, post. repeat split; auto.
  intros pre' u' post' Hs Hc'.
  destruct (Nat.le_gt_cases (List.length pre) (List.length pre')) as [Hle|Hgt];
    [exact Hle|exfalso].
  pose proof (Hleft pre' (u' ++ post') Hs Hgt) as Hnone.
  unfold re_match, PATRON_NUMERO in Hnone.
  pose proof (exec_grp_complete 1 _ sin_grupos_numero_exp _ _ _ Hnone
                u' post' eq_refl Hc') as Hk.
  discriminate Hk.
Qed.

(** A failed search: no part of the text is in the language of the pattern. *)
Lemma numero_sin_busqueda (s : texto) :
  re_search PATRON_NUMERO s = None ->
  forall pre u post, s = pre ++ u ++ post -> ~ Coincide NUMERO_EXP u.
Proof.
  unfold re_search. intros H pre u post Hs Hc.
  pose proof (buscar_none _ _ _ H pre (u ++ post) Hs) as Hnone.
  unfold re_match, PATRON_NUMERO in Hnone.
  pose proof (exec_grp_complete 1 _ sin_grupos_numero_exp _ _ _ Hnone
                u post eq_refl Hc) as Hk.
  discriminate Hk.
Qed.

Lemma es_signo_casos c : es_signo c = true -> c = "+"%char \/ c = "-"%char.
Proof.
  unfold es_signo. intro H. apply orb_true_iff in H as [H|H];
    apply Ascii.eqb_eq in H; auto.
Qed.

Lemma opt_exponente_forma (x : texto) :
  Coincide (Opt EXPONENTE) x -> exists e, exponente_bien x e.
Proof.
  intro H. inversion H as [| | r | r z Hz | | |]; subst; clear H.
  - exists 0. left. auto.
  - unfold EXPONENTE in Hz.
    inversion Hz as [| ? ? x1 y1 Hx1 Hy1 | | | | |]; subst; clear Hz.
    inversion Hx1 as [p c Hc | | | | | |]; subst; clear Hx1.
    inversion Hy1 as [| ? ? x2 y2 Hx2 Hy2 | | | | |]; subst; clear Hy1.
    inversion Hy2 as [| | | | | p d ds Hd Hds |]; subst; clear Hy2.
    assert (Hdig : digitos (d :: ds) = true).
    { unfold digitos. simpl. rewrite Hd, Hds. reflexivity. }
    inversion Hx2 as [| | r | r z Hz | | |]; subst; clear Hx2.
    + eexists. right. exists c, [], (d :: ds).
      repeat split; auto; congruence.
    + inversion Hz as [p sc Hsc | | | | | |]; subst; clear Hz.
      eexists. right. exists c, [sc], (d :: ds).
      repeat split; auto; try congruence.
      destruct (es_signo_casos sc Hsc) as [-> | ->]; auto.
Qed.

(** The texts of the number pattern, and what [pd.to_numeric] reads in them. *)
Lemma numero_exp_forma (u : texto) :
  Coincide NUMERO_EXP u ->
  exists sg ent frac ex e,
    u = sg ++ escribir ent frac ++ ex
    /\ (sg = [] \/ sg = ["+"%char] \/ sg = ["-"%char])
    /\ ent <> [] /\ digitos ent = true /\ digitos frac = true
    /\ exponente_bien ex e.
Proof.
  unfold NUMERO_EXP. intro H.
  inversion H as [| ? ? x y Hx Hy | | | | |]; subst; clear H.
  destruct (numero_con_signo_forma x Hx) as (sg & num & -> & Hsg & Hn).
  destruct (numero_simple_forma num Hn) as (ent & frac & -> & Hne & He & Hf).
  destruct (opt_exponente_forma y Hy) as (e & Hex).
  exists sg, ent, frac, y, e. rewrite <- app_assoc. auto 10.
Qed.

Lemma to_numeric_numero_exp (u : texto) :
  Coincide NUMERO_EXP u -> exists q, to_numeric_texto u = Some q.
Proof.
  intro H.
  destruct (numero_exp_forma u H) as (sg & ent & frac & ex & e & -> & Hsg & Hne & He & Hf & Hex).
  unfold to_numeric_texto.
  rewrite (literal_con_signo false sg ent frac ex e Hsg Hne He Hf Hex).
  eexists. reflexivity.
Qed.

Lemma numero_exp_tiene_digito (u : texto) :
  Coincide NUMERO_EXP u -> existsb es_digito u = true.
Proof.
  intro H.
  destruct (numero_exp_forma u H) as (sg & ent & frac & ex & e & -> & _ & Hne & He & _).
  destruct ent as [|a ds]; [congruence|].
  unfold digitos in He. simpl in He. apply andb_true_iff in He as [Ha _].
  rewrite existsb_app. unfold escribir. cbn [app existsb].
  rewrite Ha. cbn [orb]. apply orb_true_r.
Qed.

Lemma replace_coma_no_digito (s : texto) :
  forallb no_digito s = true -> forallb no_digito (replace_coma s) = true.
Proof.
  unfold replace_coma. induction s as [|a s IH]; simpl; [reflexivity|].
  intro H. apply andb_true_iff in H as [Ha Hs]. rewrite (IH Hs), andb_true_r.
  destruct (Ascii.eqb a ","); [reflexivity|exact Ha].
Qed.

(** A text without a digit has no number. *)
Lemma extract_numeric_sin_digitos (s0 : texto) :
  forallb no_digito s0 = true -> extract_numeric_texto s0 = None.
Proof.
  intro H. unfold extract_numeric_texto.
  destruct (re_search PATRON_NUMERO (replace_coma s0)) as [m|] eqn:Hs; [|reflexivity].
  exfalso.
  destruct (numero_busqueda _ m Hs) as (pre & u & post & Heq & Hc & _).
  pose proof (numero_exp_tiene_digito u Hc) as Hd.
  pose proof (replace_coma_no_digito s0 H) as Hn.
  rewrite Heq, !forallb_app in Hn.
  apply andb_true_iff in Hn as [_ Hn]. apply andb_true_iff in Hn as [Hn _].
  apply existsb_exists in Hd as (a & Hin & Ha).
  rewrite forallb_forall in Hn. specialize (Hn a Hin).
  unfold no_digito in Hn. rewrite Ha in Hn. discriminate Hn.
Qed.

(** A text that starts as an exponent would: [[eE][-+]?\d]. *)
Definition empieza_exponente (s : texto) : bool :=
  match s with
  | c :: s1 =>
      es_e c
      && match s1 with
         | a :: s2 =>
             es_digito a
             || (es_signo a
                 && match s2 with
                    | b :: _ => es_digito b
                    | [] => false
                    end)
         | [] => false
         end
  | [] => false
  end.

Section Avance.
Context {A : Type}.
Implicit Types (k : texto -> capturas -> option A) (x : A).

Lemma exec_cls_si p a s c k x :
  p a = true -> k s c = Some x -> exec (Cls p) (a :: s) c k = Some x.
Proof. intros Hp Hk. simpl. rewrite Hp. exact Hk. Qed.

Lemma exec_cls_no p a s c k :
  p a = false -> exec (Cls p) (a :: s) c k = None.
Proof. intros Hp. simpl. rewrite Hp. reflexivity. Qed.

Lemma exec_opt_si r s c k x :
  exec r s c k = Some x -> exec (Opt r) s c k = Some x.
Proof. intro H. simpl. rewrite H. reflexivity. Qed.

Lemma exec_opt_no r s c k x :
  exec r s c k = None -> k s c = Some x -> exec (Opt r) s c k = Some x.
Proof. intros H Hk. simpl. rewrite H. exact Hk. Qed.

Lemma exec_plus_greedy p a ds r c k x :
  p a = true -> forallb p ds = true -> no_empieza p r = true ->
  k r c = Some x -> exec (Plus p) (a :: ds ++ r) c k = Some x.
Proof.
  intros Ha Hds Hr Hk. simpl. rewrite Ha.
  apply repetir_greedy; assumption.
Qed.

Lemma exponente_falla s c k :
  empieza_exponente s = false -> exec EXPONENTE s c k = None.
Proof.
  intro H. unfold EXPONENTE.
  destruct s as [|c0 s1]; [reflexivity|].
  rewrite exec_seq. cbn [exec].
  destruct (es_e c0) eqn:He; [|reflexivity].
  simpl in H. rewrite He in H. simpl in H.
  destruct s1 as [|a s2]; [reflexivity|].
  apply orb_false_iff in H as [Hd Hs]. rewrite Hd.
  destruct (es_signo a); [|reflexivity].
  simpl in Hs. destruct s2 as [|b s3]; [reflexivity|]. rewrite Hs. reflexivity.
Qed.

(** The number pattern on a text that starts with [sign digits . digits] and
    goes on with something that is neither a digit nor an exponent: it takes
    exactly that literal. *)
Lemma numero_exp_avanza sg ent frac ruido c k x :
  sg = [] \/ sg = ["+"%char] \/ sg = ["-"%char] ->
  ent <> [] -> frac <> [] -> digitos ent = true -> digitos frac = true ->
  no_empieza es_digito ruido = true -> empieza_exponente ruido = false ->
  k ruido c = Some x ->
  exec NUMERO_EXP ((sg ++ escribir ent frac) ++ ruido) c k = Some x.
Proof.
  intros Hsg Hne Hnf He Hf Hr Hx Hk.
  destruct ent as [|a ds]; [congruence|]. destruct frac as [|b fs]; [congruence|].
  unfold digitos in He, Hf. simpl in He, Hf.
  apply andb_true_iff in He as [Ha Hds]. apply andb_true_iff in Hf as [Hb Hfs].
  assert (Hnum : forall k' : texto -> capturas -> option A,
             k' ruido c = Some x ->
             exec NUMERO_SIMPLE (a :: ds ++ "."%char :: b :: fs ++ ruido) c k' = Some x).
  { intros k' Hk'. unfold NUMERO_SIMPLE. rewrite exec_seq.
    apply exec_plus_greedy; [exact Ha|exact Hds|reflexivity|].
    apply exec_opt_si. rewrite exec_seq.
    apply exec_cls_si; [reflexivity|].
    apply exec_plus_greedy; [exact Hb|exact Hfs|exact Hr|exact Hk']. }
  assert (Hexp : exec (Opt EXPONENTE) ruido c k = Some x).
  { apply exec_opt_no; [apply exponente_falla; exact Hx|exact Hk]. }
  unfold NUMERO_EXP, NUMERO_CON_SIGNO, escribir.
  rewrite <- !app_assoc. rewrite !exec_seq.
  destruct Hsg as [->|[->| ->]]; cbn [app].
  - apply exec_opt_no; [apply exec_cls_no, digito_no_signo, Ha|].
    apply Hnum. exact Hexp.
  - apply exec_opt_si. apply exec_cls_si; [reflexivity|]. apply Hnum. exact Hexp.
  - apply exec_opt_si. apply exec_cls_si; [reflexivity|]. apply Hnum. exact Hexp.
Qed.

End Avance.

Lemma buscar_al_frente r s s' c pos :
  re_match r s = Some (s', c) ->
  buscar r s pos
  = Some (mkMatch pos (firstn (List.length s - List.length s') s) c).
Proof. intro H. destruct s; simpl; rewrite H; reflexivity. Qed.

Lemma numero_al_frente sg ent frac ruido :
  sg = [] \/ sg = ["+"%char] \/ sg = ["-"%char] ->
  ent <> [] -> frac <> [] -> digitos ent = true -> digitos frac = true ->
  no_empieza es_digito ruido = true -> empieza_exponente ruido = false ->
  re_search PATRON_NUMERO ((sg ++ escribir ent frac) ++ ruido)
  = Some (mkMatch 0 (sg ++ escribir ent frac) [(1%nat, sg ++ escribir ent frac)]).
Proof.
  intros Hsg Hne Hnf He Hf Hr Hx. unfold re_search.
  rewrite (buscar_al_frente _ _ ruido [(1%nat, sg ++ escribir ent frac)]).
  - rewrite firstn_prefijo. reflexivity.
  - unfold re_match, PATRON_NUMERO. cbn [exec].
    apply numero_exp_avanza; try assumption.
    unfold fin. rewrite firstn_prefijo. reflexivity.
Qed.

Lemma replace_coma_digitos (ds : texto) :
  digitos ds = true -> replace_coma ds = ds.
Proof.
  unfold replace_coma. induction ds as [|a ds IH]; simpl; [reflexivity|].
  unfold digitos. simpl. intro H. apply andb_true_iff in H as [Ha Hd].
  rewrite (IH Hd). f_equal. por_digito a Ha.
Qed.

Lemma replace_coma_no_empieza (s : texto) :
  no_empieza es_digito s = true -> no_empieza es_digito (replace_coma s) = true.
Proof.
  destruct s as [|a s]; [reflexivity|]. simpl.
  destruct (Ascii.eqb a ","); [reflexivity|auto].
Qed.

Lemma replace_coma_caracter (a : ascii) :
  let b := if Ascii.eqb a "," then "."%char else a in
  es_e b = es_e a /\ es_digito b = es_digito a /\ es_signo b = es_signo a.
Proof.
  destruct (Ascii.eqb_spec a ","%char) as [->|Hne]; repeat split; reflexivity.
Qed.

Lemma replace_coma_exponente (s : texto) :
  empieza_exponente (replace_coma s) = empieza_exponente s.
Proof.
  destruct s as [|c s1]; [reflexivity|]. cbn [replace_coma map empieza_exponente].
  destruct (replace_coma_caracter c) as (-> & _ & _).
  destruct s1 as [|a s2]; [reflexivity|]. cbn [map].
  destruct (replace_coma_caracter a) as (_ & -> & ->).
  destruct s2 as [|b s3]; [reflexivity|]. cbn [map].
  destruct (replace_coma_caracter b) as (_ & -> & _). reflexivity.
Qed.

(** The leading literal of a cell is read exactly, with a point or a comma. *)
Lemma extract_numeric_al_frente sg ent frac ruido sep :
  sg = [] \/ sg = ["+"%char] \/ sg = ["-"%char] ->
  ent <> [] -> frac <> [] -> digitos ent = true -> digitos frac = true ->
  sep = "."%char \/ sep = ","%char ->
  no_empieza es_digito ruido = true -> empieza_exponente ruido = false ->
  extract_numeric_texto (sg ++ ent ++ sep :: frac ++ ruido)
  = Some (decimal (texto_eqb sg ["-"%char]) (valor_digitos (ent ++ frac))
                  (0 - Z.of_nat (List.length frac))).
Proof.
  intros Hsg Hne Hnf He Hf Hsep Hr Hx. unfold extract_numeric_texto.
  assert (Hrep : replace_coma (sg ++ ent ++ sep :: frac ++ ruido)
                 = (sg ++ escribir ent frac) ++ replace_coma ruido).
  { unfold escribir. destruct frac as [|b fs]; [congruence|].
    unfold replace_coma. rewrite !map_app. cbn [map]. rewrite map_app.
    fold (replace_coma ent). fold (replace_coma (b :: fs)). fold (replace_coma ruido).
    change (map _ sg) with (replace_coma sg).
    rewrite (replace_coma_digitos ent He), (replace_coma_digitos _ Hf).
    assert (Hs : replace_coma sg = sg) by (destruct Hsg as [->|[->| ->]]; reflexivity).
    rewrite Hs.
    assert (Hp : (if Ascii.eqb sep "," then "."%char else sep) = "."%char)
      by (destruct Hsep as [-> | ->]; reflexivity).
    rewrite Hp, <- !app_assoc. reflexivity. }
  rewrite Hrep.
  rewrite (numero_al_frente sg ent frac (replace_coma ruido) Hsg Hne Hnf He Hf
             (replace_coma_no_empieza _ Hr)
             (eq_trans (replace_coma_exponente ruido) Hx)).
  cbn [grupos grupo Nat.eqb]. unfold to_numeric_texto.
  pose proof (literal_con_signo false sg ent frac [] 0 Hsg Hne He Hf
                (or_introl (conj eq_refl eq_refl))) as Hl.
  rewrite app_nil_r in Hl. rewrite Hl. reflexivity.
Qed.

(* ================================================================= *)
(** ** The first number of a text, read directly *)

(** The longest run of a class at the head of a text, and the rest. *)
Fixpoint racha (p : ascii -> bool) (s : texto) : texto * texto :=
  match s with
  | a :: s' => if p a then let (u, r) := racha p s' in (a :: u, r) else ([], s)
  | [] => ([], [])
  end.

(** A sign at the head of a text, when there is one. *)
Definition signo_aqui (s : texto) : texto * texto :=
  match s with
  | a :: s' => if es_signo a then ([a], s') else ([], s)
  | [] => ([], [])
  end.

(** A point and the digits after it, when there is at least one: the digits
    and the rest. *)
Definition fraccion_aqui (s : texto) : texto * texto :=
  match s with
  | a :: s1 =>
      if es_punto a
      then match racha es_digito s1 with
           | (b :: fs, r) => (b :: fs, r)
           | ([], _) => ([], s)
           end
      else ([], s)
  | [] => ([], [])
  end.

(** An [e] or [E], an optional sign and the digits after it, when there is at
    least one: the text of the exponent, its value, and the rest. *)
Definition exponente_aqui (s : texto) : texto * Z * texto :=
  match s with
  | c :: s1 =>
      if es_e c
      then let (sg, s2) := signo_aqui s1 in
           match racha es_digito s2 with
           | (d :: ds, r) =>
               (c :: sg ++ d :: ds,
                if texto_eqb sg ["-"%char] then - valor_digitos (d :: ds)
                else valor_digitos (d :: ds),
                r)
           | ([], _) => ([], 0, s)
           end
      else ([], 0, s)
  | [] => ([], 0, [])
  end.

(** A signed decimal number with optional exponent at the head of a text:
    its text, the number it denotes, and the rest.  Each part is taken as
    long as it goes. *)
Definition numero_aqui (s : texto) : option (texto * Q * texto) :=
  let (sg, s1) := signo_aqui s in
  match racha es_digito s1 with
  | (d :: ds, r1) =>
      let (frac, r2) := fraccion_aqui r1 in
      let '(ex, e, r3) := exponente_aqui r2 in
      Some (sg ++ escribir (d :: ds) frac ++ ex,
            decimal (texto_eqb sg ["-"%char])
                    (valor_digitos ((d :: ds) ++ frac))
                    (e - Z.of_nat (List.length frac)),
            r3)
  | ([], _) => None
  end.

(** The first such number of a text, from the left: its text and the number
    it denotes. *)
Fixpoint primer_numero (s : texto) : option (texto * Q) :=
  match numero_aqui s with
  | Some (u, v, _) => Some (u, v)
  | None =>
      match s with
      | [] => None
      | _ :: s' => primer_numero s'
      end
  end.

(** What the specification asks of a cell: commas written as points, then the
    first number of the text; a null stays a null and a number is itself. *)
Definition primer_numero_celda (c : celda) : option Q :=
  match c with
  | NaN => None
  | Num x => Some x
  | Txt s => option_map snd (primer_numero (replace_coma (t s)))
  | Otro repr => option_map snd (primer_numero (replace_coma (t repr)))
  end.

Lemma racha_partes (p : ascii -> bool) (s u r : texto) :
  racha p s = (u, r) ->
  s = u ++ r /\ forallb p u = true /\ no_empieza p r = true.
Proof.
  revert u r. induction s as [|a s IH]; intros u r; cbn [racha].
  - intro H. injection H as <- <-. auto.
  - destruct (p a) eqn:Hp.
    + destruct (racha p s) as [u0 r0]. intro H. injection H as <- <-.
      destruct (IH u0 r0 eq_refl) as (-> & Hu & Hr).
      cbn [forallb app]. rewrite Hp, Hu. auto.
    + intro H. injection H as <- <-. cbn [no_empieza app forallb].
      rewrite Hp. auto.
Qed.

(** A continuation that accepts whatever it is given. *)
Definition acepta {A : Type} (k : texto -> capturas -> option A) : Prop :=
  forall s c, k s c <> None.

Section Directo.
Context {A : Type}.
Implicit Types (k : texto -> capturas -> option A).

(** Before a continuation that accepts, a greedy repetition takes the longest
    run. *)
Lemma repetir_acepta p s (k1 : texto -> option A) :
  (forall s', k1 s' <> None) -> repetir p s k1 = k1 (snd (racha p s)).
Proof.
  intro Hk. induction s as [|a s IH]; cbn [repetir racha]; [reflexivity|].
  destruct (p a); [|reflexivity].
  rewrite IH. destruct (racha p s) as [u r]. cbn [snd].
  destruct (k1 r) eqn:E; [reflexivity|]. exfalso. exact (Hk r E).
Qed.

Lemma exec_plus_acepta p s c k :
  acepta k ->
  exec (Plus p) s c k
  = match racha p s with
    | (_ :: _, r) => k r c
    | ([], _) => None
    end.
Proof.
  intro Hk. destruct s as [|a s]; cbn [exec racha]; [reflexivity|].
  destruct (p a); [|reflexivity].
  rewrite repetir_acepta; [|intros s'; apply Hk].
  destruct (racha p s) as [u r]. reflexivity.
Qed.

Lemma exec_fraccion_acepta s c k :
  acepta k ->
  exec (Opt (Seq (Cls es_punto) (Plus es_digito))) s c k
  = k (snd (fraccion_aqui s)) c.
Proof.
  intro Hk. change (exec (Opt (Seq (Cls es_punto) (Plus es_digito))) s c k)
    with (match exec (Seq (Cls es_punto) (Plus es_digito)) s c k with
          | Some x => Some x
          | None => k s c
          end).
  rewrite exec_seq. destruct s as [|a s1]; [reflexivity|].
  cbn [exec fraccion_aqui]. destruct (es_punto a); [|reflexivity].
  pose proof (exec_plus_acepta es_digito s1 c k Hk) as Hp. cbn [exec] in Hp.
  rewrite Hp. destruct (racha es_digito s1) as [[|b fs] r]; [reflexivity|].
  cbn [snd]. destruct (k r c) eqn:E; [reflexivity|]. exfalso. exact (Hk r c E).
Qed.

Lemma exec_exponente_acepta s c k :
  acepta k -> exec (Opt EXPONENTE) s c k = k (snd (exponente_aqui s)) c.
Proof.
  intro Hk. change (exec (Opt EXPONENTE) s c k)
    with (match exec EXPONENTE s c k with
          | Some x => Some x
          | None => k s c
          end).
  unfold EXPONENTE. rewrite !exec_seq. destruct s as [|c0 s1]; [reflexivity|].
  cbn [exec exponente_aqui]. destruct (es_e c0); [|reflexivity].
  pose proof (fun s2 => exec_plus_acepta es_digito s2 c k Hk) as Hp.
  cbn [exec] in Hp.
  destruct s1 as [|a s2]; [reflexivity|]. cbn [signo_aqui].
  destruct (es_signo a) eqn:Hs.
  - pose proof (Hp s2) as H2. cbn [exec] in H2. rewrite H2.
    destruct (racha es_digito s2) as [[|d ds] r] eqn:Er.
    + destruct (es_digito a) eqn:Hd;
        [rewrite (digito_no_signo a Hd) in Hs; discriminate Hs|reflexivity].
    + cbn [snd]. destruct (k r c) eqn:E; [reflexivity|].
      exfalso. exact (Hk r c E).
  - pose proof (Hp (a :: s2)) as H2. cbn [exec] in H2. rewrite H2.
    destruct (racha es_digito (a :: s2)) as [[|d ds] r]; [reflexivity|].
    cbn [snd]. destruct (k r c) eqn:E; [reflexivity|].
    exfalso. exact (Hk r c E).
Qed.

Lemma exec_numero_simple_acepta s c k :
  acepta k ->
  exec NUMERO_SIMPLE s c k
  = match racha es_digito s with
    | (_ :: _, r1) => k (snd (fraccion_aqui r1)) c
    | ([], _) => None
    end.
Proof.
  intro Hk. unfold NUMERO_SIMPLE. rewrite exec_seq.
  rewrite exec_plus_acepta.
  - destruct (racha es_digito s) as [[|d ds] r1]; [reflexivity|].
    apply exec_fraccion_acepta, Hk.
  - intros s1 c1. rewrite exec_fraccion_acepta; [apply Hk|exact Hk].
Qed.

(** Before a continuation that accepts, the number pattern takes the number
    read directly, and nothing else. *)
Lemma exec_numero_exp_acepta s c k :
  acepta k ->
  exec NUMERO_EXP s c k
  = match numero_aqui s with
    | Some (_, _, r) => k r c
    | None => None
    end.
Proof.
  intro Hk. unfold NUMERO_EXP, NUMERO_CON_SIGNO. rewrite !exec_seq.
  assert (Hk2 : acepta (fun s1 c1 => exec (Opt EXPONENTE) s1 c1 k)).
  { intros s1 c1. rewrite exec_exponente_acepta; [apply Hk|exact Hk]. }
  assert (Hnum : forall s1,
             exec NUMERO_SIMPLE s1 c (fun s2 c2 => exec (Opt EXPONENTE) s2 c2 k)
             = match racha es_digito s1 with
               | (_ :: _, r1) =>
                   k (snd (exponente_aqui (snd (fraccion_aqui r1)))) c
               | ([], _) => None
               end).
  { intro s1. rewrite (exec_numero_simple_acepta s1 c _ Hk2).
    destruct (racha es_digito s1) as [[|d ds] r1]; [reflexivity|].
    apply exec_exponente_acepta, Hk. }
  assert (Haqui : forall sg s1,
             match racha es_digito s1 with
             | (_ :: _, r1) =>
                 k (snd (exponente_aqui (snd (fraccion_aqui r1)))) c
             | ([], _) => None
             end
             = match
                 (match racha es_digito s1 with
                  | (d :: ds, r1) =>
                      let (frac, r2) := fraccion_aqui r1 in
                      let '(ex, e, r3) := exponente_aqui r2 in
                      Some (sg ++ escribir (d :: ds) frac ++ ex,
                            decimal (texto_eqb sg ["-"%char])
                                    (valor_digitos ((d :: ds) ++ frac))
                                    (e - Z.of_nat (List.length frac)),
                            r3)
                  | ([], _) => None
                  end)
               with
               | Some (_, _, r) => k r c
               | None => None
               end).
  { intros sg s1. destruct (racha es_digito s1) as [[|d ds] r1]; [reflexivity|].
    destruct (fraccion_aqui r1) as [frac r2]. cbn [snd].
    destruct (exponente_aqui r2) as [[ex e] r3]. reflexivity. }
  change (exec (Opt (Cls es_signo)) s c
            (fun s1 c1 => exec NUMERO_SIMPLE s1 c1
                            (fun s2 c2 => exec (Opt EXPONENTE) s2 c2 k)))
    with (match exec (Cls es_signo) s c
                  (fun s1 c1 => exec NUMERO_SIMPLE s1 c1
                                  (fun s2 c2 => exec (Opt EXPONENTE) s2 c2 k)) with
          | Some x => Some x
          | None => exec NUMERO_SIMPLE s c
                      (fun s2 c2 => exec (Opt EXPONENTE) s2 c2 k)
          end).
  unfold numero_aqui. destruct s as [|a s1].
  - cbn [exec signo_aqui]. rewrite Hnum. apply Haqui.
  - cbn [exec signo_aqui]. destruct (es_signo a) eqn:Hs.
    + rewrite !Hnum. etransitivity; [|exact (Haqui [a] s1)].
      destruct (racha es_digito s1) as [[|d ds] r1] eqn:Er.
      * cbn [racha]. destruct (es_digito a) eqn:Hd;
          [rewrite (digito_no_signo a Hd) in Hs; discriminate Hs|reflexivity].
      * destruct (k (snd (exponente_aqui (snd (fraccion_aqui r1)))) c) eqn:E;
          [reflexivity|]. exfalso. exact (Hk _ _ E).
    + rewrite Hnum. apply Haqui.
Qed.

End Directo.

Lemma signo_aqui_partes (s sg s1 : texto) :
  signo_aqui s = (sg, s1) ->
  s = sg ++ s1 /\ (sg = [] \/ sg = ["+"%char] \/ sg = ["-"%char]).
Proof.
  destruct s as [|a s]; cbn [signo_aqui].
  - intro H. injection H as <- <-. auto.
  - destruct (es_signo a) eqn:Hs; intro H; injection H as <- <-; [|auto].
    split; [reflexivity|]. destruct (es_signo_casos a Hs) as [-> | ->]; auto.
Qed.

Lemma fraccion_aqui_partes (s frac r : texto) :
  fraccion_aqui s = (frac, r) ->
  s = match frac with [] => [] | _ :: _ => "."%char :: frac end ++ r
  /\ digitos frac = true.
Proof.
  destruct s as [|a s1]; cbn [fraccion_aqui].
  - intro H. injection H as <- <-. auto.
  - destruct (es_punto a) eqn:Hp; [|intro H; injection H as <- <-; auto].
    destruct (racha es_digito s1) as [[|b fs] r0] eqn:Er;
      intro H; injection H as <- <-; [auto|].
    destruct (racha_partes _ _ _ _ Er) as (-> & Hd & _).
    rewrite (es_punto_eq a Hp). auto.
Qed.

Lemma exponente_aqui_partes (s ex r : texto) (e : Z) :
  exponente_aqui s = (ex, e, r) -> s = ex ++ r /\ exponente_bien ex e.
Proof.
  destruct s as [|c s1]; cbn [exponente_aqui].
  - intro H. injection H as <- <- <-. split; [reflexivity|left; auto].
  - destruct (es_e c) eqn:Hc;
      [|intro H; injection H as <- <- <-; split; [reflexivity|left; auto]].
    destruct (signo_aqui s1) as [sg s2] eqn:Es.
    destruct (signo_aqui_partes _ _ _ Es) as (-> & Hsg).
    destruct (racha es_digito s2) as [[|d ds] r0] eqn:Er;
      intro H; injection H as <- <- <-; [split; [reflexivity|left; auto]|].
    destruct (racha_partes _ _ _ _ Er) as (-> & Hd & _).
    split; [cbn [app]; rewrite <- app_assoc; reflexivity|].
    right. exists c, sg, (d :: ds). repeat split; auto. discriminate.
Qed.

(** The number read directly: its text heads the text, it is a text of the
    number pattern, and [pd.to_numeric] reads in it the number it denotes. *)
Lemma numero_aqui_partes (s u r : texto) (v : Q) :
  numero_aqui s = Some (u, v, r) ->
  s = u ++ r /\ to_numeric_texto u = Some v /\ u <> [].
Proof.
  unfold numero_aqui. destruct (signo_aqui s) as [sg s1] eqn:Es.
  destruct (signo_aqui_partes _ _ _ Es) as (-> & Hsg).
  destruct (racha es_digito s1) as [[|d ds] r1] eqn:Er; [discriminate|].
  destruct (racha_partes _ _ _ _ Er) as (-> & Hd & _).
  destruct (fraccion_aqui r1) as [frac r2] eqn:Ef.
  destruct (fraccion_aqui_partes _ _ _ Ef) as (-> & Hf).
  destruct (exponente_aqui r2) as [[ex e] r3] eqn:Ee.
  destruct (exponente_aqui_partes _ _ _ _ Ee) as (-> & Hex).
  intro H. injection H as <- <- <-. split; [|split].
  - unfold escribir. repeat first [rewrite <- app_assoc | progress cbn [app]].
    reflexivity.
  - unfold to_numeric_texto.
    pose proof (literal_con_signo false sg (d :: ds) frac ex e Hsg
                  ltac:(discriminate) Hd Hf Hex) as Hl.
    match goal with
    | |- match literal false ?x with _ => _ end = _ =>
        change x with (sg ++ escribir (d :: ds) frac ++ ex)
    end.
    rewrite Hl. reflexivity.
  - destruct sg; discriminate.
Qed.

(** [re.match] of the number pattern is the number read directly. *)
Lemma re_match_numero (s : texto) :
  re_match PATRON_NUMERO s
  = match numero_aqui s with
    | Some (u, _, r) => Some (r, [(1%nat, u)])
    | None => None
    end.
Proof.
  unfold re_match, PATRON_NUMERO. cbn [exec].
  rewrite exec_numero_exp_acepta; [|intros s1 c1; discriminate].
  destruct (numero_aqui s) as [[[u v] r]|] eqn:E; [|reflexivity].
  destruct (numero_aqui_partes _ _ _ _ E) as (-> & _ & _).
  unfold fin. rewrite firstn_prefijo. reflexivity.
Qed.

(** [re.search] of the number pattern finds the first number of the text. *)
Lemma buscar_primer_numero (s : texto) (pos : nat) :
  option_map grupos (buscar PATRON_NUMERO s pos)
  = option_map (fun uv => [(1%nat, fst uv)]) (primer_numero s).
Proof.
  revert pos. induction s as [|a s IH]; intro pos; cbn [buscar primer_numero];
    rewrite re_match_numero.
  - destruct (numero_aqui []) as [[[u v] r]|]; reflexivity.
  - destruct (numero_aqui (a :: s)) as [[[u v] r]|]; [reflexivity|apply IH].
Qed.

Lemma primer_numero_valor (s u : texto) (v : Q) :
  primer_numero s = Some (u, v) -> to_numeric_texto u = Some v.
Proof.
  induction s as [|a s IH]; cbn [primer_numero].
  - destruct (numero_aqui []) as [[[u0 v0] r]|] eqn:E; [|discriminate].
    intro H. injection H as <- <-. exact (proj1 (proj2 (numero_aqui_partes _ _ _ _ E))).
  - destruct (numero_aqui (a :: s)) as [[[u0 v0] r]|] eqn:E; [|exact IH].
    intro H. injection H as <- <-. exact (proj1 (proj2 (numero_aqui_partes _ _ _ _ E))).
Qed.

(** On the text of a cell the function gives the first number read
    directly. *)
Lemma extract_numeric_texto_directo (s0 : texto) :
  extract_numeric_texto s0 = option_map snd (primer_numero (replace_coma s0)).
Proof.
  unfold extract_numeric_texto, re_search.
  pose proof (buscar_primer_numero (replace_coma s0) 0) as H.
  destruct (buscar PATRON_NUMERO (replace_coma s0) 0) as [m|];
    destruct (primer_numero (replace_coma s0)) as [[u v]|] eqn:E;
    cbn [option_map] in H; try discriminate H; [|reflexivity].
  injection H as ->. cbn [grupo Nat.eqb fst snd option_map].
  exact (primer_numero_valor _ _ _ E).
Qed.

Lemma extract_numeric_celda_directo (c : celda) :
  extract_numeric_celda c = primer_numero_celda c.
Proof.
  destruct c as [|x|s|repr]; cbn [extract_numeric_celda primer_numero_celda];
    [vm_compute; reflexivity|reflexivity| |]; apply extract_numeric_texto_directo.
Qed.

(** *** The number read directly is the longest of the pattern *)

Lemma digito_no_e a : es_digito a = true -> es_e a = false.
Proof. intro H. por_digito a H. Qed.

Lemma racha_prefijo (p : ascii -> bool) (x rest u r : texto) :
  forallb p x = true -> racha p (x ++ rest) = (u, r) ->
  exists y, u = x ++ y /\ rest = y ++ r /\ forallb p y = true.
Proof.
  revert u r. induction x as [|a x IH]; intros u r Hx H.
  - exists u. destruct (racha_partes _ _ _ _ H) as (H1 & H2 & _). auto.
  - cbn [forallb] in Hx. apply andb_true_iff in Hx as [Ha Hx].
    cbn [app racha] in H. rewrite Ha in H.
    destruct (racha p (x ++ rest)) as [u0 r0] eqn:E. injection H as <- <-.
    destruct (IH u0 r0 Hx eq_refl) as (y & -> & -> & Hy). exists y. auto.
Qed.

(** The length of a fraction with its point. *)
Definition largo_fraccion (frac : texto) : nat :=
  match frac with
  | [] => 0
  | _ :: _ => S (List.length frac)
  end.

Lemma length_escribir_eq (ent frac : texto) :
  List.length (escribir ent frac) = (List.length ent + largo_fraccion frac)%nat.
Proof.
  unfold escribir. destruct frac; rewrite length_app; cbn [List.length]; reflexivity.
Qed.

Lemma signo_aqui_digito (sg : texto) (a : ascii) (s : texto) :
  sg = [] \/ sg = ["+"%char] \/ sg = ["-"%char] -> es_digito a = true ->
  signo_aqui (sg ++ a :: s) = (sg, a :: s).
Proof.
  intros [->|[->| ->]] Ha; [|reflexivity|reflexivity].
  cbn [app signo_aqui]. rewrite (digito_no_signo a Ha). reflexivity.
Qed.

Lemma exponente_aqui_largo (ex' post' ex r : texto) (e' e : Z) :
  exponente_bien ex' e' -> exponente_aqui (ex' ++ post') = (ex, e, r) ->
  (List.length ex' <= List.length ex)%nat.
Proof.
  intros [[-> _]|(c & sg & ds & -> & Hc & Hsg & Hne & Hd & _)] H;
    [cbn [List.length]; lia|].
  destruct ds as [|d0 ds0]; [congruence|].
  unfold digitos in Hd. pose proof Hd as Hd'. cbn [forallb] in Hd'.
  apply andb_true_iff in Hd' as [Hd0 _].
  cbn [app exponente_aqui] in H. rewrite Hc, <- app_assoc in H.
  cbn [app] in H. rewrite (signo_aqui_digito sg d0 _ Hsg Hd0) in H.
  destruct (racha es_digito (d0 :: ds0 ++ post')) as [run r0] eqn:Er.
  destruct (racha_prefijo es_digito (d0 :: ds0) post' run r0 Hd Er)
    as (y & -> & _ & _).
  cbn [app] in H. injection H as <- _ _.
  cbn [List.length]. rewrite !length_app. cbn [List.length].
  rewrite length_app. lia.
Qed.

Ltac lon :=
  cbn [List.length largo_fraccion app] in *; rewrite ?length_app in *;
  cbn [List.length] in *; lia.

(** Of the parts of the pattern that start where the number read directly
    starts, none is longer. *)
Lemma numero_aqui_largo (s u r u' post' : texto) (v : Q) :
  numero_aqui s = Some (u, v, r) -> s = u' ++ post' ->
  Coincide NUMERO_EXP u' -> (List.length u' <= List.length u)%nat.
Proof.
  intros H -> Hc.
  destruct (numero_exp_forma u' Hc)
    as (sg & ent & frac' & ex' & e' & -> & Hsg & Hne & He & Hf & Hex).
  destruct ent as [|a ent0]; [congruence|].
  unfold digitos in He. pose proof He as He'. cbn [forallb] in He'.
  apply andb_true_iff in He' as [Ha _].
  unfold numero_aqui in H.
  assert (Hs : (sg ++ escribir (a :: ent0) frac' ++ ex') ++ post'
               = sg ++ a :: (ent0 ++ match frac' with
                                     | [] => []
                                     | _ :: _ => "."%char :: frac'
                                     end ++ ex' ++ post')).
  { unfold escribir. repeat first [rewrite <- app_assoc | progress cbn [app]].
    reflexivity. }
  rewrite Hs, (signo_aqui_digito sg a _ Hsg Ha) in H. clear Hs.
  match type of H with
  | context [racha es_digito ?x] => destruct (racha es_digito x) as [run r1] eqn:Er
  end.
  destruct (racha_prefijo es_digito (a :: ent0) _ run r1 He Er)
    as (y & -> & Hr1 & Hy).
  cbn [app] in H.
  destruct (fraccion_aqui r1) as [frac r2] eqn:Ef.
  destruct (exponente_aqui r2) as [[ex e] r3] eqn:Ee.
  assert (Hu : u = sg ++ escribir ((a :: ent0) ++ y) frac ++ ex)
    by (injection H as Hu _ _; symmetry; exact Hu).
  clear H. rewrite Hu. clear Hu.
  rewrite !length_app, !length_escribir_eq, !length_app.
  destruct y as [|a0 y'].
  - cbn [app] in Hr1. subst r1. cbn [List.length largo_fraccion].
    destruct frac' as [|b fs].
    + (* no fraction in u' *)
      cbn [app] in Ef.
      destruct Hex as [[-> _]|(c & sg2 & ds2 & Hex' & Hc2 & Hrest)].
      * lon.
      * assert (Hexb : exponente_bien ex' e')
          by (right; exists c, sg2, ds2; auto).
        subst ex'. cbn [app fraccion_aqui] in Ef.
        assert (Hp : es_punto c = false).
        { destruct (es_e_casos c Hc2) as [-> | ->]; reflexivity. }
        rewrite Hp in Ef. injection Ef as <- <-.
        pose proof (exponente_aqui_largo _ _ _ _ _ _ Hexb Ee). lon.
    + cbn [app fraccion_aqui] in Ef. change (es_punto ".") with true in Ef.
      cbv iota in Ef.
      match type of Ef with
      | context [racha es_digito ?x] =>
          destruct (racha es_digito x) as [run2 r2'] eqn:Er2
      end.
      change (b :: fs ++ ex' ++ post') with ((b :: fs) ++ ex' ++ post') in Er2.
      destruct (racha_prefijo es_digito (b :: fs) _ run2 r2' Hf Er2)
        as (y2 & -> & Hr2 & Hy2).
      cbn [app] in Ef. injection Ef as <- <-.
      destruct y2 as [|c2 y2'].
      * cbn [app] in Hr2. subst r2'.
        pose proof (exponente_aqui_largo _ _ _ _ _ _ Hex Ee).
        lon.
      * destruct Hex as [[-> _]|(c & sg2 & ds2 & -> & Hc2 & _)];
          [lon|].
        cbn [app] in Hr2. injection Hr2 as -> _.
        cbn [forallb] in Hy2. apply andb_true_iff in Hy2 as [Hy2 _].
        rewrite (digito_no_e _ Hy2) in Hc2. discriminate Hc2.
  - cbn [forallb] in Hy. apply andb_true_iff in Hy as [Ha0 _].
    destruct frac' as [|b fs].
    + destruct Hex as [[-> _]|(c & sg2 & ds2 & -> & Hc2 & _)].
      * lon.
      * cbn [app] in Hr1. injection Hr1 as -> _.
        rewrite (digito_no_e _ Ha0) in Hc2. discriminate Hc2.
    + cbn [app] in Hr1. injection Hr1 as <- _. discriminate Ha0.
Qed.

(** A successful search of the number pattern, read directly: the number
    found starts at the leftmost place where a part of the text is in the
    language of the pattern, and is the longest such part there. *)
Lemma numero_busqueda_directo (s : texto) (m : Match) :
  re_search PATRON_NUMERO s = Some m ->
  exists pre u post,
    s = pre ++ u ++ post
    /\ Coincide NUMERO_EXP u
    /\ grupos m = [(1%nat, u)]
    /\ (forall pre' u' post', s = pre' ++ u' ++ post' ->
          Coincide NUMERO_EXP u' -> (List.length pre <= List.length pre')%nat)
    /\ (forall u' post', s = pre ++ u' ++ post' ->
          Coincide NUMERO_EXP u' -> (List.length u' <= List.length u)%nat).
Proof.
  unfold re_search. intro H.
  destruct (buscar_some _ _ _ _ H)
    as (pre & s1 & s' & c & -> & Hm & _ & _ & Hg & Hleft).
  pose proof Hm as Hd. rewrite re_match_numero in Hd.
  destruct (numero_aqui s1) as [[[u v] r]|] eqn:E; [|discriminate Hd].
  injection Hd as <- <-.
  destruct (numero_aqui_partes _ _ _ _ E) as (-> & _ & _).
  unfold re_match, PATRON_NUMERO in Hm.
  destruct (exec_grp_sound 1 _ sin_grupos_numero_exp _ _ _ _ Hm)
    as (u0 & post0 & Heq & Hc & Hk).
  injection Hk as Hp Hu. subst u0.
  exists pre, u, r. split; [reflexivity|]. split; [exact Hc|].
  split; [exact Hg|]. split.
  - intros pre' u' post' Hs Hc'.
    destruct (Nat.le_gt_cases (List.length pre) (List.length pre')) as [Hle|Hgt];
      [exact Hle|exfalso].
    pose proof (Hleft pre' (u' ++ post') Hs Hgt) as Hnone.
    unfold re_match, PATRON_NUMERO in Hnone.
    pose proof (exec_grp_complete 1 _ sin_grupos_numero_exp _ _ _ Hnone
                  u' post' eq_refl Hc') as Hk.
    discriminate Hk.
  - intros u' post' Hs Hc'. apply app_inv_head in Hs.
    exact (numero_aqui_largo _ _ _ _ _ _ E Hs Hc').
Qed.

(** C6.  [extract_numeric_from_text] never raises and gives, cell by cell,
    what reading the text directly gives: commas are written as points, and
    the first signed decimal number with optional exponent of the text, each of
    its parts taken as long as it goes, is the value of the cell.  That number
    is read in the leftmost part of the text that is in the language of the
    pattern, and in the longest such part that starts there.  When no part
    matches, and so when the text has no digit, the cell is a null.  A leading
    [sign digits . digits] (or with a comma), followed by anything that does
    not continue the number, is read exactly. *)
Theorem extract_numeric_primer_numero :
  (forall series,
     extract_numeric_from_text series = map primer_numero_celda series)
  /\ (forall s v, extract_numeric_from_text [Txt s] = [Some v] ->
        exists pre u post,
          replace_coma (t s) = pre ++ u ++ post
          /\ Coincide NUMERO_EXP u
          /\ to_numeric_texto u = Some v
          /\ (forall pre' u' post', replace_coma (t s) = pre' ++ u' ++ post' ->
                Coincide NUMERO_EXP u' ->
                (List.length pre <= List.length pre')%nat)
          /\ (forall u' post', replace_coma (t s) = pre ++ u' ++ post' ->
                Coincide NUMERO_EXP u' ->
                (List.length u' <= List.length u)%nat))
  /\ (forall s, extract_numeric_from_text [Txt s] = [None] ->
        forall pre u post, replace_coma (t s) = pre ++ u ++ post ->
                           ~ Coincide NUMERO_EXP u)
  /\ (forall series,
        (forall c, In c series ->
                   exists s, c = Txt s /\ forallb no_digito (t s) = true) ->
        extract_numeric_from_text series = map (fun _ => None) series)
  /\ (forall s sg ent frac ruido sep,
        t s = sg ++ ent ++ sep :: frac ++ ruido ->
        sg = [] \/ sg = ["+"%char] \/ sg = ["-"%char] ->
        ent <> [] -> frac <> [] -> digitos ent = true -> digitos frac = true ->
        sep = "."%char \/ sep = ","%char ->
        no_empieza es_digito ruido = true -> empieza_exponente ruido = false ->
        extract_numeric_from_text [Txt s]
        = [Some (decimal (texto_eqb sg ["-"%char]) (valor_digitos (ent ++ frac))
                         (0 - Z.of_nat (List.length frac)))])
  /\ extract_numeric_from_text
       [Txt "12"; Txt "12,3 (+/- 0,5) V/m"; Txt "-0,75e2 V"; Txt "1.5e";
        Txt "+-3"; Txt "sin dato"; NaN]
     = [Some 12%Q; Some 12.3%Q; Some (-75)%Q; Some 1.5%Q; Some (-3)%Q; None; None].
Proof.
  split; [|split; [|split; [|split; [|split]]]].
  - intro series. unfold extract_numeric_from_text. apply map_ext.
    exact extract_numeric_celda_directo.
  - intros s v H. cbn [extract_numeric_from_text map extract_numeric_celda] in H.
    injection H as H. unfold extract_numeric_texto in H.
    destruct (re_search PATRON_NUMERO (replace_coma (t s))) as [m|] eqn:Hs;
      [|discriminate].
    destruct (numero_busqueda_directo _ m Hs)
      as (pre & u & post & Heq & Hc & Hg & Hleft & Hlargo).
    rewrite Hg in H. cbn [grupo Nat.eqb] in H.
    exists pre, u, post. auto.
  - intros s H pre u post Heq Hc.
    cbn [extract_numeric_from_text map extract_numeric_celda] in H.
    injection H as H. unfold extract_numeric_texto in H.
    destruct (re_search PATRON_NUMERO (replace_coma (t s))) as [m|] eqn:Hs.
    + destruct (numero_busqueda _ m Hs) as (pre1 & u1 & post1 & _ & Hc1 & Hg & _).
      rewrite Hg in H. cbn [grupo Nat.eqb] in H.
      destruct (to_numeric_numero_exp u1 Hc1) as (q & Hq). congruence.
    + exact (numero_sin_busqueda _ Hs pre u post Heq Hc).
  - intros series H. unfold extract_numeric_from_text. apply map_ext_in.
    intros c Hin. destruct (H c Hin) as (s & -> & Hs).
    cbn [extract_numeric_celda]. exact (extract_numeric_sin_digitos _ Hs).
  - intros s sg ent frac ruido sep Hs Hsg Hne Hnf He Hf Hsep Hr Hx.
    cbn [extract_numeric_from_text map extract_numeric_celda]. rewrite Hs.
    f_equal. exact (extract_numeric_al_frente sg ent frac ruido sep
                      Hsg Hne Hnf He Hf Hsep Hr Hx).
  - vm_compute. reflexivity.
Qed.

Lemma extract_numeric_primer_numero_witness :
  extract_numeric_from_text [Txt "12,3 (+/- 0,5) V/m"]
  = [Some (decimal false 123 (0 - 1))]
  /\ extract_numeric_from_text [Txt "sin dato"; Txt "-"] = [None; None]
  /\ (forall pre u post,
        replace_coma (t "V/m") = pre ++ u ++ post -> ~ Coincide NUMERO_EXP u)
  /\ exists pre u post,
       replace_coma (t "a 12") = pre ++ u ++ post
       /\ Coincide NUMERO_EXP u /\ to_numeric_texto u = Some 12%Q.
Proof.
  destruct extract_numeric_primer_numero as (_ & H2 & H3 & H4 & H5 & _).
  split; [|split; [|split]].
  - apply (H5 "12,3 (+/- 0,5) V/m" [] (t "12") (t "3") (t " (+/- 0,5) V/m")
              ","%char);
      first [reflexivity | discriminate | now left | now right].
  - apply (H4 [Txt "sin dato"; Txt "-"]). intros c [<-|[<-|[]]]; eexists;
      split; reflexivity.
  - apply (H3 "V/m"). vm_compute. reflexivity.
  - destruct (H2 "a 12" 12%Q ltac:(vm_compute; reflexivity))
      as (pre & u & post & Heq & Hc & Hv & _).
    exists pre, u, post. auto.
Defined.

(* ================================================================= *)
(** ** Sheets *)

(** A DataFrame as [pd.read_excel] delivers it: the column labels and the
    rows, each row with one cell per column. *)
Record DataFrame : Type := mkDataFrame {
  df_columns : list string;
  df_rows : list (list celda)
}.

Definition DataFrame_vacio : DataFrame := mkDataFrame [] [].

(** [df.empty] *)
Definition df_empty (df : DataFrame) : bool :=
  match df_rows df, df_columns df with
  | [], _ => true
  | _, [] => true
  | _, _ => false
  end.

(** The position of a label, the first if it occurs twice. *)
Fixpoint posicion (c : string) (cols : list string) : option nat :=
  match cols with
  | [] => None
  | x :: cols' =>
      if String.eqb c x then Some O else option_map S (posicion c cols')
  end.

Definition en_columnas (c : string) (df : DataFrame) : bool :=
  existsb (String.eqb c) (df_columns df).

Definition veces (c : string) (df : DataFrame) : nat :=
  List.length (filter (String.eqb c) (df_columns df)).

(** [df[c]], for a label that is there. *)
Definition columna (c : string) (df : DataFrame) : list celda :=
  match posicion c (df_columns df) with
  | Some i => map (fun fila => nth i fila NaN) (df_rows df)
  | None => []
  end.

Fixpoint poner {X : Type} (i : nat) (v : X) (l : list X) : list X :=
  match i, l with
  | O, _ :: l' => v :: l'
  | S i', x :: l' => x :: poner i' v l'
  | _, [] => []
  end.

Fixpoint zip_con {X Y Z : Type} (f : X -> Y -> Z) (l1 : list X) (l2 : list Y)
  : list Z :=
  match l1, l2 with
  | x :: l1', y :: l2' => f x y :: zip_con f l1' l2'
  | _, _ => []
  end.

(** [df[c] = valores]: the column is replaced, or added as the last one. *)
Definition asignar (c : string) (valores : list celda) (df : DataFrame)
  : DataFrame :=
  match posicion c (df_columns df) with
  | Some i =>
      mkDataFrame (df_columns df)
                  (zip_con (fun fila v => poner i v fila) (df_rows df) valores)
  | None =>
      mkDataFrame (df_columns df ++ [c])
                  (zip_con (fun fila v => fila ++ [v]) (df_rows df) valores)
  end.

(** [df[c] = v], one value for every row. *)
Definition asignar_constante (c : string) (v : celda) (df : DataFrame)
  : DataFrame :=
  asignar c (map (fun _ => v) (df_rows df)) df.

Definition es_nan (c : celda) : bool :=
  match c with NaN => true | _ => false end.

Fixpoint quitar_posiciones {X : Type} (mask : list bool) (l : list X) : list X :=
  match mask, l with
  | b :: mask', x :: l' =>
      if b then quitar_posiciones mask' l' else x :: quitar_posiciones mask' l'
  | _, _ => l
  end.

(** [df.dropna(axis=1, how="all")]: the columns whose cells are all null go;
    with no row, every column goes. *)
Definition dropna_columnas (df : DataFrame) : DataFrame :=
  let mask :=
    map (fun i => forallb (fun fila => es_nan (nth i fila NaN)) (df_rows df))
        (seq 0 (List.length (df_columns df))) in
  mkDataFrame (quitar_posiciones mask (df_columns df))
              (map (quitar_posiciones mask) (df_rows df)).

(** [df[mask]], a row kept where the mask holds. *)
Definition filtrar_filas (mask : list bool) (df : DataFrame) : DataFrame :=
  mkDataFrame (df_columns df)
              (quitar_posiciones (map negb mask) (df_rows df)).

(** [df.drop(columns=[c], errors="ignore")] *)
Definition drop_columna (c : string) (df : DataFrame) : DataFrame :=
  let mask := map (String.eqb c) (df_columns df) in
  mkDataFrame (quitar_posiciones mask (df_columns df))
              (map (quitar_posiciones mask) (df_rows df)).

(** [pd.concat(dfs, ignore_index=True)]: the columns in order of first
    appearance, the rows one frame after the other, a null where a frame
    lacks a column. *)
Fixpoint union_columnas (acc : list string) (cols : list string) : list string :=
  match cols with
  | [] => acc
  | c :: cols' =>
      if existsb (String.eqb c) acc then union_columnas acc cols'
      else union_columnas (acc ++ [c]) cols'
  end.

Definition celda_de (cols : list string) (fila : list celda) (c : string) : celda :=
  match posicion c cols with
  | Some i => nth i fila NaN
  | None => NaN
  end.

Definition concat (dfs : list DataFrame) : DataFrame :=
  let cols := fold_left (fun acc df => union_columnas acc (df_columns df)) dfs [] in
  mkDataFrame cols
    (flat_map (fun df => map (fun fila => map (celda_de (df_columns df) fila) cols)
                             (df_rows df)) dfs).

(* ----------------------------------------------------------------- *)
(** *** Headers *)

(** [str.lower()], on the UTF-8 bytes of a label: the letters A-Z, and the
    capital letters of Latin-1 (bytes C3 80 to C3 9E, the sign C3 97 apart).
    No other character lowers to a character of the candidate names below. *)
Fixpoint lower (s : texto) : texto :=
  match s with
  | a :: s' =>
      if N.eqb (codigo a) 195
      then match s' with
           | b :: s'' =>
               (if ((128 <=? codigo b) && (codigo b <=? 158)
                    && negb (codigo b =? 151))%N
                then a :: ascii_of_N (codigo b + 32) :: lower s''
                else a :: b :: lower s'')
           | [] => [a]
           end
      else minuscula a :: lower s'
  | [] => []
  end.

Fixpoint prefijo (p s : texto) : bool :=
  match p, s with
  | [], _ => true
  | a :: p', b :: s' => Ascii.eqb a b && prefijo p' s'
  | _ :: _, [] => false
  end.

(** [p in s] *)
Fixpoint contiene (p s : texto) : bool :=
  prefijo p s
  || match s with
     | [] => false
     | _ :: s' => contiene p s'
     end.

(** [any(cand in str(c).lower() for cand in cands)] *)
Definition coincide_candidatos (cands : list string) (c : string) : bool :=
  existsb (fun cand => contiene (t cand) (lower (t c))) cands.

(** The truth value of a label: a string is false when empty. *)
Definition verdadero (c : option string) : bool :=
  match c with
  | Some s => negb (String.eqb s "")
  | None => false
  end.

Definition candidates_indice : list string :=
  ["índice"; "indice"; "index"; "nro"; "nº"; "n°"; "num"; "numero"; "#"].

Definition find_index_column (df : DataFrame) : option string :=
  find (coincide_candidatos candidates_indice) (df_columns df).

Definition mapping_candidates : list (string * list string) :=
  [ ("Fecha", ["fecha"]);
    ("Hora", ["hora"; "time"]);
    ("Resultado", ["resultado con incertidumbre"; "resultado"]);
    ("Sonda", ["sonda"; "sonda utilizada"]);
    ("Lat", ["latitud"; "lat"]);
    ("Lon", ["longitud"; "lon"]) ].

Definition opcional (key : string) : bool :=
  String.eqb key "Lat" || String.eqb key "Lon".

(** The loop over [mapping_candidates]: [inl key] when it breaks on a missing
    mandatory [key], [inr columnas_map] otherwise. *)
Fixpoint mapear (cands : list (string * list string)) (cols : list string)
    (columnas_map : list (string * string))
  : string + list (string * string) :=
  match cands with
  | [] => inr columnas_map
  | (key, cs) :: resto =>
      let found := find (coincide_candidatos cs) cols in
      if negb (verdadero found) && negb (opcional key) then inl key
      else match found with
           | Some c =>
               if verdadero found
               then mapear resto cols (columnas_map ++ [(key, c)])
               else mapear resto cols columnas_map
           | None => mapear resto cols columnas_map
           end
  end.

(** [df.rename(columns={v: k for k, v in columnas_map.items()})]: in the
    dictionary a later key of the same column replaces an earlier one. *)
Definition renombrar (columnas_map : list (string * string)) (c : string) : string :=
  match find (fun kv => String.eqb (snd kv) c) (rev columnas_map) with
  | Some (k, _) => k
  | None => c
  end.

Definition rename (columnas_map : list (string * string)) (df : DataFrame)
  : DataFrame :=
  mkDataFrame (map (renombrar columnas_map) (df_columns df)) (df_rows df).

(* ----------------------------------------------------------------- *)
(** *** One file *)

(** An uploaded file: its name and what [pd.read_excel(file, header=8)]
    makes of it, [None] when it raises. *)
Record Archivo : Type := mkArchivo {
  name : string;
  read_excel : option DataFrame
}.

Inductive Aviso : Type :=
| no_se_pudo_leer (archivo : string)
| no_se_encontro_columna (archivo : string) (key : string).

Record Resumen : Type := mkResumen {
  res_archivo : string;
  res_expediente : celda;
  res_total_mediciones : Z;
  res_max_resultado : option Q
}.

(** A binary64 value that is not a NaN: a finite number, taken as the
    rational it stands for, or an infinity. *)
Inductive flotante : Type :=
| finito (q : Q)
| infinito (negativo : bool).

(** From this magnitude on a decimal literal is out of the range of
    binary64: the largest binary64 number plus half a unit of its last
    place. *)
Definition umbral_infinito : Q := inject_Z (2 ^ 1024 - 2 ^ 970).

(** The spellings of infinity, after the sign. *)
Definition es_inf (s : texto) : bool :=
  let l := map minuscula s in
  texto_eqb l (t "inf") || texto_eqb l (t "infinity").

(** [pd.to_numeric(s, errors="coerce")] on a text.  The parser reads a decimal
    literal, blanks around it aside; when it fails, the whole text is compared,
    case aside, with [inf] and [infinity] after an optional sign, and anything
    else is a null.  A literal out of range is a failure of the parser, hence a
    null. *)
Definition to_numeric_flotante (s : texto) : option flotante :=
  let (neg, s1) := leer_signo s in
  if es_inf s1 then Some (infinito neg)
  else match to_numeric_texto s with
       | Some q => if Qle_bool umbral_infinito (Qabs q) then None
                   else Some (finito q)
       | None => None
       end.

(** [pd.to_numeric(serie, errors="coerce")], on one cell. *)
Definition to_numeric_celda (c : celda) : option flotante :=
  match c with
  | NaN => None
  | Num x => Some (finito x)
  | Txt s => to_numeric_flotante (t s)
  | Otro _ => None
  end.

Definition celda_de_numero (v : option Q) : celda :=
  match v with
  | Some x => Num x
  | None => NaN
  end.

(** The cell that holds a float: an infinity is an object that is written
    [inf]. *)
Definition celda_de_flotante (v : option flotante) : celda :=
  match v with
  | Some (finito x) => Num x
  | Some (infinito true) => Otro "-inf"
  | Some (infinito false) => Otro "inf"
  | None => NaN
  end.

(** The number a cell of a float column holds. *)
Definition numero_de_celda (c : celda) : option Q :=
  match c with
  | Num x => Some x
  | _ => None
  end.

(** [serie.max()], nulls skipped; a null when nothing is left. *)
Definition Qmax (a b : Q) : Q := if Qle_bool a b then b else a.

Definition serie_max_Q (l : list (option Q)) : option Q :=
  match dropna l with
  | [] => None
  | x :: xs => Some (fold_left Qmax xs x)
  end.

Definition Fmax (a b : flotante) : flotante :=
  match a, b with
  | infinito false, _ => a
  | _, infinito false => b
  | infinito true, _ => b
  | _, infinito true => a
  | finito x, finito y => finito (Qmax x y)
  end.

Definition serie_max_F (l : list (option flotante)) : option flotante :=
  match dropna l with
  | [] => None
  | x :: xs => Some (fold_left Fmax xs x)
  end.

(** [int(x)]: towards zero. *)
Definition int_de (x : Q) : Z := Z.quot (Qnum x) (Z.pos (Qden x)).

(** [os.path.splitext(p)[0]]: the name without its last extension; a dot that
    only follows dots at the head of the base name starts no extension. *)
Fixpoint partir_en (a : ascii) (s : texto) : option (texto * texto) :=
  match s with
  | [] => None
  | b :: s' =>
      if Ascii.eqb a b then Some ([], s')
      else if Ascii.eqb b "/" then None
      else match partir_en a s' with
           | Some (x, y) => Some (b :: x, y)
           | None => None
           end
  end.

Fixpoint hasta_barra (s : texto) : texto :=
  match s with
  | [] => []
  | b :: s' => if Ascii.eqb b "/" then [] else b :: hasta_barra s'
  end.

Definition splitext_raiz (p : string) : string :=
  match partir_en "." (rev (t p)) with
  | Some (_, antes) =>
      if existsb (fun b => negb (Ascii.eqb b ".")) (hasta_barra antes)
      then string_of_list_ascii (rev antes)
      else p
  | None => p
  end.

Fixpoint mapM {X Y : Type} (f : X -> resultado Y) (l : list X)
  : resultado (list Y) :=
  match l with
  | [] => Ok []
  | x :: l' => y <- f x ;; ys <- mapM f l' ;; Ok (y :: ys)
  end.

(** [df[c] = df[c].apply(parse_dms_to_decimal)], when [c] is a column.  With
    two columns of that label [df[c]] is a frame, and the test [if pd.isna(val)]
    on a whole column raises. *)
Definition aplicar_dms (c : string) (df : DataFrame) : resultado DataFrame :=
  if en_columnas c df
  then if Nat.leb 2 (veces c df) then Raise ValueErrorExc
       else
         vs <- mapM parse_dms_to_decimal (columna c df) ;;
         Ok (asignar c (map celda_de_numero vs) df)
  else Ok df.

Inductive Paso : Type :=
| Saltado (w : Aviso)
| Procesado (df : DataFrame) (r : Resumen)
| Falla (e : excepcion).

(** The index column: the rows that stay and the count of measurements.  The
    column [_idx_num] holds [nums], and its maximum is taken over the rows that
    stay, those where it is not null; [int] of an infinity raises
    [OverflowError]. *)
Definition contar_mediciones (df : DataFrame) : resultado (DataFrame * Z) :=
  let idx_col := find_index_column df in
  let total_mediciones := Z.of_nat (List.length (df_rows df)) in
  if verdadero idx_col
  then match idx_col with
       | Some c =>
           let nums := map to_numeric_celda (columna c df) in
           let df1 := asignar "_idx_num" (map celda_de_flotante nums) df in
           let df2 :=
             filtrar_filas (map (fun c => negb (es_nan c)) (columna "_idx_num" df1))
                           df1 in
           if negb (df_empty df2)
           then match serie_max_F nums with
                | Some (finito x) => Ok (df2, int_de x)
                | Some (infinito _) => Raise OverflowError
                | None => Ok (df2, total_mediciones)
                end
           else Ok (df2, total_mediciones)
       | None => Ok (df, total_mediciones)
       end
  else Ok (df, total_mediciones).

(** What follows the column mapping: renaming, the constant columns, the
    coercions and the summary row. *)
Definition limpiar (file_name : string) (ccte provincia localidad expediente : string)
    (columnas_map : list (string * string)) (total_mediciones : Z)
    (df : DataFrame) : resultado (DataFrame * Resumen) :=
  let df := rename columnas_map df in
  let df := asignar_constante "CCTE" (Txt ccte) df in
  let df := asignar_constante "Provincia" (Txt provincia) df in
  let df := asignar_constante "Localidad" (Txt localidad) df in
  let df := asignar_constante "Expediente"
              (Txt (if String.eqb expediente "" then splitext_raiz file_name
                    else expediente)) df in
  let df := asignar_constante "Nombre Archivo" (Txt file_name) df in
  df <- (if en_columnas "Resultado" df
         then if Nat.leb 2 (veces "Resultado" df) then Raise AttributeError
              else Ok (asignar "Resultado"
                         (map celda_de_numero
                              (extract_numeric_from_text (columna "Resultado" df)))
                         df)
         else Ok df) ;;
  df <- aplicar_dms "Lat" df ;;
  df <- aplicar_dms "Lon" df ;;
  let df := drop_columna "_idx_num" df in
  match columna "Expediente" df with
  | [] => Raise IndexError
  | exp0 :: _ =>
      Ok (df, mkResumen file_name exp0 total_mediciones
                (if en_columnas "Resultado" df
                 then serie_max_Q (map numero_de_celda (columna "Resultado" df))
                 else None))
  end.

(** The body of the loop of [procesar_archivos], for one file. *)
Definition procesar_uno (ccte provincia localidad expediente : string)
    (file : Archivo) : Paso :=
  match read_excel file with
  | None => Saltado (no_se_pudo_leer (name file))
  | Some df =>
      let df := dropna_columnas df in
      match contar_mediciones df with
      | Raise e => Falla e
      | Ok (df, total_mediciones) =>
          match mapear mapping_candidates (df_columns df) [] with
          | inl key => Saltado (no_se_encontro_columna (name file) key)
          | inr columnas_map =>
              match limpiar (name file) ccte provincia localidad expediente
                            columnas_map total_mediciones df with
              | Ok (df, r) => Procesado df r
              | Raise e => Falla e
              end
          end
      end
  end.

(** The loop: the processed frames, the summary rows, and the warnings
    shown so far; an exception ends it. *)
Fixpoint bucle (ccte provincia localidad expediente : string)
    (files : list Archivo) (lista_procesados : list DataFrame)
    (resumen_archivos : list Resumen) (avisos : list Aviso)
  : list Aviso * resultado (list DataFrame * list Resumen) :=
  match files with
  | [] => (avisos, Ok (lista_procesados, resumen_archivos))
  | file :: resto =>
      match procesar_uno ccte provincia localidad expediente file with
      | Saltado w =>
          bucle ccte provincia localidad expediente resto
                lista_procesados resumen_archivos (avisos ++ [w])
      | Procesado df r =>
          bucle ccte provincia localidad expediente resto
                (lista_procesados ++ [df]) (resumen_archivos ++ [r]) avisos
      | Falla e => (avisos, Raise e)
      end
  end.

(** [procesar_archivos]: the warnings shown, and the record batch with the
    summary batch, or the exception that leaves the function. *)
Definition procesar_archivos (uploaded_files : list Archivo)
    (ccte provincia localidad expediente : string)
  : list Aviso * resultado (DataFrame * list Resumen) :=
  let '(avisos, r) :=
    bucle ccte provincia localidad expediente uploaded_files [] [] [] in
  (avisos,
   match r with
   | Ok (lista_procesados, resumen_archivos) =>
       match lista_procesados with
       | [] => Ok (DataFrame_vacio, [])
       | _ :: _ => Ok (concat lista_procesados, resumen_archivos)
       end
   | Raise e => Raise e
   end).

(* ================================================================= *)
(** ** Properties of [procesar_archivos] *)

(** Some mandatory field has no header that holds one of its candidate names,
    case aside. *)
Definition falta_en (cands : list (string * list string)) (cols : list string)
  : bool :=
  existsb (fun kc => negb (opcional (fst kc))
                     && negb (existsb (coincide_candidatos (snd kc)) cols))
          cands.

Definition falta_obligatoria (cols : list string) : bool :=
  falta_en mapping_candidates cols.





Lemma quitar_posiciones_sub {X : Type} (mask : list bool) (l : list X) (x : X) :
  In x (quitar_posiciones mask l) -> In x l.
Proof.
  revert l. induction mask as [|b mask IH]; intros l H; [destruct l; exact H|].
  destruct l as [|y l]; [exact H|]. simpl in H.
  destruct b; [right; exact (IH _ H)|].
  destruct H as [->|H]; [left; reflexivity|right; exact (IH _ H)].
Qed.












Section Bucle.
Variables ccte provincia localidad expediente : string.

Lemma bucle_avisos (files : list Archivo) l r (a a' : list Aviso) :
  snd (bucle ccte provincia localidad expediente files l r a)
  = snd (bucle ccte provincia localidad expediente files l r a').
Proof.
  revert l r a a'. induction files as [|f files IH]; intros l r a a'; simpl;
    [reflexivity|].
  destruct (procesar_uno ccte provincia localidad expediente f);
    [apply IH|apply IH|reflexivity].
Qed.

(** A skipped file leaves the rest of the loop as it would be without it. *)
Lemma bucle_saltado (pre post : list Archivo) (file : Archivo) (w : Aviso) l r a :
  procesar_uno ccte provincia localidad expediente file = Saltado w ->
  snd (bucle ccte provincia localidad expediente (pre ++ file :: post) l r a)
  = snd (bucle ccte provincia localidad expediente (pre ++ post) l r a).
Proof.
  intro Hs. revert l r a. induction pre as [|f pre IH]; intros l r a; simpl.
  - rewrite Hs. apply bucle_avisos.
  - destruct (procesar_uno ccte provincia localidad expediente f);
      [apply IH|apply IH|reflexivity].
Qed.

Lemma procesar_archivos_snd (files : list Archivo) :
  snd (procesar_archivos files ccte provincia localidad expediente)
  = match snd (bucle ccte provincia localidad expediente files [] [] []) with
    | Ok (lista_procesados, resumen_archivos) =>
        match lista_procesados with
        | [] => Ok (DataFrame_vacio, [])
        | _ :: _ => Ok (concat lista_procesados, resumen_archivos)
        end
    | Raise e => Raise e
    end.
Proof.
  unfold procesar_archivos.
  destruct (bucle ccte provincia localidad expediente files [] [] []) as [a r].
  reflexivity.
Qed.

Lemma procesar_archivos_saltado (pre post : list Archivo) (file : Archivo) (w : Aviso) :
  procesar_uno ccte provincia localidad expediente file = Saltado w ->
  snd (procesar_archivos (pre ++ file :: post) ccte provincia localidad expediente)
  = snd (procesar_archivos (pre ++ post) ccte provincia localidad expediente).
Proof.
  intro Hs. rewrite !procesar_archivos_snd, (bucle_saltado pre post file w _ _ _ Hs).
  reflexivity.
Qed.

End Bucle.

(** Files for the examples. *)
Definition hoja_completa : DataFrame :=
  mkDataFrame
    ["Nro"; "Fecha"; "Hora"; "Resultado con incertidumbre (V/m)"; "Sonda utilizada"]
    [ [Num 1; Otro "2024-03-01"; Otro "10:00:00"; Txt "1,2 (+- 0,1)"; Txt "EP-600"];
      [Num 2; Otro "2024-03-01"; Otro "10:05:00"; Txt "3,5"; Txt "EP-600"] ].

Definition hoja_sin_fecha : DataFrame :=
  mkDataFrame
    ["Nro"; "Hora"; "Resultado"; "Sonda"; "Latitud"; "Longitud"]
    [ [Num 1; Otro "10:00:00"; Txt "1,2"; Txt "EP-600"; Num 34; Num 58] ].

(** A sheet whose index column holds no number: one annotation row. *)
Definition hoja_indice_sin_numeros : DataFrame :=
  mkDataFrame
    ["Nro"; "Fecha"; "Hora"; "Resultado"; "Sonda"]
    [ [Txt "Total"; Otro "2024-03-01"; Otro "10:00:00"; Txt "1,2"; Txt "EP-600"] ].

Definition archivo_completo : Archivo := mkArchivo "a.xlsx" (Some hoja_completa).
Definition archivo_sin_fecha : Archivo := mkArchivo "b.xlsx" (Some hoja_sin_fecha).
Definition archivo_ilegible : Archivo := mkArchivo "c.xlsx" None.
Definition archivo_indice_sin_numeros : Archivo :=
  mkArchivo "d.xlsx" (Some hoja_indice_sin_numeros).

(** A sheet without a date column, whose index column holds the text
    ["inf"]. *)
Definition hoja_indice_infinito : DataFrame :=
  mkDataFrame
    ["Nro"; "Hora"; "Resultado"; "Sonda"]
    [ [Num 1; Otro "10:00:00"; Txt "1,2"; Txt "EP-600"];
      [Txt "inf"; Otro "10:05:00"; Txt "1,3"; Txt "EP-600"] ].

Definition archivo_indice_infinito : Archivo :=
  mkArchivo "f.xlsx" (Some hoja_indice_infinito).

(** C3.  A readable file that lacks the header of a mandatory field is not
    always rejected on its own.  [hoja_indice_infinito] has no date column, and its
    index column holds a cell that reads as an infinity: [pd.to_numeric] keeps
    it, [int(df["_idx_num"].max())] raises [OverflowError] before the columns
    are checked, nothing catches it, and [procesar_archivos] returns no batch at
    all, though the other files of the list are good and are processed when the
    file is left out. *)
Theorem indice_infinito_pierde_el_lote :
  falta_obligatoria (df_columns hoja_indice_infinito) = true
  /\ contar_mediciones (dropna_columnas hoja_indice_infinito) = Raise OverflowError
  /\ procesar_uno "CABA" "CABA" "Salta" "" archivo_indice_infinito
     = Falla OverflowError
  /\ procesar_archivos [archivo_completo; archivo_indice_infinito; archivo_completo]
                       "CABA" "CABA" "Salta" ""
     = ([], Raise OverflowError)
  /\ exists df resumen,
       procesar_archivos [archivo_completo; archivo_completo]
                         "CABA" "CABA" "Salta" ""
       = ([], Ok (df, resumen))
       /\ List.length (df_rows df) = 4%nat /\ List.length resumen = 2%nat.
Proof.
  split; [vm_compute; reflexivity|].
  split; [vm_compute; reflexivity|].
  split; [vm_compute; reflexivity|].
  split; [vm_compute; reflexivity|].
  eexists _, _. split; [vm_compute; reflexivity|]. split; reflexivity.
Qed.



(** C8.  A readable file whose index column holds no number passes the
    column check with no row left, and [df["Expediente"].iloc[0]] raises
    [IndexError] out of [procesar_archivos]: alone, or after a good file, whose
    rows are lost with it.  Unreadable files and files without a mandatory
    column do give warnings and empty batches. *)
Theorem indice_sin_numeros_lanza_IndexError :
  procesar_uno "CABA" "CABA" "Salta" "" archivo_indice_sin_numeros = Falla IndexError
  /\ procesar_archivos [archivo_indice_sin_numeros] "CABA" "CABA" "Salta" ""
     = ([], Raise IndexError)
  /\ procesar_archivos [archivo_completo; archivo_indice_sin_numeros]
                       "CABA" "CABA" "Salta" ""
     = ([], Raise IndexError)
  /\ procesar_archivos [archivo_ilegible; archivo_sin_fecha] "CABA" "CABA" "Salta" ""
     = ([no_se_pudo_leer "c.xlsx"; no_se_encontro_columna "b.xlsx" "Fecha"],
        Ok (DataFrame_vacio, [])).
Proof.
  split; [vm_compute; reflexivity|].
  split; [vm_compute; reflexivity|].
  split; vm_compute; reflexivity.
Qed.

(* ================================================================= *)
(** ** More on the duration aggregator *)

Lemma tramo_nonneg (hs : list hora) : 0 <= tramo hs.
Proof.
  destruct hs as [|h hs]; simpl; [lia|].
  pose proof (serie_min_le_max h hs). lia.
Qed.

Lemma suma_Z_nonneg (l : list Z) : (forall x, In x l -> 0 <= x) -> 0 <= suma_Z l.
Proof.
  induction l as [|x l IH]; simpl; intro H; [lia|].
  pose proof (H x (or_introl eq_refl)).
  assert (0 <= suma_Z l) by (apply IH; intros y Hy; apply H; right; exact Hy).
  unfold suma_Z in *. lia.
Qed.

(** X1.  The total duration is never negative. *)
Theorem tiempo_total_no_negativo (df : Tabla) :
  0 <= calcular_tiempo_total_por_archivo df.
Proof.
  rewrite calcular_tiempo_suma_de_tramos. unfold suma_de_tramos.
  apply suma_Z_nonneg. intros x Hx.
  apply in_map_iff in Hx as (g & <- & _). apply tramo_nonneg.
Qed.

(** X2.  [format_timedelta_long] splits the whole seconds of a duration: minutes
    and seconds are in [0, 60), and hours, minutes and seconds add up to the
    seconds of the duration; the hours of a non-negative duration are not
    negative. *)
Theorem format_timedelta_long_descompone (td : timedelta) :
  let '(hh, mm, ss) := format_timedelta_long td in
  0 <= mm < 60 /\ 0 <= ss < 60
  /\ hh * 3600 + mm * 60 + ss = Z.quot td us_por_segundo
  /\ (0 <= td -> 0 <= hh).
Proof.
  unfold format_timedelta_long. cbv zeta.
  set (n := Z.quot td us_por_segundo).
  assert (Hn : 0 <= td -> 0 <= n).
  { intro H. unfold n. apply Z.quot_pos; [exact H|unfold us_por_segundo; lia]. }
  pose proof (Z.mod_pos_bound n 3600 ltac:(lia)) as H1.
  pose proof (Z.mod_pos_bound n 60 ltac:(lia)) as H2.
  pose proof (Z.div_mod n 3600 ltac:(lia)) as H3.
  pose proof (Z.div_mod (n mod 3600) 60 ltac:(lia)) as H4.
  assert (H5 : (n mod 3600) mod 60 = n mod 60).
  { apply Z.mod_mod_divide. exists 60. reflexivity. }
  pose proof (Z.mod_pos_bound (n mod 3600) 60 ltac:(lia)) as H6.
  assert (H7 : 0 <= (n mod 3600) / 60 < 60).
  { split; [apply Z.div_pos; lia|apply Z.div_lt_upper_bound; lia]. }
  repeat split; try lia.
Qed.

(* ----------------------------------------------------------------- *)
(** *** The total as a double sum over files and dates *)

Definition sumatoria {X : Type} (g : X -> Z) (l : list X) : Z := suma_Z (map g l).

Lemma sumatoria_cons {X : Type} (g : X -> Z) (x : X) (l : list X) :
  sumatoria g (x :: l) = g x + sumatoria g l.
Proof. reflexivity. Qed.

Lemma sumatoria_app {X : Type} (g : X -> Z) (l1 l2 : list X) :
  sumatoria g (l1 ++ l2) = sumatoria g l1 + sumatoria g l2.
Proof. unfold sumatoria. rewrite map_app. apply suma_Z_app. Qed.

Lemma sumatoria_ext {X : Type} (g h : X -> Z) (l : list X) :
  (forall x, In x l -> g x = h x) -> sumatoria g l = sumatoria h l.
Proof.
  induction l as [|x l IH]; intro H; [reflexivity|].
  rewrite !sumatoria_cons, (H x (or_introl eq_refl)), IH; [reflexivity|].
  intros y Hy. apply H. right. exact Hy.
Qed.

Lemma sumatoria_cero {X : Type} (g : X -> Z) (l : list X) :
  (forall x, In x l -> g x = 0) -> sumatoria g l = 0.
Proof.
  induction l as [|x l IH]; intro H; [reflexivity|].
  rewrite sumatoria_cons, (H x (or_introl eq_refl)), IH; [reflexivity|].
  intros y Hy. apply H. right. exact Hy.
Qed.

Lemma sumatoria_perm {X : Type} (g : X -> Z) (l1 l2 : list X) :
  Permutation l1 l2 -> sumatoria g l1 = sumatoria g l2.
Proof.
  induction 1 as [|x l l' _ IH|x y l|l l' l'' _ IH1 _ IH2];
    rewrite ?sumatoria_cons; lia.
Qed.

Lemma sumatoria_suma {X : Type} (g h : X -> Z) (l : list X) :
  sumatoria (fun x => g x + h x) l = sumatoria g l + sumatoria h l.
Proof. induction l as [|x l IH]; rewrite ?sumatoria_cons; [reflexivity|lia]. Qed.

(** The order of a double sum. *)
Lemma sumatoria_intercambio {X Y : Type} (g : X -> Y -> Z) (l1 : list X) (l2 : list Y) :
  sumatoria (fun x => sumatoria (fun y => g x y) l2) l1
  = sumatoria (fun y => sumatoria (fun x => g x y) l1) l2.
Proof.
  induction l1 as [|x l1 IH].
  - symmetry. apply sumatoria_cero. reflexivity.
  - rewrite sumatoria_cons, IH, <- sumatoria_suma.
    apply sumatoria_ext. intros y _. reflexivity.
Qed.

Lemma sumatoria_filter {X : Type} (g : X -> Z) (p : X -> bool) (l : list X) :
  (forall x, In x l -> p x = false -> g x = 0) ->
  sumatoria g (filter p l) = sumatoria g l.
Proof.
  induction l as [|x l IH]; intro H; [reflexivity|]. simpl.
  assert (IH' : sumatoria g (filter p l) = sumatoria g l)
    by (apply IH; intros y Hy; apply H; right; exact Hy).
  destruct (p x) eqn:Hp; rewrite ?sumatoria_cons, IH'; [reflexivity|].
  rewrite (H x (or_introl eq_refl) Hp). lia.
Qed.

(** A sum over distinct keys may range over more distinct keys, when the
    summand is zero on the new ones. *)
Lemma sumatoria_mas_claves {X : Type} (eqb : X -> X -> bool)
    (eqb_eq : forall x y, eqb x y = true <-> x = y)
    (g : X -> Z) (l1 l2 : list X) :
  NoDup l1 -> NoDup l2 -> (forall x, In x l1 -> In x l2) ->
  (forall x, In x l2 -> ~ In x l1 -> g x = 0) ->
  sumatoria g l1 = sumatoria g l2.
Proof.
  intros N1 N2 Hin H0.
  assert (Hm : forall x, existsb (eqb x) l1 = true <-> In x l1).
  { intro x. rewrite existsb_exists. split.
    - intros (y & Hy & E). apply eqb_eq in E. subst y. exact Hy.
    - intro Hx. exists x. split; [exact Hx|apply eqb_eq; reflexivity]. }
  rewrite <- (sumatoria_filter g (fun x => existsb (eqb x) l1) l2).
  - apply sumatoria_perm, NoDup_Permutation;
      [exact N1|apply NoDup_filter; exact N2|].
    intro x. rewrite filter_In, Hm. split; [intro Hx; auto|tauto].
  - intros x Hx Hp. apply H0; [exact Hx|].
    intro Hx1. apply Hm in Hx1. congruence.
Qed.

Definition es_archivo (a : string) : Registro -> bool :=
  en_grupo String.eqb r_NombreArchivo a.

Definition es_fecha (f : fecha) : Registro -> bool :=
  en_grupo Z.eqb r_Fecha f.

Definition claves_archivo : list Registro -> list string :=
  claves String.leb String.eqb r_NombreArchivo.

Definition claves_fecha : list Registro -> list fecha :=
  claves Z.leb Z.eqb r_Fecha.

(** The span of the rows of one file on one date; zero when there is none. *)
Definition tramo_de (rs : list Registro) (a : string) (f : fecha) : timedelta :=
  tramo (dropna (map r_Hora (filter (es_fecha f) (filter (es_archivo a) rs)))).

Definition columnas_de_tiempo (cols : list string) : bool :=
  existsb (String.eqb "Nombre Archivo") cols
  && existsb (String.eqb "Fecha") cols && existsb (String.eqb "Hora") cols.

Lemma filter_vacio {X : Type} (p : X -> bool) (l : list X) :
  (forall x, In x l -> p x = false) -> filter p l = [].
Proof.
  induction l as [|x l IH]; intro H; [reflexivity|]. simpl.
  rewrite (H x (or_introl eq_refl)). apply IH.
  intros y Hy. apply H. right. exact Hy.
Qed.

Lemma es_archivo_clave a r : es_archivo a r = true <-> r_NombreArchivo r = Some a.
Proof. apply en_grupo_clave, String.eqb_eq. Qed.

Lemma es_fecha_clave f r : es_fecha f r = true <-> r_Fecha r = Some f.
Proof. apply en_grupo_clave, Z.eqb_eq. Qed.

Lemma claves_archivo_In rs a :
  In a (claves_archivo rs) <-> exists r, In r rs /\ r_NombreArchivo r = Some a.
Proof. apply claves_In, String.eqb_eq. Qed.

Lemma claves_fecha_In rs f :
  In f (claves_fecha rs) <-> exists r, In r rs /\ r_Fecha r = Some f.
Proof. apply claves_In, Z.eqb_eq. Qed.

Lemma claves_archivo_NoDup rs : NoDup (claves_archivo rs).
Proof. apply claves_NoDup, String.eqb_eq. Qed.

Lemma claves_fecha_NoDup rs : NoDup (claves_fecha rs).
Proof. apply claves_NoDup, Z.eqb_eq. Qed.

(** The dates of one file may be summed over the dates of the whole table. *)
Lemma tramos_sobre_todas_las_fechas (rs : list Registro) (a : string) :
  sumatoria (tramo_de rs a) (claves_fecha (filter (es_archivo a) rs))
  = sumatoria (tramo_de rs a) (claves_fecha rs).
Proof.
  apply (sumatoria_mas_claves Z.eqb Z.eqb_eq);
    [apply claves_fecha_NoDup|apply claves_fecha_NoDup| |].
  - intros f Hf. apply claves_fecha_In in Hf as (r & Hr & Hf).
    apply claves_fecha_In. exists r. apply filter_In in Hr as [Hr _]. auto.
  - intros f _ Hno. unfold tramo_de. rewrite filter_vacio; [reflexivity|].
    intros r Hr. destruct (es_fecha f r) eqn:E; [|reflexivity].
    exfalso. apply Hno, claves_fecha_In. exists r.
    split; [exact Hr|apply es_fecha_clave; exact E].
Qed.

(** The total, over every file and every date of the table. *)
Lemma calcular_tiempo_doble_suma (df : Tabla) :
  calcular_tiempo_total_por_archivo df
  = if columnas_de_tiempo (columnas df)
    then sumatoria (fun a => sumatoria (tramo_de (filas df) a)
                                       (claves_fecha (filas df)))
                   (claves_archivo (filas df))
    else 0.
Proof.
  rewrite calcular_tiempo_suma_de_tramos.
  unfold suma_de_tramos, grupos_archivo_fecha, columnas_de_tiempo, tiene_columna.
  destruct (existsb (String.eqb "Nombre Archivo") (columnas df)
            && existsb (String.eqb "Fecha") (columnas df)
            && existsb (String.eqb "Hora") (columnas df)); [|reflexivity].
  unfold groupby_archivo, groupby_fecha, groupby.
  set (rs := filas df).
  transitivity (sumatoria (fun a => sumatoria (tramo_de rs a)
                                      (claves_fecha (filter (es_archivo a) rs)))
                          (claves_archivo rs)).
  - unfold claves_archivo.
    induction (claves String.leb String.eqb r_NombreArchivo rs) as [|a l IH];
      [reflexivity|].
    cbn [map flat_map snd]. rewrite map_app, suma_Z_app, sumatoria_cons.
    unfold suma_Z in IH |- *. fold (suma_Z). rewrite IH. f_equal.
    rewrite !map_map. reflexivity.
  - apply sumatoria_ext. intros a _. apply tramos_sobre_todas_las_fechas.
Qed.

(* ----------------------------------------------------------------- *)
(** *** The daily breakdown *)

(** The time of [resumen_por_dia], for each group of
    [df_localidad.groupby("Fecha")]: the total of the rows of that day. *)
Definition tiempo_por_dia (df : Tabla) : list (fecha * timedelta) :=
  map (fun g => (fst g,
                 calcular_tiempo_total_por_archivo (mkTabla (columnas df) (snd g))))
      (groupby_fecha (filas df)).

Lemma filter_filter_filter {X : Type} (p q : X -> bool) (l : list X) :
  filter p (filter q (filter p l)) = filter p (filter q l).
Proof.
  induction l as [|x l IH]; [reflexivity|]. simpl.
  destruct (p x) eqn:Hp; simpl.
  - destruct (q x); simpl; rewrite ?Hp, IH; reflexivity.
  - destruct (q x); simpl; rewrite ?Hp; exact IH.
Qed.

Lemma NoDup_unico {X : Type} (l : list X) (x : X) :
  NoDup l -> (forall y, In y l <-> y = x) -> l = [x].
Proof.
  intros N H. destruct l as [|y l].
  - exfalso. apply (proj2 (H x) eq_refl).
  - assert (y = x) by (apply H; left; reflexivity). subst y.
    destruct l as [|z l]; [reflexivity|].
    assert (z = x) by (apply H; right; left; reflexivity). subst z.
    inversion N as [|? ? Hn _]. exfalso. apply Hn. left. reflexivity.
Qed.

(** The total of the rows of one day: the spans of that day, file by file. *)
Lemma calcular_tiempo_de_un_dia (cols : list string) (rs : list Registro) (f : fecha) :
  In f (claves_fecha rs) -> columnas_de_tiempo cols = true ->
  calcular_tiempo_total_por_archivo (mkTabla cols (filter (es_fecha f) rs))
  = sumatoria (fun a => tramo_de rs a f) (claves_archivo rs).
Proof.
  intros Hf Hc. rewrite calcular_tiempo_doble_suma. cbn [columnas filas].
  rewrite Hc. set (T := filter (es_fecha f) rs).
  assert (HF : claves_fecha T = [f]).
  { apply NoDup_unico; [apply claves_fecha_NoDup|].
    intro y. rewrite claves_fecha_In. split.
    - intros (r & Hr & Hy). apply filter_In in Hr as [_ Hr].
      apply es_fecha_clave in Hr. congruence.
    - intros ->. apply claves_fecha_In in Hf as (r & Hr & Hrf).
      exists r. split; [|exact Hrf]. apply filter_In.
      split; [exact Hr|apply es_fecha_clave; exact Hrf]. }
  rewrite HF.
  transitivity (sumatoria (fun a => tramo_de rs a f) (claves_archivo T)).
  - apply sumatoria_ext. intros a _.
    rewrite sumatoria_cons. change (sumatoria _ []) with 0.
    unfold tramo_de, T. rewrite filter_filter_filter. lia.
  - apply (sumatoria_mas_claves String.eqb String.eqb_eq);
      [apply claves_archivo_NoDup|apply claves_archivo_NoDup| |].
    + intros a Ha. apply claves_archivo_In in Ha as (r & Hr & Ha).
      apply claves_archivo_In. exists r. apply filter_In in Hr as [Hr _]. auto.
    + intros a _ Hno. unfold tramo_de. rewrite filter_vacio; [reflexivity|].
      intros r Hr. destruct (es_fecha f r) eqn:E; [|reflexivity].
      exfalso. apply Hno, claves_archivo_In. exists r.
      apply filter_In in Hr as [Hr Ha]. apply es_archivo_clave in Ha.
      split; [|exact Ha]. apply filter_In. auto.
Qed.

(** The times of the groups of a table by date add up to its total. *)
Lemma tiempo_por_dia_suma (df : Tabla) :
  suma_Z (map snd (tiempo_por_dia df)) = calcular_tiempo_total_por_archivo df.
Proof.
  unfold tiempo_por_dia, groupby_fecha, groupby.
  rewrite !map_map. cbn [fst snd].
  fold (claves_fecha (filas df)).
  change (suma_Z (map ?g ?l)) with (sumatoria g l).
  rewrite (calcular_tiempo_doble_suma df).
  destruct (columnas_de_tiempo (columnas df)) eqn:Hc.
  - rewrite sumatoria_intercambio.
    apply sumatoria_ext. intros f Hf.
    exact (calcular_tiempo_de_un_dia (columnas df) (filas df) f Hf Hc).
  - apply sumatoria_cero. intros f _.
    rewrite calcular_tiempo_doble_suma. cbn [columnas]. rewrite Hc. reflexivity.
Qed.

(** Before the daily breakdown the program derives [FechaHora] from [Fecha]
    and [Hora], a null when either is, and sets [Fecha] to its date: a row
    without time loses its date. *)
Definition derivar_fecha (r : Registro) : Registro :=
  match r_Fecha r, r_Hora r with
  | Some _, Some _ => r
  | _, _ =>
      mkRegistro (r_CCTE r) (r_Provincia r) (r_Localidad r) (r_Resultado r)
                 None (r_Hora r) (r_NombreArchivo r) (r_Expediente r)
                 (r_Sonda r) (r_Lat r) (r_Lon r) (r_FechaCarga r)
  end.

(** The times of the rows of the daily summary: [resumen_por_dia] on each
    group of [df_localidad.groupby("Fecha")], after the derivation. *)
Definition resumen_dias_tiempos (df : Tabla) : list (fecha * timedelta) :=
  tiempo_por_dia (mkTabla (columnas df) (map derivar_fecha (filas df))).

Lemma derivar_fecha_campos (r : Registro) :
  r_NombreArchivo (derivar_fecha r) = r_NombreArchivo r
  /\ r_Hora (derivar_fecha r) = r_Hora r
  /\ (r_Hora r <> None -> r_Fecha (derivar_fecha r) = r_Fecha r)
  /\ (r_Hora r = None -> r_Fecha (derivar_fecha r) = None).
Proof.
  unfold derivar_fecha.
  destruct (r_Fecha r) as [f|] eqn:Ef; destruct (r_Hora r) as [h|] eqn:Eh;
    cbn; rewrite ?Ef, ?Eh; repeat split; congruence.
Qed.

Lemma es_archivo_derivar (a : string) (r : Registro) :
  es_archivo a (derivar_fecha r) = es_archivo a r.
Proof.
  unfold es_archivo, en_grupo. rewrite (proj1 (derivar_fecha_campos r)). reflexivity.
Qed.

Lemma es_fecha_derivar (f : fecha) (r : Registro) :
  es_fecha f (derivar_fecha r)
  = match r_Hora r with Some _ => es_fecha f r | None => false end.
Proof.
  destruct (derivar_fecha_campos r) as (_ & _ & Hf1 & Hf0).
  unfold es_fecha, en_grupo. destruct (r_Hora r) as [h|].
  - rewrite (Hf1 ltac:(discriminate)). reflexivity.
  - rewrite (Hf0 eq_refl). reflexivity.
Qed.

(** The valid times of a file on a date are the same after the derivation. *)
Lemma tramo_de_derivar (rs : list Registro) (a : string) (f : fecha) :
  tramo_de (map derivar_fecha rs) a f = tramo_de rs a f.
Proof.
  unfold tramo_de. f_equal.
  induction rs as [|r rs IH]; [reflexivity|]. cbn [map filter].
  rewrite es_archivo_derivar.
  destruct (es_archivo a r); [|exact IH].
  cbn [filter]. rewrite es_fecha_derivar.
  destruct (r_Hora r) as [h|] eqn:Eh.
  - destruct (es_fecha f r); [|exact IH].
    cbn [map dropna].
    rewrite (proj1 (proj2 (derivar_fecha_campos r))), Eh, IH. reflexivity.
  - destruct (es_fecha f r); [|exact IH].
    cbn [map dropna]. rewrite Eh. exact IH.
Qed.

Lemma calcular_tiempo_derivar (cols : list string) (rs : list Registro) :
  calcular_tiempo_total_por_archivo (mkTabla cols (map derivar_fecha rs))
  = calcular_tiempo_total_por_archivo (mkTabla cols rs).
Proof.
  rewrite !calcular_tiempo_doble_suma. cbn [columnas filas].
  destruct (columnas_de_tiempo cols); [|reflexivity].
  assert (HA : Permutation (claves_archivo (map derivar_fecha rs)) (claves_archivo rs)).
  { apply NoDup_Permutation; try apply claves_archivo_NoDup.
    intro a. rewrite !claves_archivo_In. split.
    - intros (r & Hr & Ha). apply in_map_iff in Hr as (r0 & <- & Hr0).
      exists r0. split; [exact Hr0|].
      rewrite <- (proj1 (derivar_fecha_campos r0)). exact Ha.
    - intros (r & Hr & Ha). exists (derivar_fecha r).
      split; [apply in_map; exact Hr|].
      rewrite (proj1 (derivar_fecha_campos r)). exact Ha. }
  rewrite (sumatoria_perm _ _ _ HA).
  apply sumatoria_ext. intros a _.
  transitivity (sumatoria (tramo_de rs a) (claves_fecha (map derivar_fecha rs))).
  - apply sumatoria_ext. intros f _. apply tramo_de_derivar.
  - apply (sumatoria_mas_claves Z.eqb Z.eqb_eq); try apply claves_fecha_NoDup.
    + intros f Hf. apply claves_fecha_In in Hf as (r & Hr & Hf).
      apply in_map_iff in Hr as (r0 & <- & Hr0).
      apply claves_fecha_In. exists r0. split; [exact Hr0|].
      destruct (derivar_fecha_campos r0) as (_ & _ & Hf1 & Hf0).
      destruct (r_Hora r0) as [h|] eqn:Eh.
      * rewrite <- (Hf1 ltac:(discriminate)). exact Hf.
      * rewrite (Hf0 eq_refl) in Hf. discriminate Hf.
    + intros f _ Hno. rewrite <- tramo_de_derivar. unfold tramo_de.
      rewrite filter_vacio; [reflexivity|].
      intros r Hr. destruct (es_fecha f r) eqn:E; [|reflexivity].
      exfalso. apply Hno, claves_fecha_In. exists r.
      apply filter_In in Hr as [Hr _].
      split; [exact Hr|apply es_fecha_clave; exact E].
Qed.

(** X3.  The times of the daily summary add up to the total shown for the same
    table. *)
Theorem resumen_diario_suma_el_total (df : Tabla) :
  tiene_columna "Fecha" df = true -> tiene_columna "Hora" df = true ->
  suma_Z (map snd (resumen_dias_tiempos df))
  = calcular_tiempo_total_por_archivo df.
Proof.
  intros _ _. unfold resumen_dias_tiempos. rewrite tiempo_por_dia_suma.
  cbn [columnas filas]. rewrite calcular_tiempo_derivar.
  destruct df; reflexivity.
Qed.

Definition tabla_tres_dias : Tabla :=
  mkTabla columnas_maestra
    [ fila "a.xlsx" 739000 (Some (time_hms 9 0 0));
      fila "b.xlsx" 739001 (Some (time_hms 14 0 0));
      fila "a.xlsx" 739001 (Some (time_hms 10 0 0));
      fila "a.xlsx" 739000 (Some (time_hms 11 30 0));
      fila "b.xlsx" 739001 (Some (time_hms 15 0 0));
      fila "a.xlsx" 739001 None;
      fila "a.xlsx" 739002 (Some (time_hms 8 0 0)) ].

Lemma resumen_diario_suma_el_total_witness :
  suma_Z (map snd (resumen_dias_tiempos tabla_tres_dias))
  = calcular_tiempo_total_por_archivo tabla_tres_dias.
Proof. apply resumen_diario_suma_el_total; reflexivity. Defined.

(* ----------------------------------------------------------------- *)
(** *** Row order *)

Lemma serie_max_en (hs : list Z) (h : Z) : In (serie_max h hs) (h :: hs).
Proof.
  unfold serie_max. revert h. induction hs as [|x hs IH]; intro h; simpl;
    [left; reflexivity|].
  destruct (IH (Z.max h x)) as [H|H]; [|right; right; exact H].
  rewrite <- H. destruct (Z.max_spec h x) as [[_ ->]|[_ ->]]; auto.
Qed.

Lemma serie_min_en (hs : list Z) (h : Z) : In (serie_min h hs) (h :: hs).
Proof.
  unfold serie_min. revert h. induction hs as [|x hs IH]; intro h; simpl;
    [left; reflexivity|].
  destruct (IH (Z.min h x)) as [H|H]; [|right; right; exact H].
  rewrite <- H. destruct (Z.min_spec h x) as [[_ ->]|[_ ->]]; auto.
Qed.

Lemma serie_max_cota (hs : list Z) (h x : Z) :
  In x (h :: hs) -> x <= serie_max h hs.
Proof.
  unfold serie_max. revert h. induction hs as [|y hs IH]; intros h Hx; simpl.
  - destruct Hx as [->|[]]. lia.
  - pose proof (serie_max_ge_acc hs (Z.max h y)) as Hacc. unfold serie_max in Hacc.
    destruct Hx as [->|[->|Hx]]; [lia|lia|].
    apply IH. right. exact Hx.
Qed.

Lemma serie_min_cota (hs : list Z) (h x : Z) :
  In x (h :: hs) -> serie_min h hs <= x.
Proof.
  unfold serie_min. revert h. induction hs as [|y hs IH]; intros h Hx; simpl.
  - destruct Hx as [->|[]]. lia.
  - pose proof (serie_min_le_acc hs (Z.min h y)) as Hacc. unfold serie_min in Hacc.
    destruct Hx as [->|[->|Hx]]; [lia|lia|].
    apply IH. right. exact Hx.
Qed.

(** The span of a series depends on its values only, not on their order. *)
Lemma tramo_mismos_valores (l1 l2 : list hora) :
  (forall x, In x l1 <-> In x l2) -> tramo l1 = tramo l2.
Proof.
  intro H. destruct l1 as [|h1 t1]; destruct l2 as [|h2 t2]; [reflexivity| | |].
  - exfalso. apply (proj2 (H h2)). left. reflexivity.
  - exfalso. apply (proj1 (H h1)). left. reflexivity.
  - simpl.
    pose proof (serie_max_cota t2 h2 _ (proj1 (H _) (serie_max_en t1 h1))).
    pose proof (serie_max_cota t1 h1 _ (proj2 (H _) (serie_max_en t2 h2))).
    pose proof (serie_min_cota t2 h2 _ (proj1 (H _) (serie_min_en t1 h1))).
    pose proof (serie_min_cota t1 h1 _ (proj2 (H _) (serie_min_en t2 h2))).
    lia.
Qed.

Lemma tramo_de_mismas_filas (rs rs' : list Registro) (a : string) (f : fecha) :
  (forall r, In r rs <-> In r rs') -> tramo_de rs a f = tramo_de rs' a f.
Proof.
  intro H. unfold tramo_de. apply tramo_mismos_valores. intro x.
  rewrite !dropna_In, !in_map_iff.
  split; intros (r & Hx & Hr); exists r; (split; [exact Hx|]);
    rewrite !filter_In in *; destruct Hr as [[Hr Ha] Hf];
    (split; [split|]; try assumption); apply H; exact Hr.
Qed.

(** X5.  The total depends on which rows the table holds, not on their order nor on
    how many times a row is repeated. *)
Theorem tiempo_total_mismas_filas (cols : list string) (rs rs' : list Registro) :
  (forall r, In r rs <-> In r rs') ->
  calcular_tiempo_total_por_archivo (mkTabla cols rs)
  = calcular_tiempo_total_por_archivo (mkTabla cols rs').
Proof.
  intro H. rewrite !calcular_tiempo_doble_suma. cbn [columnas filas].
  destruct (columnas_de_tiempo cols); [|reflexivity].
  assert (HA : Permutation (claves_archivo rs) (claves_archivo rs')).
  { apply NoDup_Permutation; try apply claves_archivo_NoDup.
    intro a. rewrite !claves_archivo_In.
    split; intros (r & Hr & Ha); exists r; (split; [apply H; exact Hr|exact Ha]). }
  assert (HF : Permutation (claves_fecha rs) (claves_fecha rs')).
  { apply NoDup_Permutation; try apply claves_fecha_NoDup.
    intro f. rewrite !claves_fecha_In.
    split; intros (r & Hr & Hf); exists r; (split; [apply H; exact Hr|exact Hf]). }
  rewrite (sumatoria_perm _ _ _ HA).
  apply sumatoria_ext. intros a _.
  rewrite (sumatoria_perm _ _ _ HF).
  apply sumatoria_ext. intros f _. apply tramo_de_mismas_filas. exact H.
Qed.

Lemma tiempo_total_mismas_filas_witness :
  calcular_tiempo_total_por_archivo
    (mkTabla columnas_maestra (rev (filas tabla_tres_dias)))
  = calcular_tiempo_total_por_archivo tabla_tres_dias.
Proof.
  apply (tiempo_total_mismas_filas columnas_maestra).
  intro r. symmetry. apply in_rev.
Defined.

(* ----------------------------------------------------------------- *)
(** *** A bound *)

(** Times of day. *)
Definition horas_del_dia (rs : list Registro) : Prop :=
  forall r h, In r rs -> r_Hora r = Some h -> 0 <= h < us_por_dia.

(** X6.  With times of day in the table, a (file, date) group spans less than a
    day, and the total less than one day for each such group. *)
Theorem tiempo_total_menos_de_un_dia_por_grupo (df : Tabla) :
  horas_del_dia (filas df) ->
  calcular_tiempo_total_por_archivo df
  <= (us_por_dia - 1) * Z.of_nat (List.length (grupos_archivo_fecha df)).
Proof.
  intro Hh. rewrite calcular_tiempo_suma_de_tramos.
  unfold suma_de_tramos.
  assert (Hg : forall g, In g (grupos_archivo_fecha df) ->
                 forall r, In r g -> In r (filas df)).
  { unfold grupos_archivo_fecha. intros g Hg r Hr.
    destruct (_ && _); [|contradiction].
    apply in_flat_map in Hg as ([a ra] & Ha & Hg). cbn [snd] in Hg.
    apply in_map_iff in Hg as ([f rf] & <- & Hf). cbn [snd] in Hr.
    unfold groupby_fecha, groupby in Hf. apply in_map_iff in Hf as (f' & E & _).
    injection E as _ <-. apply filter_In in Hr as [Hr _].
    unfold groupby_archivo, groupby in Ha. apply in_map_iff in Ha as (a' & E & _).
    injection E as _ <-. apply filter_In in Hr as [Hr _]. exact Hr. }
  induction (grupos_archivo_fecha df) as [|g gs IH]; [simpl; lia|].
  cbn [map suma_Z fold_right List.length].
  assert (IH' : suma_Z (map (fun g => tramo (dropna (map r_Hora g))) gs)
                <= (us_por_dia - 1) * Z.of_nat (List.length gs)).
  { apply IH. intros g' Hg' r Hr. apply (Hg g'); [right; exact Hg'|exact Hr]. }
  assert (Ht : tramo (dropna (map r_Hora g)) <= us_por_dia - 1).
  { assert (Hb : forall x, In x (dropna (map r_Hora g)) -> 0 <= x < us_por_dia).
    { intros x Hx. apply dropna_In, in_map_iff in Hx as (r & Hx & Hr).
      apply (Hh r x); [apply (Hg g); [left; reflexivity|exact Hr]|exact Hx]. }
    destruct (dropna (map r_Hora g)) as [|h hs]; cbn [tramo];
      [vm_compute; discriminate|].
    pose proof (Hb _ (serie_max_en hs h)). pose proof (Hb _ (serie_min_en hs h)). lia. }
  unfold suma_Z in IH'. lia.
Qed.

Lemma tiempo_total_menos_de_un_dia_por_grupo_witness :
  calcular_tiempo_total_por_archivo tabla_medianoche
  <= (us_por_dia - 1) * Z.of_nat (List.length (grupos_archivo_fecha tabla_medianoche)).
Proof.
  apply tiempo_total_menos_de_un_dia_por_grupo.
  intros r h Hr Hh. cbn in Hr.
  repeat (destruct Hr as [<-|Hr]; [injection Hh as <-; vm_compute; split; congruence|]).
  contradiction.
Defined.

(* ----------------------------------------------------------------- *)
(** *** The monthly breakdown *)

Section Mensual.
(** [Timestamp.to_period("M")], as a number: any function of the date. *)
Variable mes_de : fecha -> Z.

(** [df["Mes"] = df["FechaHora"].dt.to_period("M")]: a null without date or
    without time. *)
Definition r_Mes (r : Registro) : option Z :=
  match r_Fecha r, r_Hora r with
  | Some f, Some _ => Some (mes_de f)
  | _, _ => None
  end.

Definition es_mes (m : Z) : Registro -> bool := en_grupo Z.eqb r_Mes m.

Definition claves_mes : list Registro -> list Z := claves Z.leb Z.eqb r_Mes.

(** The hours worked of each month: [calcular_tiempo_mes] on each group of
    [df_localidad.groupby("Mes")], the dates derived as for the days. *)
Definition tiempo_por_mes (df : Tabla) : list (Z * timedelta) :=
  map (fun g => (fst g,
                 calcular_tiempo_total_por_archivo (mkTabla (columnas df) (snd g))))
      (groupby Z.leb Z.eqb r_Mes (map derivar_fecha (filas df))).

Lemma es_mes_clave m r : es_mes m r = true <-> r_Mes r = Some m.
Proof. apply en_grupo_clave, Z.eqb_eq. Qed.

Lemma claves_mes_In rs m :
  In m (claves_mes rs) <-> exists r, In r rs /\ r_Mes r = Some m.
Proof. apply claves_In, Z.eqb_eq. Qed.

(** After the derivation a row with a date has a time, and so a month. *)
Lemma mes_de_fila_derivada (r : Registro) (f : fecha) :
  r_Fecha (derivar_fecha r) = Some f ->
  r_Mes (derivar_fecha r) = Some (mes_de f).
Proof.
  unfold r_Mes, derivar_fecha.
  destruct (r_Fecha r) as [f0|] eqn:Ef; destruct (r_Hora r) as [h|] eqn:Eh;
    cbn; rewrite ?Ef, ?Eh; intro H; congruence.
Qed.

Lemma filtro_mes_fecha (rs : list Registro) (a : string) (f : fecha) (m : Z) :
  filter (es_fecha f)
    (filter (es_archivo a) (filter (es_mes m) (map derivar_fecha rs)))
  = if Z.eqb m (mes_de f)
    then filter (es_fecha f) (filter (es_archivo a) (map derivar_fecha rs))
    else [].
Proof.
  induction rs as [|r rs IH]; [destruct (Z.eqb m (mes_de f)); reflexivity|].
  cbn [map filter].
  destruct (es_fecha f (derivar_fecha r)) eqn:Ef.
  - pose proof (mes_de_fila_derivada r f (proj1 (es_fecha_clave _ _) Ef)) as Hm.
    assert (Em : es_mes m (derivar_fecha r) = Z.eqb m (mes_de f)).
    { unfold es_mes, en_grupo. rewrite Hm. reflexivity. }
    rewrite Em. destruct (Z.eqb m (mes_de f)) eqn:E.
    + cbn [filter]. destruct (es_archivo a (derivar_fecha r)); cbn [filter];
        rewrite ?Ef, IH; reflexivity.
    + rewrite IH. reflexivity.
  - destruct (es_mes m (derivar_fecha r)); cbn [filter];
      destruct (es_archivo a (derivar_fecha r)); cbn [filter];
      rewrite ?Ef, IH; destruct (Z.eqb m (mes_de f)); reflexivity.
Qed.

Lemma sumatoria_indicador (l : list Z) (k x : Z) :
  NoDup l -> In k l ->
  sumatoria (fun m => if Z.eqb m k then x else 0) l = x.
Proof.
  induction l as [|y l IH]; intros N Hk; [contradiction|].
  inversion N as [|? ? Hy N']; subst. rewrite sumatoria_cons.
  destruct Hk as [->|Hk].
  - rewrite Z.eqb_refl, sumatoria_cero; [lia|].
    intros z Hz. destruct (Z.eqb_spec z k) as [->|_]; [contradiction|reflexivity].
  - rewrite (IH N' Hk). destruct (Z.eqb_spec y k) as [->|_]; [contradiction|lia].
Qed.

(** The total of the rows of one month. *)
Lemma calcular_tiempo_de_un_mes (cols : list string) (rs : list Registro) (m : Z) :
  columnas_de_tiempo cols = true ->
  let rs' := map derivar_fecha rs in
  calcular_tiempo_total_por_archivo (mkTabla cols (filter (es_mes m) rs'))
  = sumatoria (fun a => sumatoria (fun f => if Z.eqb m (mes_de f)
                                            then tramo_de rs' a f else 0)
                                  (claves_fecha rs'))
              (claves_archivo rs').
Proof.
  intros Hc rs'. rewrite calcular_tiempo_doble_suma. cbn [columnas filas].
  rewrite Hc. set (T := filter (es_mes m) rs').
  assert (Ht : forall a f, tramo_de T a f
                           = if Z.eqb m (mes_de f) then tramo_de rs' a f else 0).
  { intros a f. unfold tramo_de, T, rs'. rewrite filtro_mes_fecha.
    destruct (Z.eqb m (mes_de f)); reflexivity. }
  transitivity (sumatoria (fun a => sumatoria (tramo_de T a) (claves_fecha rs'))
                          (claves_archivo T)).
  - apply sumatoria_ext. intros a _.
    apply (sumatoria_mas_claves Z.eqb Z.eqb_eq); try apply claves_fecha_NoDup.
    + intros f Hf. apply claves_fecha_In in Hf as (r & Hr & Hf).
      apply claves_fecha_In. exists r. apply filter_In in Hr as [Hr _]. auto.
    + intros f _ Hno. unfold tramo_de. rewrite filter_vacio; [reflexivity|].
      intros r Hr. destruct (es_fecha f r) eqn:E; [|reflexivity].
      exfalso. apply Hno, claves_fecha_In. exists r.
      apply filter_In in Hr as [Hr _].
      split; [exact Hr|apply es_fecha_clave; exact E].
  - transitivity (sumatoria (fun a => sumatoria (tramo_de T a) (claves_fecha rs'))
                            (claves_archivo rs')).
    + apply (sumatoria_mas_claves String.eqb String.eqb_eq);
        try apply claves_archivo_NoDup.
      * intros a Ha. apply claves_archivo_In in Ha as (r & Hr & Ha).
        apply claves_archivo_In. exists r. apply filter_In in Hr as [Hr _]. auto.
      * intros a _ Hno. apply sumatoria_cero. intros f _.
        unfold tramo_de. rewrite (filter_vacio (es_archivo a) T); [reflexivity|].
        intros r Hr. destruct (es_archivo a r) eqn:E; [|reflexivity].
        exfalso. apply Hno, claves_archivo_In. exists r.
        split; [exact Hr|apply es_archivo_clave; exact E].
    + apply sumatoria_ext. intros a _. apply sumatoria_ext. intros f _. apply Ht.
Qed.

(** X4.  The hours worked of the months add up to the total shown for the same
    table. *)
Theorem tiempo_por_mes_suma_el_total (df : Tabla) :
  tiene_columna "Fecha" df = true -> tiene_columna "Hora" df = true ->
  suma_Z (map snd (tiempo_por_mes df)) = calcular_tiempo_total_por_archivo df.
Proof.
  intros _ _. unfold tiempo_por_mes, groupby.
  rewrite !map_map. cbn [fst snd].
  set (rs' := map derivar_fecha (filas df)).
  fold (claves_mes rs'). change (suma_Z (map ?g ?l)) with (sumatoria g l).
  replace (calcular_tiempo_total_por_archivo df)
    with (calcular_tiempo_total_por_archivo (mkTabla (columnas df) rs'))
    by (unfold rs'; rewrite calcular_tiempo_derivar; destruct df; reflexivity).
  destruct (columnas_de_tiempo (columnas df)) eqn:Hc.
  - transitivity
      (sumatoria (fun m =>
         sumatoria (fun a => sumatoria (fun f => if Z.eqb m (mes_de f)
                                                 then tramo_de rs' a f else 0)
                                       (claves_fecha rs'))
                   (claves_archivo rs')) (claves_mes rs')).
    { apply sumatoria_ext. intros m _.
      exact (calcular_tiempo_de_un_mes (columnas df) (filas df) m Hc). }
    rewrite sumatoria_intercambio, calcular_tiempo_doble_suma.
    cbn [columnas filas]. rewrite Hc.
    apply sumatoria_ext. intros a _.
    rewrite sumatoria_intercambio.
    apply sumatoria_ext. intros f Hf.
    apply sumatoria_indicador; [apply claves_NoDup, Z.eqb_eq|].
    apply claves_fecha_In in Hf as (r & Hr & Hf).
    apply claves_mes_In. exists r. split; [exact Hr|].
    unfold rs' in Hr. apply in_map_iff in Hr as (r0 & <- & _).
    apply mes_de_fila_derivada. exact Hf.
  - rewrite calcular_tiempo_doble_suma. cbn [columnas]. rewrite Hc.
    apply sumatoria_cero. intros m _.
    rewrite calcular_tiempo_doble_suma. cbn [columnas]. rewrite Hc. reflexivity.
Qed.

End Mensual.

Lemma tiempo_por_mes_suma_el_total_witness :
  suma_Z (map snd (tiempo_por_mes (fun f => f / 31) tabla_tres_dias))
  = calcular_tiempo_total_por_archivo tabla_tres_dias.
Proof. apply tiempo_por_mes_suma_el_total; reflexivity. Defined.

(* ================================================================= *)
(** ** More on the coercions *)

Lemma digito_coincide (a : ascii) : es_digito a = true -> Coincide NUMERO_EXP [a].
Proof.
  intro H. unfold NUMERO_EXP, NUMERO_CON_SIGNO, NUMERO_SIMPLE.
  change [a] with ((([] : texto) ++ ([a] ++ [])) ++ []).
  apply C_seq; [|apply C_opt_no].
  apply C_seq; [apply C_opt_no|].
  apply C_seq; [|apply C_opt_no].
  apply C_plus; [exact H|reflexivity].
Qed.

(** A text with a digit holds a number. *)
Lemma con_digito_hay_numero (s : texto) :
  existsb es_digito s = true -> exists m, re_search PATRON_NUMERO s = Some m.
Proof.
  intro H. destruct (re_search PATRON_NUMERO s) as [m|] eqn:Hs; [exists m; reflexivity|].
  exfalso. apply existsb_exists in H as (a & Hin & Ha).
  apply in_split in Hin as (pre & post & ->).
  exact (numero_sin_busqueda _ Hs pre [a] post eq_refl (digito_coincide a Ha)).
Qed.

(** [float()] of a text of the number pattern is a finite number. *)
Lemma py_float_numero_exp (u : texto) :
  Coincide NUMERO_EXP u -> exists q, py_float u = valor (Some q).
Proof.
  intro H.
  destruct (numero_exp_forma u H)
    as (sg & ent & frac & ex & e & -> & Hsg & Hne & He & Hf & Hex).
  unfold py_float.
  rewrite (literal_con_signo true sg ent frac ex e Hsg Hne He Hf Hex).
  eexists. reflexivity.
Qed.

Lemma existsb_rev {X : Type} (p : X -> bool) (l : list X) :
  existsb p (rev l) = existsb p l.
Proof.
  induction l as [|x l IH]; [reflexivity|].
  cbn [rev existsb]. rewrite existsb_app, IH. cbn [existsb].
  rewrite orb_false_r. apply orb_comm.
Qed.

Lemma digito_lstrip (s : texto) :
  existsb es_digito (lstrip s) = existsb es_digito s.
Proof.
  induction s as [|a s IH]; [reflexivity|]. cbn [lstrip].
  destruct (es_espacio a) eqn:E; [|reflexivity].
  rewrite IH. cbn [existsb].
  destruct (es_digito a) eqn:D; [|reflexivity].
  rewrite (digito_no_espacio a D) in E. discriminate E.
Qed.

Lemma digito_strip (s : texto) : existsb es_digito (strip s) = existsb es_digito s.
Proof.
  unfold strip. rewrite existsb_rev, digito_lstrip, existsb_rev. apply digito_lstrip.
Qed.

Lemma digito_replace_coma (s : texto) :
  existsb es_digito (replace_coma s) = existsb es_digito s.
Proof.
  unfold replace_coma. induction s as [|a s IH]; [reflexivity|].
  cbn [map existsb]. rewrite IH. f_equal.
  destruct (Ascii.eqb_spec a ",") as [->|_]; reflexivity.
Qed.

Lemma digito_minuscula (a : ascii) : es_digito (minuscula a) = es_digito a.
Proof. destruct a as [[] [] [] [] [] [] [] []]; reflexivity. Qed.

Lemma texto_eqb_eq (x y : texto) : texto_eqb x y = true -> x = y.
Proof.
  unfold texto_eqb. intro H. apply String.eqb_eq in H.
  rewrite <- (list_ascii_of_string_of_list_ascii x),
          <- (list_ascii_of_string_of_list_ascii y), H.
  reflexivity.
Qed.

(** The spellings of infinity and of NaN hold no digit. *)
Lemma inf_o_nan_sin_digito (s : texto) :
  es_inf_o_nan s = true -> existsb es_digito s = false.
Proof.
  unfold es_inf_o_nan. intro H.
  assert (Hm : existsb es_digito (map minuscula s) = false).
  { apply orb_true_iff in H as [H|H]; [apply orb_true_iff in H as [H|H]|];
      apply texto_eqb_eq in H; rewrite H; reflexivity. }
  rewrite <- Hm. clear. induction s as [|a s IH]; [reflexivity|].
  cbn [map existsb]. rewrite IH, digito_minuscula. reflexivity.
Qed.

Lemma digito_leer_signo (s : texto) :
  existsb es_digito (snd (leer_signo s)) = existsb es_digito s.
Proof.
  destruct s as [|a s]; [reflexivity|]. unfold leer_signo.
  destruct (Ascii.eqb_spec a "-") as [->|_]; [reflexivity|].
  destruct (Ascii.eqb_spec a "+") as [->|_]; reflexivity.
Qed.

(** [float()] gives a NaN (or an infinity) only on a text without a digit. *)
Lemma py_float_nulo_sin_digito (s : texto) :
  py_float s = valor None -> existsb es_digito s = false.
Proof.
  unfold py_float, literal. intro H.
  rewrite <- digito_strip, <- digito_leer_signo.
  destruct (leer_signo (strip s)) as [neg s1]. cbn [snd].
  unfold literal_sin_signo in H.
  destruct (es_inf_o_nan s1) eqn:E; [exact (inf_o_nan_sin_digito s1 E)|].
  destruct (leer_numero true s1) as [[[m nf] r]|]; [|discriminate H].
  destruct (leer_exponente true r) as [[e [|? ?]]|]; discriminate H.
Qed.

(** The text branch never raises: the groups of either pattern are always
    float literals. *)
Lemma parse_dms_texto_no_lanza (s : texto) :
  exists v, parse_dms_texto s = Ok v.
Proof.
  destruct (re_search PATRON_DMS (replace_coma (strip s))) as [m|] eqn:Hd.
  - destruct (dms_grupo_4_nunca _ m Hd) as [Hg4 _].
    destruct (parse_dms_texto_magnitud s m Hd Hg4) as (d & mnt & sec & _ & _ & _ & H & _).
    eexists. exact H.
  - unfold parse_dms_texto. rewrite Hd.
    destruct (re_search PATRON_NUMERO (replace_coma (strip s))) as [m2|];
      [|eexists; reflexivity].
    destruct (float_de_grupo m2 1); eexists; reflexivity.
Qed.

Lemma parse_dms_texto_con_digito (s : texto) :
  existsb es_digito s = true -> exists q, parse_dms_texto s = Ok (Some q).
Proof.
  intro H.
  destruct (re_search PATRON_DMS (replace_coma (strip s))) as [m|] eqn:Hd.
  - destruct (dms_grupo_4_nunca _ m Hd) as [Hg4 _].
    destruct (parse_dms_texto_magnitud s m Hd Hg4) as (d & mnt & sec & _ & _ & _ & Hp & _).
    eexists. exact Hp.
  - unfold parse_dms_texto. rewrite Hd.
    rewrite <- digito_strip, <- digito_replace_coma in H.
    destruct (con_digito_hay_numero _ H) as (m2 & Hm2). rewrite Hm2.
    destruct (numero_busqueda _ m2 Hm2) as (pre & u & post & _ & Hc & Hg & _).
    destruct (py_float_numero_exp u Hc) as (q & Hq).
    exists q. unfold float_de_grupo. rewrite Hg. cbn [grupo Nat.eqb].
    rewrite Hq. reflexivity.
Qed.

(** X7.  [parse_dms_to_decimal] never raises, whatever the cell; and a text cell
    that holds a digit is always read as a number, never as a null. *)
Theorem parse_dms_to_decimal_no_lanza :
  (forall val : celda, exists v, parse_dms_to_decimal val = Ok v)
  /\ (forall s : string,
        existsb es_digito (t s) = true ->
        exists q, parse_dms_to_decimal (Txt s) = Ok (Some q)).
Proof.
  split.
  - intros [|x|s|repr]; cbn [parse_dms_to_decimal];
      try (eexists; reflexivity); [|apply parse_dms_texto_no_lanza].
    destruct (py_float (t s)); [apply parse_dms_texto_no_lanza|eexists; reflexivity].
  - intros s H. cbn [parse_dms_to_decimal].
    destruct (py_float (t s)) as [|[q|]] eqn:E.
    + apply parse_dms_texto_con_digito. exact H.
    + exists q. reflexivity.
    + rewrite (py_float_nulo_sin_digito _ E) in H. discriminate H.
Qed.

Lemma parse_dms_to_decimal_no_lanza_witness :
  exists q, parse_dms_to_decimal (Txt "Lat: 34 grados") = Ok (Some q).
Proof.
  destruct parse_dms_to_decimal_no_lanza as [_ H].
  apply H. reflexivity.
Defined.

(* ================================================================= *)
(** ** More on [procesar_archivos] *)

(** The file a warning is about. *)
Definition aviso_archivo (w : Aviso) : string :=
  match w with
  | no_se_pudo_leer archivo => archivo
  | no_se_encontro_columna archivo _ => archivo
  end.

Lemma limpiar_resumen file_name ccte provincia localidad expediente m n df df' r :
  limpiar file_name ccte provincia localidad expediente m n df = Ok (df', r) ->
  res_archivo r = file_name /\ res_total_mediciones r = n.
Proof.
  unfold limpiar.
  match goal with
  | |- bind ?x _ = _ -> _ => destruct x as [d1|]; [|discriminate]
  end. cbn [bind].
  destruct (aplicar_dms "Lat" d1) as [d2|]; [|discriminate]. cbn [bind].
  destruct (aplicar_dms "Lon" d2) as [d3|]; [|discriminate]. cbn [bind].
  destruct (columna "Expediente" (drop_columna "_idx_num" d3)); [discriminate|].
  intro H. injection H as _ <-. split; reflexivity.
Qed.

Lemma procesar_uno_archivo ccte provincia localidad expediente (file : Archivo) :
  match procesar_uno ccte provincia localidad expediente file with
  | Saltado w => aviso_archivo w = name file
  | Procesado _ r => res_archivo r = name file
  | Falla _ => True
  end.
Proof.
  unfold procesar_uno. destruct (read_excel file) as [sh|]; [|reflexivity].
  destruct (contar_mediciones (dropna_columnas sh)) as [[df n]|e0]; [|exact I].
  destruct (mapear mapping_candidates (df_columns df) []) as [key|m]; [reflexivity|].
  destruct (limpiar (name file) ccte provincia localidad expediente m n df)
    as [[df' r]|e] eqn:E; [|exact I].
  exact (proj1 (limpiar_resumen _ _ _ _ _ _ _ _ _ _ E)).
Qed.

Section Cuenta.
Variables ccte provincia localidad expediente : string.

(** What the loop has gathered when it ends without an exception. *)
Lemma bucle_cuenta (files : list Archivo) l r a a' l' r' :
  bucle ccte provincia localidad expediente files l r a = (a', Ok (l', r')) ->
  (List.length a' + List.length r' = List.length a + List.length r + List.length files)%nat
  /\ (List.length l' + List.length r = List.length l + List.length r')%nat
  /\ (forall x, In x r' -> In x r \/ exists f, In f files /\ res_archivo x = name f)
  /\ (forall w, In w a' -> In w a \/ exists f, In f files /\ aviso_archivo w = name f).
Proof.
  revert l r a. induction files as [|f files IH]; intros l r a; cbn [bucle].
  - intro H. injection H as <- <- <-. cbn [List.length].
    repeat split; try lia; auto.
  - pose proof (procesar_uno_archivo ccte provincia localidad expediente f) as Hf.
    destruct (procesar_uno ccte provincia localidad expediente f) as [w|df x|e];
      [| |discriminate]; intro H; apply IH in H as (H1 & H2 & H3 & H4);
      rewrite ?length_app in *; cbn [List.length] in *.
    + split; [lia|]. split; [lia|]. split.
      * intros y Hy. destruct (H3 y Hy) as [Hr|(g & Hg & Hn)]; [auto|].
        right. exists g. split; [right; exact Hg|exact Hn].
      * intros y Hy. destruct (H4 y Hy) as [Ha|(g & Hg & Hn)].
        -- apply in_app_iff in Ha as [Ha|[<-|[]]]; [auto|].
           right. exists f. split; [left; reflexivity|exact Hf].
        -- right. exists g. split; [right; exact Hg|exact Hn].
    + split; [lia|]. split; [lia|]. split.
      * intros y Hy. destruct (H3 y Hy) as [Hr|(g & Hg & Hn)].
        -- apply in_app_iff in Hr as [Hr|[<-|[]]]; [auto|].
           right. exists f. split; [left; reflexivity|exact Hf].
        -- right. exists g. split; [right; exact Hg|exact Hn].
      * intros y Hy. destruct (H4 y Hy) as [Ha|(g & Hg & Hn)]; [auto|].
        right. exists g. split; [right; exact Hg|exact Hn].
Qed.

(** X8.  When [procesar_archivos] returns, every uploaded file has been answered
    once: with a warning, or with a row of the summary.  Each warning and each
    summary row names a file of the list. *)
Theorem procesar_archivos_cuenta (files : list Archivo)
    (avisos : list Aviso) (df : DataFrame) (resumen : list Resumen) :
  procesar_archivos files ccte provincia localidad expediente
  = (avisos, Ok (df, resumen)) ->
  (List.length avisos + List.length resumen = List.length files)%nat
  /\ (forall r, In r resumen -> exists f, In f files /\ res_archivo r = name f)
  /\ (forall w, In w avisos -> exists f, In f files /\ aviso_archivo w = name f).
Proof.
  unfold procesar_archivos.
  destruct (bucle ccte provincia localidad expediente files [] [] [])
    as [a [[l r]|e]] eqn:Hb; [|discriminate].
  apply bucle_cuenta in Hb as (H1 & H2 & H3 & H4). cbn [List.length] in *.
  assert (Hw : forall w, In w a -> exists f, In f files /\ aviso_archivo w = name f).
  { intros w Hw. destruct (H4 w Hw) as [[]|H]. exact H. }
  destruct l as [|d l].
  - intro H. injection H as <- _ <-. cbn [List.length] in *.
    destruct r; cbn [List.length] in *; [|lia].
    split; [lia|]. split; [intros ? []|exact Hw].
  - intro H. injection H as <- _ <-.
    split; [lia|]. split; [|exact Hw].
    intros x Hx. destruct (H3 x Hx) as [[]|H]. exact H.
Qed.

(** X9.  A file that cannot be read is skipped with its warning, and the batches
    are those of the list without it. *)
Theorem archivo_ilegible_saltado (file : Archivo) :
  read_excel file = None ->
  procesar_uno ccte provincia localidad expediente file
  = Saltado (no_se_pudo_leer (name file))
  /\ forall pre post,
       snd (procesar_archivos (pre ++ file :: post)
                              ccte provincia localidad expediente)
       = snd (procesar_archivos (pre ++ post) ccte provincia localidad expediente).
Proof.
  intro Hr.
  assert (Hs : procesar_uno ccte provincia localidad expediente file
               = Saltado (no_se_pudo_leer (name file)))
    by (unfold procesar_uno; rewrite Hr; reflexivity).
  split; [exact Hs|]. intros pre post.
  exact (procesar_archivos_saltado _ _ _ _ pre post file _ Hs).
Qed.

End Cuenta.

Lemma procesar_archivos_cuenta_witness :
  exists avisos df resumen,
    procesar_archivos [archivo_ilegible; archivo_completo; archivo_sin_fecha]
                      "CABA" "CABA" "Salta" ""
    = (avisos, Ok (df, resumen))
    /\ (List.length avisos + List.length resumen = 3)%nat.
Proof.
  eexists _, _, _. split; [vm_compute; reflexivity|].
  refine (proj1 (procesar_archivos_cuenta "CABA" "CABA" "Salta" ""
                   [archivo_ilegible; archivo_completo; archivo_sin_fecha] _ _ _ _)).
  vm_compute. reflexivity.
Defined.

Lemma archivo_ilegible_saltado_witness :
  snd (procesar_archivos [archivo_completo; archivo_ilegible; archivo_completo]
                         "CABA" "CABA" "Salta" "")
  = snd (procesar_archivos [archivo_completo; archivo_completo]
                           "CABA" "CABA" "Salta" "").
Proof.
  exact (proj2 (archivo_ilegible_saltado "CABA" "CABA" "Salta" "" archivo_ilegible
                  eq_refl) [archivo_completo] [archivo_completo]).
Defined.

(* ----------------------------------------------------------------- *)
(** *** The column mapping *)

Lemma mapear_correcto_gen (cands : list (string * list string)) (cols : list string)
    (acc m : list (string * string)) :
  mapear cands cols acc = inr m ->
  (forall kc, In kc acc -> In kc m)
  /\ (forall key c, In (key, c) m ->
        In (key, c) acc
        \/ exists cs, In (key, cs) cands
                      /\ find (coincide_candidatos cs) cols = Some c /\ c <> "")
  /\ (forall key cs, In (key, cs) cands -> opcional key = false ->
        exists c, In (key, c) m /\ find (coincide_candidatos cs) cols = Some c).
Proof.
  revert acc. induction cands as [|[key cs] cands IH]; intros acc; cbn [mapear].
  - intro H. injection H as <-. split; [auto|]. split; [auto|]. intros ? ? [].
  - destruct (find (coincide_candidatos cs) cols) as [c|] eqn:Hf.
    + destruct (verdadero (Some c)) eqn:Hv; cbn [negb andb].
      * intro H. apply IH in H as (H1 & H2 & H3).
        assert (Hc : c <> "").
        { intros ->. discriminate Hv. }
        split; [intros kc Hkc; apply H1, in_app_iff; auto|]. split.
        -- intros k x Hx. destruct (H2 k x Hx) as [Ha|(cs' & Hin & Hfe)].
           ++ apply in_app_iff in Ha as [Ha|[Ha|[]]]; [auto|].
              injection Ha as <- <-. right. exists cs. cbn [In]. auto.
           ++ right. exists cs'. cbn [In]. auto.
        -- intros k cs' [Hin|Hin] Ho.
           ++ injection Hin as <- <-. exists c. split; [|exact Hf].
              apply H1, in_app_iff. right. left. reflexivity.
           ++ exact (H3 k cs' Hin Ho).
      * destruct (opcional key) eqn:Ho; cbn [negb]; [|discriminate].
        intro H. apply IH in H as (H1 & H2 & H3).
        split; [exact H1|]. split.
        -- intros k x Hx. destruct (H2 k x Hx) as [Ha|(cs' & Hin & Hfe)]; [auto|].
           right. exists cs'. cbn [In]. auto.
        -- intros k cs' [Hin|Hin] Ho'; [|exact (H3 k cs' Hin Ho')].
           injection Hin as <- <-. congruence.
    + cbn [verdadero negb andb].
      destruct (opcional key) eqn:Ho; cbn [negb]; [|discriminate].
      intro H. apply IH in H as (H1 & H2 & H3).
      split; [exact H1|]. split.
      * intros k x Hx. destruct (H2 k x Hx) as [Ha|(cs' & Hin & Hfe)]; [auto|].
        right. exists cs'. cbn [In]. auto.
      * intros k cs' [Hin|Hin] Ho'; [|exact (H3 k cs' Hin Ho')].
        injection Hin as <- <-. congruence.
Qed.

(** X10.  When the column mapping succeeds, each field it maps goes to the first
    header of the sheet that holds one of the field's candidate names, case
    aside, and each of the mandatory fields is mapped. *)
Theorem mapear_correcto (cols : list string) (columnas_map : list (string * string)) :
  mapear mapping_candidates cols [] = inr columnas_map ->
  (forall key c, In (key, c) columnas_map ->
     exists cands, In (key, cands) mapping_candidates
                   /\ find (coincide_candidatos cands) cols = Some c
                   /\ In c cols /\ coincide_candidatos cands c = true)
  /\ (forall key cands, In (key, cands) mapping_candidates -> opcional key = false ->
        exists c, In (key, c) columnas_map).
Proof.
  intro H. apply mapear_correcto_gen in H as (_ & H2 & H3). split.
  - intros key c Hin. destruct (H2 key c Hin) as [[]|(cs & Hc & Hf & _)].
    exists cs. destruct (find_some _ _ Hf) as [Hi Hp]. auto.
  - intros key cs Hin Ho. destruct (H3 key cs Hin Ho) as (c & Hc & _).
    exists c. exact Hc.
Qed.

Lemma mapear_correcto_witness :
  exists c, In ("Resultado", c)
               [("Fecha", "Fecha"); ("Hora", "Hora");
                ("Resultado", "Resultado con incertidumbre (V/m)");
                ("Sonda", "Sonda utilizada")].
Proof.
  refine (proj2 (mapear_correcto (df_columns hoja_completa) _ _)
                "Resultado" ["resultado con incertidumbre"; "resultado"] _ eq_refl).
  - vm_compute. reflexivity.
  - cbn. auto.
Defined.

(* ================================================================= *)
(** ** More on the session: deleting again, editing, the other deletions *)

Lemma coincide_columnas (df df' : Tabla) (n : string) (r : Registro) :
  columnas df = columnas df' -> coincide df n r = coincide df' n r.
Proof.
  intro H. unfold coincide, celda_Localidad, tiene_columna. rewrite H. reflexivity.
Qed.

(** The rows a deletion of [n] keeps, and those it removes. *)
Definition quedan (df : Tabla) (n : string) : list Registro :=
  filter (fun r => negb (coincide df n r)) (filas df).

Definition borradas (df : Tabla) (n : string) : nat :=
  List.length (filter (coincide df n) (filas df)).

Lemma eliminar_localidad_sesion (n : string) (s : Sesion) :
  let df := tabla_maestra s in
  let df' := mkTabla (columnas df) (quedan df n) in
  fst (eliminar_localidad n s)
  = if Nat.eqb (borradas df n) 0 then s else mkSesion df' (Some df').
Proof.
  cbv zeta. unfold borradas, quedan.
  destruct (eliminar_localidad_casos n s) as [(H0 & Hs & _) | (Hn0 & Heq)];
    cbv zeta in *.
  - rewrite H0, Hs. reflexivity.
  - rewrite Heq. cbn [fst].
    destruct (Nat.eqb_spec
                (List.length (filter (coincide (tabla_maestra s) n)
                                     (filas (tabla_maestra s)))) 0);
      [contradiction|reflexivity].
Qed.

Lemma eliminar_localidad_tabla (n : string) (s : Sesion) :
  tabla_maestra (fst (eliminar_localidad n s))
  = mkTabla (columnas (tabla_maestra s)) (quedan (tabla_maestra s) n).
Proof.
  pose proof (eliminar_localidad_sesion n s) as H. cbv zeta in H. rewrite H.
  destruct (Nat.eqb_spec (borradas (tabla_maestra s) n) 0) as [H0|_];
    [|reflexivity].
  unfold quedan. rewrite (filter_ninguno _ _ H0).
  destruct (tabla_maestra s). reflexivity.
Qed.

Lemma eliminar_localidad_db (n : string) (s : Sesion) :
  db (fst (eliminar_localidad n s))
  = if Nat.eqb (borradas (tabla_maestra s) n) 0 then db s
    else Some (mkTabla (columnas (tabla_maestra s)) (quedan (tabla_maestra s) n)).
Proof.
  pose proof (eliminar_localidad_sesion n s) as H. cbv zeta in H. rewrite H.
  destruct (Nat.eqb (borradas (tabla_maestra s) n) 0); reflexivity.
Qed.

Lemma sesion_igual (s1 s2 : Sesion) :
  tabla_maestra s1 = tabla_maestra s2 -> db s1 = db s2 -> s1 = s2.
Proof. destruct s1, s2. cbn. intros -> ->. reflexivity. Qed.

Lemma filter_conmuta {X : Type} (p q : X -> bool) (l : list X) :
  filter p (filter q l) = filter q (filter p l).
Proof.
  induction l as [|x l IH]; [reflexivity|]. cbn [filter].
  destruct (p x) eqn:Hp, (q x) eqn:Hq; cbn [filter]; rewrite ?Hp, ?Hq, IH;
    reflexivity.
Qed.

Lemma filter_dentro {X : Type} (p q : X -> bool) (l : list X) :
  (forall x, p x = true -> q x = true) -> filter p (filter q l) = filter p l.
Proof.
  intro H. induction l as [|x l IH]; [reflexivity|]. cbn [filter].
  destruct (q x) eqn:Hq; cbn [filter]; rewrite IH; [reflexivity|].
  destruct (p x) eqn:Hp; [|reflexivity].
  rewrite (H x Hp) in Hq. discriminate Hq.
Qed.

Lemma coincide_uno (df : Tabla) (a b : string) (r : Registro) :
  a <> b -> coincide df a r = true -> negb (coincide df b r) = true.
Proof.
  unfold coincide. destruct (celda_Localidad df r) as [l|]; [|discriminate].
  intros Hab Ha. apply String.eqb_eq in Ha. subst l.
  destruct (String.eqb_spec a b); [contradiction|reflexivity].
Qed.

(** X11.  Deleting the same locality again finds nothing and changes nothing. *)
Theorem eliminar_localidad_repetida (n : string) (s : Sesion) :
  let s1 := fst (eliminar_localidad n s) in
  fst (eliminar_localidad n s1) = s1
  /\ es_success (snd (eliminar_localidad n s1)) = false.
Proof.
  cbv zeta. set (s1 := fst (eliminar_localidad n s)).
  assert (H0 : borradas (tabla_maestra s1) n = 0%nat).
  { unfold s1, borradas. rewrite eliminar_localidad_tabla. cbn [filas].
    rewrite (filter_ext _ _
               (fun r => coincide_columnas _ (tabla_maestra s) n r eq_refl)).
    unfold quedan. rewrite filter_vacio; [reflexivity|].
    intros r Hr. apply filter_In in Hr as [_ Hr].
    apply negb_true_iff. exact Hr. }
  destruct (eliminar_localidad_casos n s1) as [(_ & Hs & Hm & _) | (Hn0 & _)];
    cbv zeta in *; [split; assumption|].
  unfold borradas in H0. contradiction.
Qed.

(** X12.  Two localities can be deleted in either order: the table and the stored
    table end up the same. *)
Theorem eliminar_localidad_conmuta (a b : string) (s : Sesion) :
  fst (eliminar_localidad a (fst (eliminar_localidad b s)))
  = fst (eliminar_localidad b (fst (eliminar_localidad a s))).
Proof.
  destruct (String.eqb_spec a b) as [->|Hab]; [reflexivity|].
  set (df := tabla_maestra s).
  assert (Hq : forall x y : string,
             quedan (mkTabla (columnas df) (quedan df y)) x
             = filter (fun r => negb (coincide df x r)) (quedan df y)).
  { intros x y. unfold quedan at 1. cbn [filas].
    apply filter_ext. intro r. reflexivity. }
  assert (Hb : forall x y : string, x <> y ->
             borradas (mkTabla (columnas df) (quedan df y)) x = borradas df x).
  { intros x y Hxy. unfold borradas. cbn [filas]. f_equal.
    rewrite (filter_ext _ _
               (fun r => coincide_columnas _ df x r eq_refl)).
    unfold quedan. apply filter_dentro. intros r Hr.
    exact (coincide_uno df x y r Hxy Hr). }
  assert (Ht : mkTabla (columnas df) (quedan (mkTabla (columnas df) (quedan df b)) a)
               = mkTabla (columnas df) (quedan (mkTabla (columnas df) (quedan df a)) b)).
  { rewrite !Hq. unfold quedan. f_equal. apply filter_conmuta. }
  assert (Hcero : forall x, borradas df x = 0%nat ->
             mkTabla (columnas df) (quedan df x) = df).
  { intros x H0. unfold quedan, borradas in *. rewrite (filter_ninguno _ _ H0).
    destruct df. reflexivity. }
  apply sesion_igual.
  - rewrite !eliminar_localidad_tabla. fold df. cbn [columnas]. exact Ht.
  - rewrite !eliminar_localidad_db, !eliminar_localidad_tabla. fold df.
    cbn [columnas].
    rewrite (Hb a b Hab), (Hb b a (not_eq_sym Hab)).
    destruct (Nat.eqb_spec (borradas df a) 0) as [Ha|Ha];
      destruct (Nat.eqb_spec (borradas df b) 0) as [Hb0|Hb0].
    + reflexivity.
    + rewrite (Hcero a Ha). reflexivity.
    + rewrite (Hcero b Hb0). reflexivity.
    + rewrite Ht. reflexivity.
Qed.

(* ================================================================= *)
(** ** Editing a locality: [guardar_cambios] *)

(** [df.loc[mask, c] = v] adds the column [c] when the table lacks it. *)
Definition con_columna (cols : list string) (c : string) : list string :=
  if existsb (String.eqb c) cols then cols else cols ++ [c].

(** The five assignments of [guardar_cambios], on one row: the mask is taken
    once, before the first of them. *)
Definition editar_fila (localidad_actual nuevo_ccte nueva_provincia
    nueva_localidad nuevo_expediente : string) (ahora : Z) (r : Registro)
  : Registro :=
  if localidad_igual localidad_actual r
  then mkRegistro (Some nuevo_ccte) (Some nueva_provincia) (Some nueva_localidad)
                  (r_Resultado r) (r_Fecha r) (r_Hora r) (r_NombreArchivo r)
                  (Some nuevo_expediente) (r_Sonda r) (r_Lat r) (r_Lon r)
                  (Some ahora)
  else r.

Inductive MensajeEdicion : Type :=
| cambios_guardados
| no_se_pudieron_guardar.

(** A write to the store inside a [try]: it goes through, or it raises and
    leaves the store in some state. *)
Inductive Escritura : Type :=
| escrita
| fallida (queda : option Tabla).

Definition guardar (e : Escritura) (df : Tabla) (s : Sesion) : Sesion :=
  match e with
  | escrita => save_tabla_maestra_to_db df s
  | fallida queda => mkSesion (tabla_maestra s) queda
  end.

(** [guardar_cambios]: [ahora] is [datetime.now()], [e] what becomes of the
    write to the store.  Without a [Localidad] column the mask raises
    [KeyError]: [None]. *)
Definition guardar_cambios (localidad_actual nuevo_ccte nueva_provincia
    nueva_localidad nuevo_expediente : string) (ahora : Z) (e : Escritura)
    (s : Sesion) : option (Sesion * MensajeEdicion) :=
  let df := tabla_maestra s in
  if tiene_columna "Localidad" df
  then
    let df' :=
      mkTabla (fold_left con_columna
                 ["CCTE"; "Provincia"; "Localidad"; "Expediente"; "FechaCarga"]
                 (columnas df))
              (map (editar_fila localidad_actual nuevo_ccte nueva_provincia
                                nueva_localidad nuevo_expediente ahora)
                   (filas df)) in
    Some (guardar e df' (mkSesion df' (db s)),
          match e with
          | escrita => cambios_guardados
          | fallida _ => no_se_pudieron_guardar
          end)
  else None.

(** What a row measures: the fields no edit touches. *)
Definition medicion (r : Registro)
  : option Q * option fecha * option hora * option string * option string
    * option Q * option Q :=
  (r_Resultado r, r_Fecha r, r_Hora r, r_NombreArchivo r, r_Sonda r, r_Lat r,
   r_Lon r).

Lemma medicion_editar la c p l e ahora (r : Registro) :
  medicion (editar_fila la c p l e ahora r) = medicion r.
Proof. unfold editar_fila. destruct (localidad_igual la r); reflexivity. Qed.

Lemma filter_map {X Y : Type} (f : X -> Y) (p : Y -> bool) (l : list X) :
  filter p (map f l) = map f (filter (fun x => p (f x)) l).
Proof.
  induction l as [|x l IH]; [reflexivity|]. cbn [map filter].
  destruct (p (f x)); cbn [map]; rewrite IH; reflexivity.
Qed.

(** The total depends on the rows only through their file, date and time. *)
Lemma calcular_tiempo_map (f : Registro -> Registro) (cols : list string)
    (rs : list Registro) :
  (forall r, r_NombreArchivo (f r) = r_NombreArchivo r
             /\ r_Fecha (f r) = r_Fecha r /\ r_Hora (f r) = r_Hora r) ->
  calcular_tiempo_total_por_archivo (mkTabla cols (map f rs))
  = calcular_tiempo_total_por_archivo (mkTabla cols rs).
Proof.
  intro Hf. rewrite !calcular_tiempo_doble_suma. cbn [columnas filas].
  destruct (columnas_de_tiempo cols); [|reflexivity].
  assert (Ha : claves_archivo (map f rs) = claves_archivo rs).
  { unfold claves_archivo, claves. rewrite map_map. do 3 f_equal.
    apply map_ext. intro r. apply Hf. }
  assert (Hd : claves_fecha (map f rs) = claves_fecha rs).
  { unfold claves_fecha, claves. rewrite map_map. do 3 f_equal.
    apply map_ext. intro r. apply Hf. }
  rewrite Ha, Hd. apply sumatoria_ext. intros a _. apply sumatoria_ext. intros d _.
  unfold tramo_de. rewrite !filter_map, map_map. do 2 f_equal.
  rewrite (map_ext _ r_Hora (fun r => proj2 (proj2 (Hf r)))).
  f_equal.
  rewrite (filter_ext (fun x => es_archivo a (f x)) (es_archivo a)).
  - apply filter_ext. intro r. unfold es_fecha, en_grupo.
    rewrite (proj1 (proj2 (Hf r))). reflexivity.
  - intro r. unfold es_archivo, en_grupo. rewrite (proj1 (Hf r)). reflexivity.
Qed.

Lemma existsb_con_columna (cols : list string) (c x : string) :
  existsb (String.eqb x) (con_columna cols c)
  = existsb (String.eqb x) cols || String.eqb x c.
Proof.
  unfold con_columna. destruct (existsb (String.eqb c) cols) eqn:E.
  - destruct (String.eqb_spec x c) as [->|_]; [rewrite E|]; 
      rewrite ?orb_false_r; reflexivity.
  - rewrite existsb_app. cbn [existsb]. rewrite orb_false_r. reflexivity.
Qed.

Lemma existsb_con_columnas (nuevas cols : list string) (x : string) :
  existsb (String.eqb x) (fold_left con_columna nuevas cols)
  = existsb (String.eqb x) cols || existsb (String.eqb x) nuevas.
Proof.
  revert cols. induction nuevas as [|c nuevas IH]; intro cols; cbn [fold_left existsb].
  - rewrite orb_false_r. reflexivity.
  - rewrite IH, existsb_con_columna, orb_assoc. reflexivity.
Qed.

(** X13.  Editing a locality keeps every row in its place and every measurement as
    it was; the rows of other localities are untouched, no column is lost, and
    the hours worked of the whole table do not change. *)
Theorem guardar_cambios_conserva (localidad_actual nuevo_ccte nueva_provincia
    nueva_localidad nuevo_expediente : string) (ahora : Z) (e : Escritura)
    (s s' : Sesion) (m : MensajeEdicion) :
  guardar_cambios localidad_actual nuevo_ccte nueva_provincia nueva_localidad
                  nuevo_expediente ahora e s = Some (s', m) ->
  let df := tabla_maestra s in
  let df' := tabla_maestra s' in
  List.length (filas df') = List.length (filas df)
  /\ map medicion (filas df') = map medicion (filas df)
  /\ (forall i r, nth_error (filas df) i = Some r ->
        r_Localidad r <> Some localidad_actual ->
        nth_error (filas df') i = Some r)
  /\ (forall c, tiene_columna c df = true -> tiene_columna c df' = true)
  /\ calcular_tiempo_total_por_archivo df' = calcular_tiempo_total_por_archivo df
  /\ (e = escrita -> db s' = Some df').
Proof.
  unfold guardar_cambios.
  destruct (tiene_columna "Localidad" (tabla_maestra s)) eqn:Hl; [|discriminate].
  set (ed := editar_fila localidad_actual nuevo_ccte nueva_provincia
                         nueva_localidad nuevo_expediente ahora).
  set (cols' := fold_left con_columna _ _).
  intro H.
  assert (Ht : tabla_maestra s' = mkTabla cols' (map ed (filas (tabla_maestra s)))).
  { destruct e; injection H as <- _; reflexivity. }
  assert (Hdb : e = escrita -> db s' = Some (tabla_maestra s')).
  { intros ->. injection H as <- _. reflexivity. }
  cbv zeta. rewrite Ht in *. cbn [filas].
  split; [apply length_map|].
  split.
  { rewrite map_map. apply map_ext. intro r. apply medicion_editar. }
  split.
  { intros i r Hi Hr. rewrite nth_error_map, Hi. cbn [option_map]. f_equal.
    unfold ed, editar_fila, localidad_igual.
    destruct (r_Localidad r) as [l|]; [|reflexivity].
    destruct (String.eqb_spec l localidad_actual) as [->|_];
      [contradiction|reflexivity]. }
  split.
  { intros c Hc. unfold tiene_columna in *. cbn [columnas]. unfold cols'.
    rewrite existsb_con_columnas, Hc. reflexivity. }
  split; [|exact Hdb].
  rewrite calcular_tiempo_map.
  - rewrite !calcular_tiempo_doble_suma. cbn [columnas filas].
    replace (columnas_de_tiempo cols')
      with (columnas_de_tiempo (columnas (tabla_maestra s))); [reflexivity|].
    unfold columnas_de_tiempo, cols'. rewrite !existsb_con_columnas.
    cbn [existsb String.eqb Ascii.eqb Bool.eqb]. rewrite !orb_false_r. reflexivity.
  - intro r. unfold ed, editar_fila.
    destruct (localidad_igual localidad_actual r); auto.
Qed.

(** X14.  Renaming a locality to a name the table already has merges the two: the
    rows under the new name are those that had either name, and deleting the
    new name afterwards removes them all. *)
Theorem guardar_cambios_fusiona (localidad_actual nuevo_ccte nueva_provincia
    nueva_localidad nuevo_expediente : string) (ahora : Z) (e : Escritura)
    (s s' : Sesion) (m : MensajeEdicion) :
  guardar_cambios localidad_actual nuevo_ccte nueva_provincia nueva_localidad
                  nuevo_expediente ahora e s = Some (s', m) ->
  let df := tabla_maestra s in
  let df' := tabla_maestra s' in
  let tenia := fun r => localidad_igual localidad_actual r
                        || localidad_igual nueva_localidad r in
  List.length (filter (localidad_igual nueva_localidad) (filas df'))
  = List.length (filter tenia (filas df))
  /\ filas (tabla_maestra (fst (eliminar_localidad nueva_localidad s')))
     = filter (fun r => negb (tenia r)) (filas df).
Proof.
  unfold guardar_cambios.
  destruct (tiene_columna "Localidad" (tabla_maestra s)) eqn:Hl; [|discriminate].
  set (ed := editar_fila localidad_actual nuevo_ccte nueva_provincia
                         nueva_localidad nuevo_expediente ahora).
  set (cols' := fold_left con_columna _ _).
  intro H.
  assert (Ht : tabla_maestra s' = mkTabla cols' (map ed (filas (tabla_maestra s)))).
  { destruct e; injection H as <- _; reflexivity. }
  assert (Hed : forall r, localidad_igual nueva_localidad (ed r)
                          = localidad_igual localidad_actual r
                            || localidad_igual nueva_localidad r).
  { intro r. unfold ed, editar_fila.
    destruct (localidad_igual localidad_actual r) eqn:E; [|reflexivity].
    unfold localidad_igual. cbn [r_Localidad]. apply String.eqb_refl. }
  assert (Hno : forall r, localidad_igual localidad_actual r
                          || localidad_igual nueva_localidad r = false ->
                          ed r = r).
  { intros r Hr. apply orb_false_iff in Hr as [Hr _].
    unfold ed, editar_fila. rewrite Hr. reflexivity. }
  cbv zeta. split.
  - rewrite Ht. cbn [filas]. rewrite filter_map, length_map.
    rewrite (filter_ext _ _ Hed). reflexivity.
  - rewrite eliminar_localidad_tabla. cbn [filas]. unfold quedan.
    rewrite Ht. cbn [filas].
    assert (Hc : tiene_columna "Localidad" (mkTabla cols' (map ed (filas (tabla_maestra s)))) = true).
    { unfold tiene_columna in *. cbn [columnas]. unfold cols'.
      rewrite existsb_con_columnas, Hl. reflexivity. }
    rewrite (filter_ext _ _
               (fun r => f_equal negb (coincide_con_columna _ nueva_localidad Hc r))).
    clear - Hed Hno. induction (filas (tabla_maestra s)) as [|r rs IH];
      [reflexivity|].
    cbn [map filter]. rewrite Hed, IH.
    destruct (localidad_igual localidad_actual r || localidad_igual nueva_localidad r)
      eqn:E; cbn [negb]; [reflexivity|].
    rewrite (Hno r E). reflexivity.
Qed.

Definition sesion_dos_localidades : Sesion :=
  mkSesion (mkTabla columnas_maestra
              [ registro_localidad (Some "Salta") None;
                registro_localidad (Some "Oran") None;
                registro_localidad None None;
                registro_localidad (Some "Oran") None ])
           None.

Lemma guardar_cambios_conserva_witness :
  exists s',
    guardar_cambios "Oran" "Salta" "Salta" "Salta" "EX-1" 0 escrita
                    sesion_dos_localidades
    = Some (s', cambios_guardados)
    /\ calcular_tiempo_total_por_archivo (tabla_maestra s')
       = calcular_tiempo_total_por_archivo (tabla_maestra sesion_dos_localidades)
    /\ db s' = Some (tabla_maestra s').
Proof.
  eexists. split; [reflexivity|].
  match goal with
  | |- calcular_tiempo_total_por_archivo (tabla_maestra ?x) = _ /\ _ =>
      destruct (guardar_cambios_conserva "Oran" "Salta" "Salta" "Salta" "EX-1" 0 escrita
                  sesion_dos_localidades x cambios_guardados eq_refl)
        as (_ & _ & _ & _ & Ht & Hdb)
  end.
  split; [exact Ht|exact (Hdb eq_refl)].
Defined.

Lemma guardar_cambios_fusiona_witness :
  exists s',
    guardar_cambios "Oran" "Salta" "Salta" "Salta" "EX-1" 0 escrita
                    sesion_dos_localidades
    = Some (s', cambios_guardados)
    /\ List.length (filter (localidad_igual "Salta") (filas (tabla_maestra s'))) = 3%nat
    /\ List.length (filas (tabla_maestra (fst (eliminar_localidad "Salta" s')))) = 1%nat.
Proof.
  eexists. split; [reflexivity|].
  match goal with
  | |- List.length (filter _ (filas (tabla_maestra ?x))) = _ /\ _ =>
      destruct (guardar_cambios_fusiona "Oran" "Salta" "Salta" "Salta" "EX-1" 0 escrita
                  sesion_dos_localidades x cambios_guardados eq_refl)
        as (Hn & Hq)
  end.
  split; [rewrite Hn; reflexivity|rewrite Hq; reflexivity].
Defined.

(* ================================================================= *)
(** ** The other deletions *)

(** [eliminar_localidad_cb], the button of the edit panel: the session it
    leaves.  Without a [Localidad] column the mask raises [KeyError]: [None]. *)
Definition eliminar_localidad_cb (localidad_actual : string) (e : Escritura)
    (s : Sesion) : option Sesion :=
  let df := tabla_maestra s in
  if tiene_columna "Localidad" df
  then
    let mask := map (localidad_igual localidad_actual) (filas df) in
    if existsb (fun b => b) mask
    then
      let df' := mkTabla (columnas df)
                         (filter (fun r => negb (localidad_igual localidad_actual r))
                                 (filas df)) in
      Some (guardar e df' (mkSesion df' (db s)))
    else Some s
  else None.

(** What [eliminar_localidad] of [app.py] shows.  The session always holds
    the key ["tabla_maestra"]: the script sets it before anything else. *)
Inductive MensajeApp : Type :=
| app_warning_sin_datos
    (* st.warning: No hay datos cargados en la tabla maestra. *)
| app_error_tabla_sin_columna
    (* st.error: La tabla no tiene columna 'Localidad'. *)
| app_info_no_encontrada (nombre_localidad : string)
    (* st.info: No se encontro la localidad **{nombre_localidad}** en la tabla. *)
| app_success_eliminada (nombre_localidad : string) (eliminados : nat)
    (* st.success: Localidad **{nombre_localidad}** eliminada ({eliminados} registros). *)
| app_warning_no_se_pudo_guardar
    (* st.warning: Localidad eliminada pero no se pudo guardar el pickle: {e} *).

(** The notice of [app.py] that stands where the later version shows a
    message.  Three of the four have the text of the later version; the error
    for a table without a [Localidad] column reads otherwise there
    (No se encontro columna 'Localidad'.). *)
Definition aviso_en_app (m : Mensaje) : MensajeApp :=
  match m with
  | warning_sin_datos => app_warning_sin_datos
  | error_sin_columna => app_error_tabla_sin_columna
  | info_no_encontrada nombre_localidad => app_info_no_encontrada nombre_localidad
  | success_eliminada nombre_localidad eliminados =>
      app_success_eliminada nombre_localidad eliminados
  end.

(** [eliminar_localidad] of [app.py]; the store is the pickle file. *)
Definition eliminar_localidad_app (nombre_localidad : string) (e : Escritura)
    (s : Sesion) : Sesion * MensajeApp :=
  if vacia (tabla_maestra s) then (s, app_warning_sin_datos)
  else
    let df := tabla_maestra s in
    if negb (tiene_columna "Localidad" df) then (s, app_error_tabla_sin_columna)
    else
      let cantidad_antes := List.length (filas df) in
      let df_filtrado :=
        mkTabla (columnas df)
                (filter (localidad_distinta nombre_localidad) (filas df)) in
      let cantidad_despues := List.length (filas df_filtrado) in
      let eliminados := (cantidad_antes - cantidad_despues)%nat in
      if Nat.eqb eliminados 0
      then (s, app_info_no_encontrada nombre_localidad)
      else
        (guardar e df_filtrado (mkSesion df_filtrado (db s)),
         match e with
         | escrita => app_success_eliminada nombre_localidad eliminados
         | fallida _ => app_warning_no_se_pudo_guardar
         end).

Lemma mask_any {X : Type} (p : X -> bool) (l : list X) :
  existsb (fun b => b) (map p l) = negb (Nat.eqb (List.length (filter p l)) 0).
Proof.
  induction l as [|x l IH]; [reflexivity|]. cbn [map existsb filter].
  destruct (p x); [reflexivity|exact IH].
Qed.

Lemma cuenta_por_resta {X : Type} (p : X -> bool) (l : list X) :
  (List.length l - List.length (filter (fun x => negb (p x)) l))%nat
  = List.length (filter p l).
Proof. pose proof (filter_particion p l). lia. Qed.

(** X15.  The deletion of [app.py] removes the same rows as the later
    version and answers with the notice that stands for the later version's
    message, with the same locality and the same count (the text of the error
    for a missing [Localidad] column is not the same in the two files); when
    the pickle cannot be written the table of the session is the same all the
    same. *)
Theorem eliminar_localidad_app_igual (nombre_localidad : string) (s : Sesion) :
  eliminar_localidad_app nombre_localidad escrita s
  = (fst (eliminar_localidad nombre_localidad s),
     aviso_en_app (snd (eliminar_localidad nombre_localidad s)))
  /\ forall e,
       tabla_maestra (fst (eliminar_localidad_app nombre_localidad e s))
       = tabla_maestra (fst (eliminar_localidad nombre_localidad s)).
Proof.
  unfold eliminar_localidad_app, eliminar_localidad.
  destruct (vacia (tabla_maestra s)); [split; reflexivity|].
  destruct (tiene_columna "Localidad" (tabla_maestra s)); cbn [negb];
    [|split; reflexivity].
  cbn [filas]. unfold localidad_distinta. rewrite cuenta_por_resta.
  destruct (Nat.eqb (List.length (filter (localidad_igual nombre_localidad)
                                         (filas (tabla_maestra s)))) 0);
    [split; reflexivity|].
  split; [reflexivity|]. intros [|q]; reflexivity.
Qed.

(** X16.  On a table with a [Localidad] column the button of the edit panel leaves
    the session that [eliminar_localidad] leaves; when the write fails the
    table of the session is the same all the same. *)
Theorem eliminar_localidad_cb_igual (localidad_actual : string) (s : Sesion) :
  tiene_columna "Localidad" (tabla_maestra s) = true ->
  eliminar_localidad_cb localidad_actual escrita s
  = Some (fst (eliminar_localidad localidad_actual s))
  /\ forall e, exists s',
       eliminar_localidad_cb localidad_actual e s = Some s'
       /\ tabla_maestra s'
          = tabla_maestra (fst (eliminar_localidad localidad_actual s)).
Proof.
  intro Hc. unfold eliminar_localidad_cb, eliminar_localidad.
  rewrite Hc, mask_any. cbn [negb].
  destruct (vacia (tabla_maestra s)) eqn:Hv.
  - rewrite (vacia_con_columna _ Hv Hc). cbn.
    split; [reflexivity|]. intro e. exists s. split; reflexivity.
  - destruct (Nat.eqb (List.length (filter (localidad_igual localidad_actual)
                                           (filas (tabla_maestra s)))) 0);
      cbn [negb].
    + split; [reflexivity|]. intro e. exists s. split; reflexivity.
    + split; [reflexivity|]. intros [|q]; eexists; split; reflexivity.
Qed.

Lemma eliminar_localidad_cb_igual_witness :
  eliminar_localidad_cb "Salta" escrita sesion_ejemplo
  = Some (fst (eliminar_localidad "Salta" sesion_ejemplo)).
Proof.
  exact (proj1 (eliminar_localidad_cb_igual "Salta" sesion_ejemplo eq_refl)).
Defined.

(* ================================================================= *)
(** ** Adding a batch to the master table *)

(** The body of [if submit and files:] once [procesar_archivos] has returned
    [df_proc]: [ahora] is [datetime.now()].  [None] when the batch is empty and
    the table is left as it was. *)
Definition ingresar (tabla df_proc : DataFrame) (ahora : celda)
  : option DataFrame :=
  if negb (df_empty df_proc)
  then Some (concat [tabla; asignar_constante "FechaCarga" ahora df_proc])
  else None.

Lemma union_columnas_acc (acc cols : list string) (c : string) :
  In c acc -> In c (union_columnas acc cols).
Proof.
  revert acc. induction cols as [|x cols IH]; intros acc H; [exact H|].
  cbn [union_columnas]. destruct (existsb (String.eqb x) acc); apply IH;
    [exact H|apply in_app_iff; left; exact H].
Qed.

Lemma union_columnas_nuevas (acc cols : list string) (c : string) :
  In c cols -> In c (union_columnas acc cols).
Proof.
  revert acc. induction cols as [|x cols IH]; intros acc H; [contradiction|].
  cbn [union_columnas]. destruct H as [->|H].
  - destruct (existsb (String.eqb c) acc) eqn:E; apply union_columnas_acc.
    + apply existsb_exists in E as (y & Hy & Ey).
      apply String.eqb_eq in Ey. subst y. exact Hy.
    + apply in_app_iff. right. left. reflexivity.
  - destruct (existsb (String.eqb x) acc); apply IH; exact H.
Qed.

Lemma posicion_In (c : string) (cols : list string) :
  In c cols -> exists i, posicion c cols = Some i.
Proof.
  induction cols as [|x cols IH]; [contradiction|]. intro H. cbn [posicion].
  destruct (String.eqb_spec c x) as [_|Hne]; [exists O; reflexivity|].
  destruct H as [->|H]; [contradiction|].
  destruct (IH H) as (i & ->). exists (S i). reflexivity.
Qed.

Lemma posicion_nth {Y : Type} (c : string) (cols : list string) (i : nat)
    (f : string -> Y) (d : Y) :
  posicion c cols = Some i -> nth i (map f cols) d = f c.
Proof.
  revert i. induction cols as [|x cols IH]; intros i; cbn [posicion]; [discriminate|].
  destruct (String.eqb_spec c x) as [->|_].
  - intro H. injection H as <-. reflexivity.
  - destruct (posicion c cols) as [j|]; [|discriminate].
    intro H. injection H as <-. cbn [map nth]. apply IH. reflexivity.
Qed.

Lemma existsb_posicion (c : string) (cols : list string) :
  existsb (String.eqb c) cols = true -> In c cols.
Proof.
  intro H. apply existsb_exists in H as (y & Hy & E).
  apply String.eqb_eq in E. subst y. exact Hy.
Qed.

(** A column of a concatenation: the cells of that column in each frame, a
    null where the frame lacks it. *)
Lemma columna_concat (dfs : list DataFrame) (c : string) :
  In c (df_columns (concat dfs)) ->
  columna c (concat dfs)
  = flat_map (fun df => map (fun fila => celda_de (df_columns df) fila c)
                            (df_rows df)) dfs.
Proof.
  intro H. destruct (posicion_In c _ H) as (i & Hi).
  unfold columna. rewrite Hi. unfold concat in *. cbn [df_columns df_rows] in *.
  set (cols := fold_left _ dfs []) in *. clearbody cols.
  induction dfs as [|df dfs IH]; [reflexivity|].
  cbn [flat_map]. rewrite map_app, IH, map_map. f_equal.
  apply map_ext. intro fila. apply posicion_nth. exact Hi.
Qed.

Lemma columna_celda_de (c : string) (df : DataFrame) :
  In c (df_columns df) ->
  map (fun fila => celda_de (df_columns df) fila c) (df_rows df) = columna c df.
Proof.
  intro H. destruct (posicion_In c _ H) as (i & Hi).
  unfold columna, celda_de. rewrite Hi. reflexivity.
Qed.

Lemma filas_asignar_constante (c : string) (v : celda) (df : DataFrame) :
  List.length (df_rows (asignar_constante c v df)) = List.length (df_rows df).
Proof.
  unfold asignar_constante, asignar.
  assert (Hz : forall (g : list celda -> celda -> list celda) (l : list (list celda)),
             List.length (zip_con g l (map (fun _ => v) l)) = List.length l).
  { intros g l. induction l as [|x l IH]; [reflexivity|].
    cbn [map zip_con List.length]. rewrite IH. reflexivity. }
  destruct (posicion c (df_columns df)); cbn [df_rows]; apply Hz.
Qed.

Lemma columnas_asignar_constante (c : string) (v : celda) (df : DataFrame) :
  In c (df_columns (asignar_constante c v df)).
Proof.
  unfold asignar_constante, asignar.
  destruct (posicion c (df_columns df)) as [i|] eqn:E; cbn [df_columns].
  - clear - E. revert i E. induction (df_columns df) as [|x cols IH]; intros i;
      cbn [posicion]; [discriminate|].
    destruct (String.eqb_spec c x) as [->|_]; [left; reflexivity|].
    destruct (posicion c cols) as [j|]; [|discriminate].
    intros _. right. exact (IH j eq_refl).
  - apply in_app_iff. right. left. reflexivity.
Qed.

(** X17.  Adding a batch keeps the table that was there: its rows come first, the
    cells of each of its columns are unchanged and in order, the rows of the
    batch follow, and the result has the column [FechaCarga]. *)
Theorem ingresar_conserva (tabla df_proc nueva : DataFrame) (ahora : celda) :
  ingresar tabla df_proc ahora = Some nueva ->
  List.length (df_rows nueva)
  = (List.length (df_rows tabla) + List.length (df_rows df_proc))%nat
  /\ (forall c, In c (df_columns tabla) ->
        In c (df_columns nueva)
        /\ firstn (List.length (df_rows tabla)) (columna c nueva) = columna c tabla
        /\ List.length (columna c nueva) = List.length (df_rows nueva))
  /\ In "FechaCarga" (df_columns nueva).
Proof.
  unfold ingresar. destruct (negb (df_empty df_proc)); [|discriminate].
  intro H. injection H as <-.
  set (p := asignar_constante "FechaCarga" ahora df_proc).
  assert (Hn : List.length (df_rows (concat [tabla; p]))
               = (List.length (df_rows tabla) + List.length (df_rows df_proc))%nat).
  { unfold concat. cbn [df_rows flat_map]. rewrite app_nil_r, length_app, !length_map.
    unfold p. rewrite filas_asignar_constante. reflexivity. }
  split; [exact Hn|]. split.
  - intros c Hc.
    assert (Hin : In c (df_columns (concat [tabla; p]))).
    { unfold concat. cbn [df_columns fold_left].
      apply union_columnas_acc, union_columnas_nuevas. exact Hc. }
    split; [exact Hin|].
    rewrite (columna_concat _ c Hin). cbn [flat_map]. rewrite app_nil_r.
    rewrite (columna_celda_de c tabla Hc). split.
    + assert (Hl : List.length (df_rows tabla) = List.length (columna c tabla)).
      { destruct (posicion_In c _ Hc) as (i & Hi).
        unfold columna. rewrite Hi, length_map. reflexivity. }
      rewrite Hl, firstn_app, Nat.sub_diag, firstn_all. cbn [firstn].
      apply app_nil_r.
    + rewrite Hn, length_app, length_map.
      destruct (posicion_In c _ Hc) as (i & Hi).
      unfold columna. rewrite Hi, length_map. unfold p.
      rewrite filas_asignar_constante. reflexivity.
  - unfold concat. cbn [df_columns fold_left].
    apply union_columnas_nuevas. apply columnas_asignar_constante.
Qed.

Definition maestra_ejemplo : DataFrame :=
  mkDataFrame ["Localidad"; "Resultado"]
              [ [Txt "Salta"; Num 1]; [Txt "Oran"; Num 2] ].

Lemma ingresar_conserva_witness :
  exists nueva,
    ingresar maestra_ejemplo hoja_completa (Otro "2024-03-02 12:00:00") = Some nueva
    /\ List.length (df_rows nueva) = 4%nat
    /\ firstn 2 (columna "Localidad" nueva) = [Txt "Salta"; Txt "Oran"].
Proof.
  eexists. split; [reflexivity|].
  match goal with
  | |- List.length (df_rows ?x) = _ /\ _ =>
      destruct (ingresar_conserva maestra_ejemplo hoja_completa x
                  (Otro "2024-03-02 12:00:00") eq_refl) as (Hn & Hc & _)
  end.
  split; [exact Hn|].
  destruct (Hc "Localidad" (or_introl eq_refl)) as (_ & Hf & _). exact Hf.
Defined.

(* ================================================================= *)
(** ** The constant columns of a processed file *)

(** Every row has one cell per column, as in any DataFrame. *)
Definition rectangular (df : DataFrame) : bool :=
  forallb (fun fila => Nat.eqb (List.length fila) (List.length (df_columns df)))
          (df_rows df).

Definition Rect (df : DataFrame) : Prop :=
  forall fila, In fila (df_rows df) ->
               List.length fila = List.length (df_columns df).

Lemma rectangular_Rect (df : DataFrame) : rectangular df = true -> Rect df.
Proof.
  unfold rectangular, Rect. intros H fila Hin.
  rewrite forallb_forall in H. apply Nat.eqb_eq, H, Hin.
Qed.

Lemma length_quitar {X Y : Type} (mask : list bool) (l1 : list X) (l2 : list Y) :
  List.length l1 = List.length l2 ->
  List.length (quitar_posiciones mask l1) = List.length (quitar_posiciones mask l2).
Proof.
  revert l1 l2. induction mask as [|b mask IH]; intros l1 l2 H.
  - destruct l1, l2; exact H.
  - destruct l1 as [|x l1], l2 as [|y l2]; try discriminate H; [reflexivity|].
    injection H as H. cbn [quitar_posiciones].
    destruct b; cbn [List.length]; rewrite (IH l1 l2 H); reflexivity.
Qed.

Lemma Rect_dropna_columnas (df : DataFrame) : Rect df -> Rect (dropna_columnas df).
Proof.
  intros H fila Hin. unfold dropna_columnas in *. cbn [df_rows df_columns] in *.
  apply in_map_iff in Hin as (f0 & <- & Hf0). apply length_quitar, H, Hf0.
Qed.

Lemma Rect_drop_columna (c : string) (df : DataFrame) :
  Rect df -> Rect (drop_columna c df).
Proof.
  intros H fila Hin. unfold drop_columna in *. cbn [df_rows df_columns] in *.
  apply in_map_iff in Hin as (f0 & <- & Hf0). apply length_quitar, H, Hf0.
Qed.

Lemma zip_con_In {X Y W : Type} (g : X -> Y -> W) (l1 : list X) (l2 : list Y) (w : W) :
  In w (zip_con g l1 l2) -> exists x y, In x l1 /\ w = g x y.
Proof.
  revert l2. induction l1 as [|x l1 IH]; intros [|y l2] H; try contradiction.
  cbn [zip_con] in H. destruct H as [<-|H].
  - exists x, y. split; [left|]; reflexivity.
  - destruct (IH l2 H) as (x' & y' & Hx & ->). exists x', y'. split; [right|]; auto.
Qed.

Lemma zip_con_length {X Y W : Type} (g : X -> Y -> W) (l1 : list X) (l2 : list Y) :
  List.length l2 = List.length l1 -> List.length (zip_con g l1 l2) = List.length l1.
Proof.
  revert l2. induction l1 as [|x l1 IH]; intros [|y l2] H; try discriminate H;
    [reflexivity|].
  cbn [zip_con List.length]. rewrite IH; [reflexivity|]. injection H as H. exact H.
Qed.

Lemma length_poner {X : Type} (i : nat) (v : X) (l : list X) :
  List.length (poner i v l) = List.length l.
Proof.
  revert i. induction l as [|x l IH]; intros [|i]; cbn [poner List.length];
    try reflexivity. rewrite IH. reflexivity.
Qed.

Lemma Rect_asignar (c : string) (vs : list celda) (df : DataFrame) :
  Rect df -> Rect (asignar c vs df).
Proof.
  intros H fila Hin. unfold asignar in *.
  destruct (posicion c (df_columns df)) as [i|]; cbn [df_rows df_columns] in *;
    apply zip_con_In in Hin as (f0 & v & Hf0 & ->).
  - rewrite length_poner. apply H, Hf0.
  - rewrite !length_app, (H f0 Hf0). reflexivity.
Qed.

Lemma Rect_filtrar_filas (mask : list bool) (df : DataFrame) :
  Rect df -> Rect (filtrar_filas mask df).
Proof.
  intros H fila Hin. unfold filtrar_filas in *. cbn [df_rows df_columns] in *.
  apply H. exact (quitar_posiciones_sub _ _ _ Hin).
Qed.

Lemma Rect_contar_mediciones (df d : DataFrame) (n : Z) :
  Rect df -> contar_mediciones df = Ok (d, n) -> Rect d.
Proof.
  intro H. unfold contar_mediciones.
  destruct (verdadero (find_index_column df));
    [|intro E; injection E as <- _; exact H].
  destruct (find_index_column df) as [c|];
    [|intro E; injection E as <- _; exact H].
  match goal with
  | |- context [if ?b then _ else _] => destruct b
  end.
  - match goal with
    | |- context [serie_max_F ?l] => destruct (serie_max_F l) as [[q|neg]|]
    end; [| discriminate |]; intro E; injection E as <- _;
      apply Rect_filtrar_filas, Rect_asignar, H.
  - intro E. injection E as <- _. apply Rect_filtrar_filas, Rect_asignar, H.
Qed.

Lemma Rect_rename (m : list (string * string)) (df : DataFrame) :
  Rect df -> Rect (rename m df).
Proof.
  intros H fila Hin. unfold rename in *. cbn [df_rows df_columns] in *.
  rewrite length_map. apply H, Hin.
Qed.

Lemma posicion_cota (c : string) (cols : list string) (i : nat) :
  posicion c cols = Some i -> (i < List.length cols)%nat /\ nth i cols "" = c.
Proof.
  revert i. induction cols as [|x cols IH]; intros i; cbn [posicion]; [discriminate|].
  destruct (String.eqb_spec c x) as [->|_].
  - intro H. injection H as <-. cbn. split; [lia|reflexivity].
  - destruct (posicion c cols) as [j|]; [|discriminate].
    intro H. injection H as <-. destruct (IH j eq_refl) as [H1 H2].
    cbn [List.length nth]. split; [lia|exact H2].
Qed.

Lemma posicion_nueva (c : string) (cols : list string) :
  posicion c cols = None -> posicion c (cols ++ [c]) = Some (List.length cols).
Proof.
  induction cols as [|x cols IH]; cbn [posicion app List.length].
  - rewrite String.eqb_refl. reflexivity.
  - destruct (String.eqb c x); [discriminate|].
    destruct (posicion c cols); [discriminate|].
    intros _. rewrite (IH eq_refl). reflexivity.
Qed.

Lemma posicion_app (c : string) (cols mas : list string) (i : nat) :
  posicion c cols = Some i -> posicion c (cols ++ mas) = Some i.
Proof.
  revert i. induction cols as [|x cols IH]; intros i; cbn [posicion app];
    [discriminate|].
  destruct (String.eqb c x); [auto|].
  destruct (posicion c cols) as [j|]; [|discriminate].
  intro H. rewrite (IH j eq_refl). exact H.
Qed.

Lemma nth_poner_mismo {X : Type} (i : nat) (v d : X) (l : list X) :
  (i < List.length l)%nat -> nth i (poner i v l) d = v.
Proof.
  revert i. induction l as [|x l IH]; intros [|i] H; cbn in *; try lia;
    [reflexivity|]. apply IH. lia.
Qed.

Lemma nth_poner_otro {X : Type} (i j : nat) (v d : X) (l : list X) :
  i <> j -> nth i (poner j v l) d = nth i l d.
Proof.
  revert i j. induction l as [|x l IH]; intros [|i] [|j] H; cbn; try reflexivity;
    try contradiction. apply IH. lia.
Qed.

Lemma map_zip_con {X Y W V : Type} (g : X -> Y -> W) (h : W -> V)
    (l1 : list X) (l2 : list Y) :
  map h (zip_con g l1 l2) = zip_con (fun x y => h (g x y)) l1 l2.
Proof.
  revert l2. induction l1 as [|x l1 IH]; intros [|y l2]; cbn [zip_con map];
    try reflexivity. rewrite IH. reflexivity.
Qed.

Lemma zip_con_segundo {X Y : Type} (g : X -> Y -> Y) (l1 : list X) (l2 : list Y) :
  List.length l2 = List.length l1 ->
  (forall x y, In x l1 -> g x y = y) -> zip_con g l1 l2 = l2.
Proof.
  revert l2. induction l1 as [|x l1 IH]; intros [|y l2] H Hg; try discriminate H;
    [reflexivity|].
  cbn [zip_con]. injection H as H. rewrite (Hg x y (or_introl eq_refl)), IH;
    [reflexivity|exact H|]. intros x' y' Hx. apply Hg. right. exact Hx.
Qed.

Lemma zip_con_primero {X Y W : Type} (g : X -> Y -> W) (h : X -> W)
    (l1 : list X) (l2 : list Y) :
  List.length l2 = List.length l1 ->
  (forall x y, In x l1 -> g x y = h x) -> zip_con g l1 l2 = map h l1.
Proof.
  revert l2. induction l1 as [|x l1 IH]; intros [|y l2] H Hg; try discriminate H;
    [reflexivity|].
  cbn [zip_con map]. injection H as H. rewrite (Hg x y (or_introl eq_refl)), IH;
    [reflexivity|exact H|]. intros x' y' Hx. apply Hg. right. exact Hx.
Qed.

(** [df[c] = vs; df[c]] gives [vs]. *)
Lemma columna_asignar_mismo (c : string) (vs : list celda) (df : DataFrame) :
  Rect df -> List.length vs = List.length (df_rows df) ->
  columna c (asignar c vs df) = vs.
Proof.
  intros Hr Hl. unfold asignar, columna.
  destruct (posicion c (df_columns df)) as [i|] eqn:E; cbn [df_columns df_rows].
  - rewrite E, map_zip_con. apply zip_con_segundo; [exact Hl|].
    intros fila v Hin. apply nth_poner_mismo.
    rewrite (Hr fila Hin). exact (proj1 (posicion_cota _ _ _ E)).
  - rewrite (posicion_nueva _ _ E), map_zip_con.
    apply zip_con_segundo; [exact Hl|].
    intros fila v Hin. rewrite app_nth2, (Hr fila Hin), Nat.sub_diag;
      [reflexivity|]. rewrite (Hr fila Hin). lia.
Qed.

(** An assignment to another column leaves [df[c]] as it was. *)
Lemma columna_asignar_otro (c c' : string) (vs : list celda) (df : DataFrame) :
  Rect df -> List.length vs = List.length (df_rows df) -> c <> c' ->
  In c (df_columns df) ->
  columna c (asignar c' vs df) = columna c df.
Proof.
  intros Hr Hl Hne Hc. destruct (posicion_In c _ Hc) as (i & Hi).
  unfold asignar, columna. rewrite Hi.
  destruct (posicion c' (df_columns df)) as [j|] eqn:E; cbn [df_columns df_rows].
  - rewrite Hi, map_zip_con. apply zip_con_primero; [exact Hl|].
    intros fila v _. apply nth_poner_otro. intros ->.
    destruct (posicion_cota _ _ _ Hi) as [_ H1].
    destruct (posicion_cota _ _ _ E) as [_ H2]. congruence.
  - rewrite (posicion_app _ _ [c'] _ Hi), map_zip_con.
    apply zip_con_primero; [exact Hl|].
    intros fila v Hin. apply app_nth1.
    rewrite (Hr fila Hin). exact (proj1 (posicion_cota _ _ _ Hi)).
Qed.

Lemma columnas_asignar_quedan (c c' : string) (vs : list celda) (df : DataFrame) :
  In c (df_columns df) -> In c (df_columns (asignar c' vs df)).
Proof.
  intro H. unfold asignar. destruct (posicion c' (df_columns df));
    cbn [df_columns]; [exact H|apply in_app_iff; left; exact H].
Qed.

Lemma filas_asignar (c : string) (vs : list celda) (df : DataFrame) :
  List.length vs = List.length (df_rows df) ->
  List.length (df_rows (asignar c vs df)) = List.length (df_rows df).
Proof.
  intro H. unfold asignar. destruct (posicion c (df_columns df));
    cbn [df_rows]; apply zip_con_length, H.
Qed.

Lemma columna_drop_otro (c c' : string) (df : DataFrame) :
  c <> c' -> columna c (drop_columna c' df) = columna c df.
Proof.
  intro Hne. unfold drop_columna, columna. cbn [df_columns df_rows].
  assert (H : forall cols : list string,
             match posicion c (quitar_posiciones (map (String.eqb c') cols) cols),
                   posicion c cols with
             | Some i', Some i =>
                 forall fila : list celda,
                   nth i' (quitar_posiciones (map (String.eqb c') cols) fila) NaN
                   = nth i fila NaN
             | None, None => True
             | _, _ => False
             end).
  { induction cols as [|x cols IH]; [exact I|].
    cbn [map quitar_posiciones posicion].
    destruct (String.eqb_spec c' x) as [->|Hx].
    - destruct (String.eqb_spec c x) as [->|_]; [contradiction|].
      destruct (posicion c (quitar_posiciones (map (String.eqb x) cols) cols)) as [i'|],
               (posicion c cols) as [i|]; cbn [option_map]; try exact IH.
      intros [|y fila]; [destruct i', i; reflexivity|]. cbn [nth]. apply IH.
    - cbn [posicion]. destruct (String.eqb_spec c x) as [->|_].
      + intros [|y fila]; reflexivity.
      + destruct (posicion c (quitar_posiciones (map (String.eqb c') cols) cols)) as [i'|],
                 (posicion c cols) as [i|]; cbn [option_map]; try exact IH.
        intros [|y fila]; [destruct i', i; reflexivity|]. cbn [nth]. apply IH. }
  specialize (H (df_columns df)).
  destruct (posicion c (quitar_posiciones (map (String.eqb c') (df_columns df))
                                          (df_columns df))) as [i'|],
           (posicion c (df_columns df)) as [i|]; try contradiction; [|reflexivity].
  rewrite map_map. apply map_ext. exact H.
Qed.

Lemma columnas_drop_quedan (c c' : string) (df : DataFrame) :
  c <> c' -> In c (df_columns df) -> In c (df_columns (drop_columna c' df)).
Proof.
  intros Hne. unfold drop_columna. cbn [df_columns].
  induction (df_columns df) as [|x cols IH]; [contradiction|].
  cbn [map quitar_posiciones]. intros [->|H].
  - destruct (String.eqb_spec c' c) as [->|_]; [contradiction|left; reflexivity].
  - destruct (String.eqb c' x); [|right]; exact (IH H).
Qed.

Lemma length_columna (c : string) (df : DataFrame) :
  In c (df_columns df) -> List.length (columna c df) = List.length (df_rows df).
Proof.
  intro H. destruct (posicion_In c _ H) as (i & Hi).
  unfold columna. rewrite Hi. apply length_map.
Qed.

Lemma mapM_length {X Y : Type} (f : X -> resultado Y) (l : list X) (ys : list Y) :
  mapM f l = Ok ys -> List.length ys = List.length l.
Proof.
  revert ys. induction l as [|x l IH]; intros ys; cbn [mapM].
  - intro H. injection H as <-. reflexivity.
  - destruct (f x) as [y|]; [|discriminate]. cbn [bind].
    destruct (mapM f l) as [ys'|]; [|discriminate]. cbn [bind].
    intro H. injection H as <-. cbn [List.length]. rewrite (IH ys' eq_refl).
    reflexivity.
Qed.

(** The column [c] holds [v] in every row of a rectangular frame. *)
Definition Inv (c : string) (v : celda) (df : DataFrame) : Prop :=
  Rect df /\ In c (df_columns df)
  /\ columna c df = repeat v (List.length (df_rows df)).

Lemma map_constante {X Y : Type} (v : Y) (l : list X) :
  map (fun _ => v) l = repeat v (List.length l).
Proof. induction l as [|x l IH]; [reflexivity|]. cbn. rewrite IH. reflexivity. Qed.

Lemma Inv_asignar_constante (c : string) (v : celda) (df : DataFrame) :
  Rect df -> Inv c v (asignar_constante c v df).
Proof.
  intro H. split; [apply Rect_asignar, H|]. split; [apply columnas_asignar_constante|].
  rewrite filas_asignar_constante. unfold asignar_constante.
  rewrite columna_asignar_mismo; [apply map_constante|exact H|apply length_map].
Qed.

Lemma Inv_asignar (c c' : string) (v : celda) (vs : list celda) (df : DataFrame) :
  c <> c' -> List.length vs = List.length (df_rows df) ->
  Inv c v df -> Inv c v (asignar c' vs df).
Proof.
  intros Hne Hl (Hr & Hc & Hv). split; [apply Rect_asignar, Hr|].
  split; [apply columnas_asignar_quedan, Hc|].
  rewrite (columna_asignar_otro c c' vs df Hr Hl Hne Hc), (filas_asignar c' vs df Hl).
  exact Hv.
Qed.

Lemma Inv_otra_constante (c c' : string) (v v' : celda) (df : DataFrame) :
  c <> c' -> Inv c v df -> Inv c v (asignar_constante c' v' df).
Proof. intros Hne H. apply Inv_asignar; [exact Hne|apply length_map|exact H]. Qed.

Lemma Inv_drop_columna (c c' : string) (v : celda) (df : DataFrame) :
  c <> c' -> Inv c v df -> Inv c v (drop_columna c' df).
Proof.
  intros Hne (Hr & Hc & Hv). split; [apply Rect_drop_columna, Hr|].
  split; [apply columnas_drop_quedan; assumption|].
  rewrite (columna_drop_otro c c' df Hne). unfold drop_columna. cbn [df_rows].
  rewrite length_map. exact Hv.
Qed.

Lemma Inv_aplicar_dms (c x : string) (v : celda) (df df' : DataFrame) :
  c <> x -> aplicar_dms x df = Ok df' -> Inv c v df -> Inv c v df'.
Proof.
  intros Hne. unfold aplicar_dms.
  destruct (en_columnas x df) eqn:Ex; [|intro H; injection H as <-; auto].
  destruct (Nat.leb 2 (veces x df)); [discriminate|].
  destruct (mapM parse_dms_to_decimal (columna x df)) as [vs|] eqn:Em;
    [|discriminate]. cbn [bind]. intro H. injection H as <-.
  apply Inv_asignar; [exact Hne|].
  rewrite length_map, (mapM_length _ _ _ Em). apply length_columna.
  apply existsb_posicion. exact Ex.
Qed.

(** The effective [Expediente]: that of the form, or the file name without
    its extension. *)
Definition expediente_de (file_name expediente : string) : string :=
  if String.eqb expediente "" then splitext_raiz file_name else expediente.

Lemma cola_Inv (c : string) (v : celda) (d5 d6 d7 d8 : DataFrame) :
  c <> "Resultado" -> c <> "Lat" -> c <> "Lon" -> c <> "_idx_num" ->
  (if en_columnas "Resultado" d5
   then if Nat.leb 2 (veces "Resultado" d5) then Raise AttributeError
        else Ok (asignar "Resultado"
                   (map celda_de_numero
                        (extract_numeric_from_text (columna "Resultado" d5)))
                   d5)
   else Ok d5) = Ok d6 ->
  aplicar_dms "Lat" d6 = Ok d7 -> aplicar_dms "Lon" d7 = Ok d8 ->
  Inv c v d5 -> Inv c v (drop_columna "_idx_num" d8).
Proof.
  intros N1 N2 N3 N4 H6 H7 H8 Hi.
  apply Inv_drop_columna; [exact N4|].
  apply (Inv_aplicar_dms c "Lon" v d7 d8 N3 H8).
  apply (Inv_aplicar_dms c "Lat" v d6 d7 N2 H7).
  destruct (en_columnas "Resultado" d5) eqn:Er; [|injection H6 as <-; exact Hi].
  destruct (Nat.leb 2 (veces "Resultado" d5)); [discriminate|].
  injection H6 as <-. apply Inv_asignar; [exact N1| |exact Hi].
  unfold extract_numeric_from_text. rewrite !length_map.
  apply length_columna, existsb_posicion. exact Er.
Qed.

Lemma limpiar_constantes file_name ccte provincia localidad expediente m n
    (df df' : DataFrame) (r : Resumen) :
  Rect df ->
  limpiar file_name ccte provincia localidad expediente m n df = Ok (df', r) ->
  Inv "CCTE" (Txt ccte) df' /\ Inv "Provincia" (Txt provincia) df'
  /\ Inv "Localidad" (Txt localidad) df'
  /\ Inv "Expediente" (Txt (expediente_de file_name expediente)) df'
  /\ Inv "Nombre Archivo" (Txt file_name) df'
  /\ res_expediente r = Txt (expediente_de file_name expediente)
  /\ (0 < List.length (df_rows df'))%nat.
Proof.
  intros Hr. unfold limpiar. fold (expediente_de file_name expediente).
  set (d0 := rename m df).
  set (d1 := asignar_constante "CCTE" (Txt ccte) d0).
  set (d2 := asignar_constante "Provincia" (Txt provincia) d1).
  set (d3 := asignar_constante "Localidad" (Txt localidad) d2).
  set (d4 := asignar_constante "Expediente"
               (Txt (expediente_de file_name expediente)) d3).
  set (d5 := asignar_constante "Nombre Archivo" (Txt file_name) d4).
  assert (R0 : Rect d0) by (apply Rect_rename, Hr).
  assert (R1 : Rect d1) by (apply Rect_asignar, R0).
  assert (R2 : Rect d2) by (apply Rect_asignar, R1).
  assert (R3 : Rect d3) by (apply Rect_asignar, R2).
  assert (R4 : Rect d4) by (apply Rect_asignar, R3).
  assert (I1 : Inv "CCTE" (Txt ccte) d5).
  { do 4 (apply Inv_otra_constante; [discriminate|]).
    apply Inv_asignar_constante, R0. }
  assert (I2 : Inv "Provincia" (Txt provincia) d5).
  { do 3 (apply Inv_otra_constante; [discriminate|]).
    apply Inv_asignar_constante, R1. }
  assert (I3 : Inv "Localidad" (Txt localidad) d5).
  { do 2 (apply Inv_otra_constante; [discriminate|]).
    apply Inv_asignar_constante, R2. }
  assert (I4 : Inv "Expediente" (Txt (expediente_de file_name expediente)) d5).
  { apply Inv_otra_constante; [discriminate|].
    apply Inv_asignar_constante, R3. }
  assert (I5 : Inv "Nombre Archivo" (Txt file_name) d5)
    by (apply Inv_asignar_constante, R4).
  clearbody d5. clear d0 d1 d2 d3 d4 R0 R1 R2 R3 R4.
  match goal with
  | |- bind ?x _ = _ -> _ => destruct x as [d6|] eqn:H6; [|discriminate]
  end. cbn [bind].
  destruct (aplicar_dms "Lat" d6) as [d7|] eqn:H7; [|discriminate]. cbn [bind].
  destruct (aplicar_dms "Lon" d7) as [d8|] eqn:H8; [|discriminate]. cbn [bind].
  assert (Hcola : forall c v,
             c <> "Resultado" -> c <> "Lat" -> c <> "Lon" -> c <> "_idx_num" ->
             Inv c v d5 -> Inv c v (drop_columna "_idx_num" d8)).
  { intros c v N1 N2 N3 N4. exact (cola_Inv c v d5 d6 d7 d8 N1 N2 N3 N4 H6 H7 H8). }
  assert (J1 := Hcola "CCTE" _ ltac:(discriminate) ltac:(discriminate)
                  ltac:(discriminate) ltac:(discriminate) I1).
  assert (J2 := Hcola "Provincia" _ ltac:(discriminate) ltac:(discriminate)
                  ltac:(discriminate) ltac:(discriminate) I2).
  assert (J3 := Hcola "Localidad" _ ltac:(discriminate) ltac:(discriminate)
                  ltac:(discriminate) ltac:(discriminate) I3).
  assert (J4 := Hcola "Expediente" _ ltac:(discriminate) ltac:(discriminate)
                  ltac:(discriminate) ltac:(discriminate) I4).
  assert (J5 := Hcola "Nombre Archivo" _ ltac:(discriminate) ltac:(discriminate)
                  ltac:(discriminate) ltac:(discriminate) I5).
  destruct (columna "Expediente" (drop_columna "_idx_num" d8)) as [|exp0 resto] eqn:Ec;
    [discriminate|].
  intro H. injection H as <- <-. cbn [res_expediente].
  assert (Hexp : exp0 = Txt (expediente_de file_name expediente)
                 /\ (0 < List.length (df_rows (drop_columna "_idx_num" d8)))%nat).
  { destruct J4 as (_ & _ & J4v). rewrite Ec in J4v.
    destruct (List.length (df_rows (drop_columna "_idx_num" d8)));
      [discriminate J4v|].
    cbn [repeat] in J4v. injection J4v as -> _. split; [reflexivity|lia]. }
  destruct Hexp as [-> Hpos].
  exact (conj J1 (conj J2 (conj J3 (conj J4 (conj J5 (conj eq_refl Hpos)))))).
Qed.

(** What a processed file carries. *)
Definition lleva_el_formulario (ccte provincia localidad expediente : string)
    (df : DataFrame) (r : Resumen) : Prop :=
  Inv "CCTE" (Txt ccte) df /\ Inv "Provincia" (Txt provincia) df
  /\ Inv "Localidad" (Txt localidad) df
  /\ Inv "Expediente" (Txt (expediente_de (res_archivo r) expediente)) df
  /\ Inv "Nombre Archivo" (Txt (res_archivo r)) df
  /\ res_expediente r = Txt (expediente_de (res_archivo r) expediente)
  /\ (0 < List.length (df_rows df))%nat.

Lemma procesar_uno_constantes ccte provincia localidad expediente
    (file : Archivo) (sh df : DataFrame) (r : Resumen) :
  read_excel file = Some sh -> rectangular sh = true ->
  procesar_uno ccte provincia localidad expediente file = Procesado df r ->
  res_archivo r = name file
  /\ lleva_el_formulario ccte provincia localidad expediente df r.
Proof.
  intros Hs Hr. unfold procesar_uno. rewrite Hs.
  destruct (contar_mediciones (dropna_columnas sh)) as [[d n]|e0] eqn:Ec;
    [|discriminate].
  pose proof (Rect_contar_mediciones _ _ _
                (Rect_dropna_columnas _ (rectangular_Rect _ Hr)) Ec) as Hrect.
  destruct (mapear mapping_candidates (df_columns d) []) as [key|m]; [discriminate|].
  destruct (limpiar (name file) ccte provincia localidad expediente m n d)
    as [[df0 r0]|e] eqn:El; [|discriminate].
  intro H. injection H as <- <-.
  destruct (limpiar_resumen _ _ _ _ _ _ _ _ _ _ El) as [Hn _].
  split; [exact Hn|]. unfold lleva_el_formulario. rewrite Hn.
  exact (limpiar_constantes _ _ _ _ _ _ _ _ _ _ Hrect El).
Qed.

(** X18.  Every row of a processed file carries the CCTE, the province and the
    locality of the form and the name of the file; its [Expediente] is that of
    the form or, when the form leaves it empty, the file name without its
    extension, and that is the [expediente] of the summary row.  A processed
    file has at least one row. *)
Theorem archivo_procesado_lleva_el_formulario ccte provincia localidad expediente
    (file : Archivo) (sh df : DataFrame) (r : Resumen) :
  read_excel file = Some sh -> rectangular sh = true ->
  procesar_uno ccte provincia localidad expediente file = Procesado df r ->
  let n := List.length (df_rows df) in
  let exp := expediente_de (name file) expediente in
  (0 < n)%nat
  /\ columna "CCTE" df = repeat (Txt ccte) n
  /\ columna "Provincia" df = repeat (Txt provincia) n
  /\ columna "Localidad" df = repeat (Txt localidad) n
  /\ columna "Expediente" df = repeat (Txt exp) n
  /\ columna "Nombre Archivo" df = repeat (Txt (name file)) n
  /\ res_archivo r = name file /\ res_expediente r = Txt exp.
Proof.
  intros Hs Hr Hp. cbv zeta.
  destruct (procesar_uno_constantes _ _ _ _ _ _ _ _ Hs Hr Hp)
    as (Hn & (_ & _ & H1) & (_ & _ & H2) & (_ & _ & H3) & (_ & _ & H4)
        & (_ & _ & H5) & H6 & H7).
  rewrite Hn in *. repeat (split; [assumption|]). split; [reflexivity|exact H6].
Qed.

Lemma archivo_procesado_lleva_el_formulario_witness :
  exists df r,
    procesar_uno "CABA" "Buenos Aires" "Salta" "" archivo_completo = Procesado df r
    /\ columna "Localidad" df = [Txt "Salta"; Txt "Salta"]
    /\ res_expediente r = Txt "a".
Proof.
  eexists _, _. split; [vm_compute; reflexivity|].
  match goal with
  | |- columna _ ?d = _ /\ res_expediente ?x = _ =>
      destruct (archivo_procesado_lleva_el_formulario
                  "CABA" "Buenos Aires" "Salta" "" archivo_completo hoja_completa
                  d x eq_refl eq_refl ltac:(vm_compute; reflexivity))
        as (_ & _ & _ & H3 & _ & _ & _ & H7)
  end.
  split; [exact H3|exact H7].
Defined.

(* ----------------------------------------------------------------- *)
(** *** The batch *)

Lemma fold_union_acc (dfs : list DataFrame) (acc : list string) (c : string) :
  In c acc ->
  In c (fold_left (fun acc df => union_columnas acc (df_columns df)) dfs acc).
Proof.
  revert acc. induction dfs as [|d dfs IH]; intros acc H; [exact H|].
  cbn [fold_left]. apply IH, union_columnas_acc, H.
Qed.

Lemma concat_constante (c : string) (v : celda) (l : list DataFrame) :
  Forall (Inv c v) l ->
  columna c (concat l) = repeat v (List.length (df_rows (concat l))).
Proof.
  intro H. destruct l as [|d l]; [reflexivity|].
  assert (Hin : In c (df_columns (concat (d :: l)))).
  { unfold concat. cbn [df_columns fold_left]. apply fold_union_acc.
    apply union_columnas_nuevas. inversion H as [|? ? (_ & Hc & _) _]. exact Hc. }
  rewrite (columna_concat _ c Hin). unfold concat. cbn [df_rows].
  set (cols := fold_left _ (d :: l) []). clearbody cols. clear Hin.
  induction H as [|x xs (Hr & Hc & Hv) _ IH]; [reflexivity|].
  cbn [flat_map]. rewrite length_app, repeat_app, length_map, IH. f_equal.
  rewrite (columna_celda_de c x Hc). exact Hv.
Qed.

Section Lote.
Variables ccte provincia localidad expediente : string.

Lemma bucle_todos (Q : DataFrame -> Resumen -> Prop) (files : list Archivo)
    l r a a' l' r' :
  (forall f df x, In f files ->
     procesar_uno ccte provincia localidad expediente f = Procesado df x -> Q df x) ->
  Forall2 Q l r ->
  bucle ccte provincia localidad expediente files l r a = (a', Ok (l', r')) ->
  Forall2 Q l' r'.
Proof.
  revert l r a. induction files as [|f files IH]; intros l r a HQ HF; cbn [bucle].
  - intro H. injection H as _ <- <-. exact HF.
  - destruct (procesar_uno ccte provincia localidad expediente f) as [w|df x|e] eqn:E;
      [| |discriminate].
    + apply IH; [|exact HF]. intros g d y Hg. apply HQ. right. exact Hg.
    + apply IH.
      * intros g d y Hg. apply HQ. right. exact Hg.
      * apply Forall2_app; [exact HF|]. constructor; [|constructor].
        apply (HQ f df x (or_introl eq_refl) E).
Qed.

(** X19.  Every row of the batch that [procesar_archivos] returns carries the CCTE,
    the province and the locality of the form, and every row of the summary
    the effective [Expediente] of its file. *)
Theorem lote_lleva_el_formulario (files : list Archivo)
    (avisos : list Aviso) (df : DataFrame) (resumen : list Resumen) :
  (forall f sh, In f files -> read_excel f = Some sh -> rectangular sh = true) ->
  procesar_archivos files ccte provincia localidad expediente
  = (avisos, Ok (df, resumen)) ->
  let n := List.length (df_rows df) in
  columna "CCTE" df = repeat (Txt ccte) n
  /\ columna "Provincia" df = repeat (Txt provincia) n
  /\ columna "Localidad" df = repeat (Txt localidad) n
  /\ (forall r, In r resumen ->
        res_expediente r = Txt (expediente_de (res_archivo r) expediente)).
Proof.
  intros Hrect. unfold procesar_archivos.
  destruct (bucle ccte provincia localidad expediente files [] [] [])
    as [a [[l r]|e]] eqn:Hb; [|discriminate].
  assert (HF : Forall2 (lleva_el_formulario ccte provincia localidad expediente) l r).
  { apply (bucle_todos _ files [] [] [] a l r); [|constructor|exact Hb].
    intros f d x Hf Hp.
    destruct (read_excel f) as [sh|] eqn:Hs.
    - exact (proj2 (procesar_uno_constantes _ _ _ _ f sh d x Hs
                      (Hrect f sh Hf Hs) Hp)).
    - unfold procesar_uno in Hp. rewrite Hs in Hp. discriminate Hp. }
  destruct l as [|d l].
  - intro H. injection H as _ <- <-. cbv zeta. cbn.
    repeat (split; [reflexivity|]). intros ? [].
  - intro H. injection H as _ <- <-. cbv zeta.
    assert (Hl : forall c v,
               (forall d x, lleva_el_formulario ccte provincia localidad expediente d x ->
                            Inv c v d) ->
               Forall (Inv c v) (d :: l)).
    { intros c v Hq. clear - HF Hq. induction HF; constructor; eauto. }
    split; [apply concat_constante, Hl; intros ? ? (H & _); exact H|].
    split; [apply concat_constante, Hl; intros ? ? (_ & H & _); exact H|].
    split; [apply concat_constante, Hl; intros ? ? (_ & _ & H & _); exact H|].
    intros x Hx. clear - HF Hx. induction HF as [|? ? ? ? Hq _ IH]; [contradiction|].
    destruct Hx as [<-|Hx]; [|exact (IH Hx)].
    destruct Hq as (_ & _ & _ & _ & _ & H & _). exact H.
Qed.

End Lote.

Lemma lote_lleva_el_formulario_witness :
  exists avisos df resumen,
    procesar_archivos [archivo_completo; archivo_sin_fecha; archivo_completo]
                      "CABA" "Buenos Aires" "Salta" "EX-2024"
    = (avisos, Ok (df, resumen))
    /\ columna "Localidad" df = repeat (Txt "Salta") 4
    /\ map res_expediente resumen = [Txt "EX-2024"; Txt "EX-2024"].
Proof.
  eexists _, _, _. split; [vm_compute; reflexivity|].
  match goal with
  | |- columna _ ?d = _ /\ map _ ?x = _ =>
      destruct (lote_lleva_el_formulario "CABA" "Buenos Aires" "Salta" "EX-2024"
                  [archivo_completo; archivo_sin_fecha; archivo_completo]
                  [no_se_encontro_columna "b.xlsx" "Fecha"] d x)
        as (_ & _ & H3 & H4)
  end.
  - intros f sh [<-|[<-|[<-|[]]]] Hs; injection Hs as <-; reflexivity.
  - vm_compute. reflexivity.
  - split; [exact H3|].
    exact (f_equal2 (fun a b => [a; b])
             (H4 _ (or_introl eq_refl)) (H4 _ (or_intror (or_introl eq_refl)))).
Defined.

(* ================================================================= *)
(** ** Loading the master table: [load_tabla_maestra_from_db] *)

Definition TABLE_NAME : string := "tabla_maestra".

Definition EXPECTED_COLS : list string :=
  ["CCTE"; "Provincia"; "Localidad"; "Resultado"; "Fecha"; "Hora";
   "Nombre Archivo"; "Expediente"; "Sonda"; "Lat"; "Lon"; "FechaCarga"].

(** [s.replace(viejo, nuevo)] for a [viejo] that is not empty: the occurrences
    from the left, without overlap.  [saltar] counts the characters of an
    occurrence still to pass over. *)
Fixpoint reemplazar (viejo nuevo : texto) (saltar : nat) (s : texto) : texto :=
  match s with
  | [] => []
  | x :: s' =>
      match saltar with
      | S k => reemplazar viejo nuevo k s'
      | O =>
          if prefijo viejo s
          then nuevo ++ reemplazar viejo nuevo (List.length viejo - 1) s'
          else x :: reemplazar viejo nuevo 0 s'
      end
  end.

Definition str_replace (viejo nuevo s : texto) : texto := reemplazar viejo nuevo 0 s.

(** [key = c.strip().lower().replace("ó", "o").replace("í", "i")] *)
Definition clave_de_columna (c : string) : texto :=
  str_replace (t "í") (t "i") (str_replace (t "ó") (t "o") (lower (strip (t c)))).

Definition en (key : texto) (nombres : list string) : bool :=
  existsb (fun n => texto_eqb key (t n)) nombres.

(** The [if]/[elif] chain: the canonical name of a stored column, if any. *)
Definition col_map (c : string) : option string :=
  let key := clave_de_columna c in
  if en key ["ccte"] then Some "CCTE"
  else if en key ["provincia"] then Some "Provincia"
  else if en key ["localidad"] then Some "Localidad"
  else if en key ["resultado"; "resultado_con_incertidumbre"] then Some "Resultado"
  else if en key ["fecha"] then Some "Fecha"
  else if en key ["hora"; "time"] then Some "Hora"
  else if en key ["nombrearchivo"; "nombre_archivo"; "archivo"]
       then Some "Nombre Archivo"
  else if en key ["expediente"] then Some "Expediente"
  else if en key ["sonda"; "sonda_utilizada"] then Some "Sonda"
  else if en key ["lat"; "latitud"] then Some "Lat"
  else if en key ["lon"; "longitud"] then Some "Lon"
  else if en (lower key) ["fechacarga"; "fecha_carga"] then Some "FechaCarga"
  else None.

(** [df.rename(columns=col_map)] *)
Definition normalizar_columnas (df : DataFrame) : DataFrame :=
  mkDataFrame (map (fun c => match col_map c with Some n => n | None => c end)
                   (df_columns df))
              (df_rows df).

(** [for col in EXPECTED_COLS: if col not in df.columns: df[col] = np.nan] *)
Definition completar (esperadas : list string) (df : DataFrame) : DataFrame :=
  fold_left (fun df col => if en_columnas col df then df
                           else asignar_constante col NaN df)
            esperadas df.

(** The database file: [None] when it does not exist, else its tables by
    name. *)
Definition Base : Type := option (list (string * DataFrame)).

(** The table that is read: [tabla_maestra], or the only table there is. *)
Definition tabla_real (tablas : list string) : option string :=
  if negb (existsb (String.eqb TABLE_NAME) tablas)
  then match tablas with
       | [unica] => Some unica
       | _ => None
       end
  else Some TABLE_NAME.

Definition read_sql (tablas_db : list (string * DataFrame)) (n : string)
  : option DataFrame :=
  option_map snd (find (fun nt => String.eqb (fst nt) n) tablas_db).

Definition load_tabla_maestra_from_db (db : Base) : DataFrame :=
  match db with
  | None => DataFrame_vacio
  | Some tablas_db =>
      match tabla_real (map fst tablas_db) with
      | None => DataFrame_vacio
      | Some n =>
          match read_sql tablas_db n with
          | Some df => completar EXPECTED_COLS (normalizar_columnas df)
          | None => DataFrame_vacio
          end
      end
  end.

Lemma posicion_None (c : string) (cols : list string) :
  existsb (String.eqb c) cols = false -> posicion c cols = None.
Proof.
  induction cols as [|x cols IH]; [reflexivity|]. cbn [existsb posicion].
  destruct (String.eqb c x); [discriminate|]. cbn [orb]. intro H.
  rewrite (IH H). reflexivity.
Qed.

Lemma asignar_constante_nueva (c : string) (v : celda) (df : DataFrame) :
  en_columnas c df = false ->
  asignar_constante c v df
  = mkDataFrame (df_columns df ++ [c]) (map (fun fila => fila ++ [v]) (df_rows df)).
Proof.
  intro H. unfold asignar_constante, asignar. rewrite (posicion_None _ _ H).
  f_equal. induction (df_rows df) as [|fila filas IH]; [reflexivity|].
  cbn [map zip_con]. rewrite IH. reflexivity.
Qed.

(** What [completar] does: it appends the expected columns that are missing,
    each cell a null. *)
Lemma completar_forma (esperadas : list string) (df : DataFrame) :
  exists faltan,
    df_columns (completar esperadas df) = df_columns df ++ faltan
    /\ df_rows (completar esperadas df)
       = map (fun fila => fila ++ repeat NaN (List.length faltan)) (df_rows df)
    /\ (forall c, In c esperadas -> In c (df_columns df ++ faltan))
    /\ (forall c, In c faltan -> In c esperadas /\ ~ In c (df_columns df)).
Proof.
  revert df. induction esperadas as [|col esperadas IH]; intro df.
  - exists []. cbn. rewrite app_nil_r. split; [reflexivity|].
    split; [|split; [intros ? []|intros ? []]].
    rewrite <- (map_id (df_rows df)) at 1. apply map_ext. intro fila.
    symmetry. apply app_nil_r.
  - change (completar (col :: esperadas) df)
      with (completar esperadas (if en_columnas col df then df
                                 else asignar_constante col NaN df)).
    destruct (en_columnas col df) eqn:E.
    + destruct (IH df) as (faltan & H1 & H2 & H3 & H4).
      exists faltan. split; [exact H1|]. split; [exact H2|]. split.
      * intros c [<-|Hc]; [|exact (H3 c Hc)].
        apply in_app_iff. left. apply existsb_posicion. exact E.
      * intros c Hc. destruct (H4 c Hc). split; [right|]; assumption.
    + rewrite (asignar_constante_nueva col NaN df E).
      destruct (IH (mkDataFrame (df_columns df ++ [col])
                                (map (fun fila => fila ++ [NaN]) (df_rows df))))
        as (faltan & H1 & H2 & H3 & H4).
      cbn [df_columns df_rows] in *.
      exists (col :: faltan). rewrite H1, H2, <- app_assoc. cbn [app].
      split; [reflexivity|]. split.
      * rewrite map_map. apply map_ext. intro fila.
        rewrite <- app_assoc. reflexivity.
      * split.
        -- intros c [<-|Hc].
           ++ apply in_app_iff. right. left. reflexivity.
           ++ specialize (H3 c Hc). rewrite <- app_assoc in H3. exact H3.
        -- intros c [<-|Hc].
           ++ split; [left; reflexivity|]. intro Hin.
              assert (Ht : en_columnas col df = true).
              { apply existsb_exists. exists col. split; [exact Hin|].
                apply String.eqb_refl. }
              congruence.
           ++ destruct (H4 c Hc) as [Ha Hb]. split; [right; exact Ha|].
              intro Hin. apply Hb, in_app_iff. left. exact Hin.
Qed.

Lemma col_map_esperadas (c : string) :
  In c EXPECTED_COLS -> col_map c = Some c \/ col_map c = None.
Proof.
  intro H. cbn in H.
  repeat (destruct H as [<-|H]; [vm_compute; auto|]). contradiction.
Qed.

(** X21.  When the database holds the table (or one table only), the table that is
    loaded has every expected column; the stored rows are kept in order, each
    with its cells unchanged and a null appended for each expected column that
    was missing; and a table stored with the expected columns comes back with
    the columns and rows it was stored with. *)
Theorem carga_completa (tablas_db : list (string * DataFrame)) (n : string)
    (df0 : DataFrame) :
  tabla_real (map fst tablas_db) = Some n -> read_sql tablas_db n = Some df0 ->
  let df := load_tabla_maestra_from_db (Some tablas_db) in
  (forall c, In c EXPECTED_COLS -> In c (df_columns df))
  /\ (exists faltan,
        df_columns df = df_columns (normalizar_columnas df0) ++ faltan
        /\ df_rows df
           = map (fun fila => fila ++ repeat NaN (List.length faltan)) (df_rows df0)
        /\ forall c, In c faltan -> In c EXPECTED_COLS)
  /\ (df_columns df0 = EXPECTED_COLS -> df = df0).
Proof.
  intros Ht Hr. cbv zeta. unfold load_tabla_maestra_from_db. rewrite Ht, Hr.
  destruct (completar_forma EXPECTED_COLS (normalizar_columnas df0))
    as (faltan & H1 & H2 & H3 & H4).
  split; [intros c Hc; rewrite H1; exact (H3 c Hc)|]. split.
  - exists faltan. split; [exact H1|]. split; [exact H2|].
    intros c Hc. exact (proj1 (H4 c Hc)).
  - intro Hcols.
    assert (Hn : normalizar_columnas df0 = df0).
    { unfold normalizar_columnas. rewrite Hcols. destruct df0 as [cols rows].
      cbn [df_columns df_rows] in *. subst cols. vm_compute map. reflexivity. }
    rewrite Hn in *.
    assert (Hf : faltan = []).
    { destruct faltan as [|c faltan]; [reflexivity|]. exfalso.
      destruct (H4 c (or_introl eq_refl)) as [Ha Hb]. apply Hb.
      rewrite Hcols. exact Ha. }
    subst faltan. rewrite app_nil_r in H1. cbn [List.length repeat] in H2.
    destruct (completar EXPECTED_COLS df0) as [cols rows], df0 as [cols0 rows0].
    cbn [df_columns df_rows] in *. subst cols rows. f_equal.
    rewrite <- (map_id rows0) at 2. apply map_ext. intro fila. apply app_nil_r.
Qed.

Definition base_ejemplo : list (string * DataFrame) :=
  [ ("mediciones",
     mkDataFrame ["ccte"; " Localidad "; "RESULTADO"; "Observaciones"]
                 [ [Txt "Salta"; Txt "Oran"; Num 1; NaN] ]) ].

Lemma carga_completa_witness :
  In "FechaCarga" (df_columns (load_tabla_maestra_from_db (Some base_ejemplo)))
  /\ List.length (df_rows (load_tabla_maestra_from_db (Some base_ejemplo))) = 1%nat.
Proof.
  destruct (carga_completa base_ejemplo "mediciones"
              (mkDataFrame ["ccte"; " Localidad "; "RESULTADO"; "Observaciones"]
                           [ [Txt "Salta"; Txt "Oran"; Num 1; NaN] ])
              eq_refl eq_refl) as (H1 & (faltan & _ & H2 & _) & _).
  split.
  - apply H1. cbn. auto 20.
  - rewrite H2, length_map. reflexivity.
Defined.

(* ================================================================= *)
(** ** The duration as text, and back: [tiempo_a_horas] *)

Definition caracter_digito (d : Z) : ascii := ascii_of_N (Z.to_N (48 + d)).

(** The decimal digits of a number that is not negative; [fuel] bounds their
    count. *)
Fixpoint digitos_de (fuel : nat) (n : Z) : texto :=
  match fuel with
  | O => []
  | S f =>
      if n <? 10 then [caracter_digito n]
      else digitos_de f (n / 10) ++ [caracter_digito (n mod 10)]
  end.

(** [str(n)] *)
Definition str_int (n : Z) : texto :=
  if n <? 0 then "-"%char :: digitos_de (S (Z.to_nat (- n))) (- n)
  else digitos_de (S (Z.to_nat n)) n.

(** [f"{n:02d}"]: zeros after the sign, up to two characters. *)
Definition formato_02d (n : Z) : texto :=
  let s := str_int n in
  if Nat.ltb (List.length s) 2 then "0"%char :: s else s.

(** The text [format_timedelta_long] returns. *)
Definition formato_hms (td : timedelta) : texto :=
  let '(hh, mm, ss) := format_timedelta_long td in
  formato_02d hh ++ ":"%char :: formato_02d mm ++ ":"%char :: formato_02d ss.

(** [s.split(":")] *)
Fixpoint split_dos_puntos (s : texto) : list texto :=
  match s with
  | [] => [[]]
  | a :: s' =>
      if Ascii.eqb a ":" then [] :: split_dos_puntos s'
      else match split_dos_puntos s' with
           | x :: resto => (a :: x) :: resto
           | [] => [[a]]
           end
  end.

(** [int(s)] on a text: white space around, a sign, digits with single
    underscores between them. *)
Definition py_int (s : texto) : option Z :=
  let (neg, s1) := leer_signo (strip s) in
  match digitpart true s1 with
  | Some (ds, []) => Some (if neg then - valor_digitos ds else valor_digitos ds)
  | _ => None
  end.

(** [tiempo_a_horas]: [h, m, sec = map(int, s.split(":"))] raises [ValueError]
    unless there are three parts, each an integer. *)
Definition tiempo_a_horas (s : texto) : resultado Q :=
  match split_dos_puntos s with
  | [a; b; c] =>
      match py_int a, py_int b, py_int c with
      | Some h, Some m, Some sec =>
          Ok (inject_Z h + inject_Z m / inject_Z 60 + inject_Z sec / inject_Z 3600)%Q
      | _, _, _ => Raise ValueErrorExc
      end
  | _ => Raise ValueErrorExc
  end.

Lemma caracter_digito_ok (d : Z) :
  0 <= d <= 9 ->
  es_digito (caracter_digito d) = true /\ valor_digito (caracter_digito d) = d.
Proof.
  intro H.
  assert (E : d = 0 \/ d = 1 \/ d = 2 \/ d = 3 \/ d = 4 \/ d = 5 \/ d = 6
              \/ d = 7 \/ d = 8 \/ d = 9) by lia.
  repeat (destruct E as [->|E]; [split; reflexivity|]). subst d. split; reflexivity.
Qed.

Lemma valor_digitos_ultimo (ds : texto) (a : ascii) :
  valor_digitos (ds ++ [a]) = 10 * valor_digitos ds + valor_digito a.
Proof. unfold valor_digitos. rewrite fold_left_app. reflexivity. Qed.

Lemma digitos_de_ok (fuel : nat) (n : Z) :
  0 <= n -> (Z.to_nat n < fuel)%nat ->
  digitos (digitos_de fuel n) = true
  /\ digitos_de fuel n <> []
  /\ valor_digitos (digitos_de fuel n) = n.
Proof.
  revert n. induction fuel as [|f IH]; intros n H0 Hf; [lia|].
  cbn [digitos_de]. destruct (Z.ltb_spec n 10) as [Hlt|Hge].
  - destruct (caracter_digito_ok n ltac:(lia)) as [Hd Hv].
    unfold digitos. cbn [forallb]. rewrite Hd. split; [reflexivity|].
    split; [discriminate|]. unfold valor_digitos. cbn [fold_left]. lia.
  - assert (Hq : 0 <= n / 10 < n).
    { split; [apply Z.div_pos; lia|apply Z.div_lt; lia]. }
    destruct (IH (n / 10) ltac:(lia) ltac:(lia)) as (Hd & Hne & Hv).
    pose proof (Z.mod_pos_bound n 10 ltac:(lia)) as Hm.
    destruct (caracter_digito_ok (n mod 10) ltac:(lia)) as [Hd' Hv'].
    split; [|split].
    + apply digitos_app; [exact Hd|]. unfold digitos. cbn [forallb].
      rewrite Hd'. reflexivity.
    + intro E. apply app_eq_nil in E as [_ E]. discriminate E.
    + rewrite valor_digitos_ultimo, Hv, Hv'.
      pose proof (Z.div_mod n 10 ltac:(lia)). lia.
Qed.

(** The written form of a number: a minus sign or not, then digits. *)
Lemma formato_02d_forma (n : Z) :
  exists a ds,
    formato_02d n = (if n <? 0 then ["-"%char] else []) ++ a :: ds
    /\ es_digito a = true /\ digitos ds = true
    /\ valor_digitos (a :: ds) = Z.abs n.
Proof.
  unfold formato_02d, str_int. destruct (Z.ltb_spec n 0) as [Hneg|Hpos].
  - destruct (digitos_de_ok (S (Z.to_nat (- n))) (- n) ltac:(lia) ltac:(lia))
      as (Hd & Hne & Hv).
    destruct (digitos_de (S (Z.to_nat (- n))) (- n)) as [|a ds] eqn:E;
      [contradiction|].
    cbn [List.length Nat.ltb Nat.leb]. exists a, ds.
    unfold digitos in Hd. cbn [forallb] in Hd. apply andb_true_iff in Hd as [Ha Hd].
    split; [reflexivity|]. split; [exact Ha|]. split; [exact Hd|]. lia.
  - destruct (digitos_de_ok (S (Z.to_nat n)) n ltac:(lia) ltac:(lia))
      as (Hd & Hne & Hv).
    destruct (digitos_de (S (Z.to_nat n)) n) as [|a ds] eqn:E; [contradiction|].
    unfold digitos in Hd. cbn [forallb] in Hd. apply andb_true_iff in Hd as [Ha Hd].
    destruct (Nat.ltb (List.length (a :: ds)) 2).
    + exists "0"%char, (a :: ds). split; [reflexivity|]. split; [reflexivity|].
      split; [unfold digitos; cbn [forallb]; rewrite Ha; exact Hd|].
      change (valor_digitos ("0"%char :: a :: ds)) with (valor_digitos (a :: ds)).
      lia.
    + exists a, ds. split; [reflexivity|]. split; [exact Ha|]. split; [exact Hd|].
      lia.
Qed.

Lemma digito_no_dos_puntos (a : ascii) : es_digito a = true -> Ascii.eqb a ":" = false.
Proof. intro H. por_digito a H. Qed.

Lemma split_sin_dos_puntos (x : texto) :
  forallb (fun a => negb (Ascii.eqb a ":")) x = true -> split_dos_puntos x = [x].
Proof.
  induction x as [|a x IH]; [reflexivity|]. cbn [forallb split_dos_puntos].
  intro H. apply andb_true_iff in H as [Ha Hx]. apply negb_true_iff in Ha.
  rewrite Ha, (IH Hx). reflexivity.
Qed.

Lemma split_parte (x resto : texto) :
  forallb (fun a => negb (Ascii.eqb a ":")) x = true ->
  split_dos_puntos (x ++ ":"%char :: resto) = x :: split_dos_puntos resto.
Proof.
  induction x as [|a x IH]; [reflexivity|]. cbn [forallb app split_dos_puntos].
  intro H. apply andb_true_iff in H as [Ha Hx]. apply negb_true_iff in Ha.
  rewrite Ha, (IH Hx). reflexivity.
Qed.

Lemma formato_02d_sin_dos_puntos (n : Z) :
  forallb (fun a => negb (Ascii.eqb a ":")) (formato_02d n) = true.
Proof.
  destruct (formato_02d_forma n) as (a & ds & -> & Ha & Hd & _).
  rewrite forallb_app. cbn [forallb].
  rewrite (digito_no_dos_puntos a Ha). cbn [negb andb].
  apply andb_true_iff. split; [destruct (n <? 0); reflexivity|].
  unfold digitos in Hd. rewrite forallb_forall in *. intros x Hx.
  rewrite (digito_no_dos_puntos x (Hd x Hx)). reflexivity.
Qed.

(** [int] reads back what the format wrote. *)
Lemma py_int_formato_02d (n : Z) : py_int (formato_02d n) = Some n.
Proof.
  destruct (formato_02d_forma n) as (a & ds & -> & Ha & Hd & Hv).
  assert (Hse : sin_espacios ((if n <? 0 then ["-"%char] else []) ++ a :: ds) = true).
  { unfold sin_espacios. rewrite forallb_app. cbn [forallb].
    rewrite (digito_no_espacio a Ha). cbn [negb andb].
    apply andb_true_iff. split; [destruct (n <? 0); reflexivity|].
    exact (digitos_sin_espacios ds Hd). }
  unfold py_int. rewrite (strip_sin_espacios _ Hse).
  pose proof (digitpart_corta true a ds [] Ha Hd eq_refl) as Hp.
  rewrite app_nil_r in Hp.
  destruct (Z.ltb_spec n 0) as [Hneg|Hpos]; cbn [app leer_signo].
  - cbn [Ascii.eqb Bool.eqb]. rewrite Hp, Hv. f_equal. lia.
  - pose proof (digito_no_signo a Ha) as Hs. unfold es_signo in Hs.
    apply orb_false_iff in Hs as [Hmas Hmenos].
    rewrite Hmenos, Hmas, Hp, Hv. f_equal. lia.
Qed.

Lemma format_timedelta_long_partes (td : timedelta) :
  let '(hh, mm, ss) := format_timedelta_long td in
  hh * 3600 + mm * 60 + ss = Z.quot td us_por_segundo.
Proof.
  unfold format_timedelta_long. cbv zeta.
  set (n := Z.quot td us_por_segundo).
  pose proof (Z.div_mod n 3600 ltac:(lia)) as H3.
  pose proof (Z.div_mod (n mod 3600) 60 ltac:(lia)) as H4.
  assert (H5 : (n mod 3600) mod 60 = n mod 60).
  { apply Z.mod_mod_divide. exists 60. reflexivity. }
  lia.
Qed.

(** X22.  The hours plotted for a month are the duration that is displayed for it:
    [tiempo_a_horas] reads the text of [format_timedelta_long] back without
    error, and gives its whole seconds divided by 3600. *)
Theorem tiempo_a_horas_de_formato (td : timedelta) :
  exists q,
    tiempo_a_horas (formato_hms td) = Ok q
    /\ (q == inject_Z (Z.quot td us_por_segundo) / inject_Z 3600)%Q.
Proof.
  unfold formato_hms, tiempo_a_horas.
  pose proof (format_timedelta_long_partes td) as Hsum.
  destruct (format_timedelta_long td) as [[hh mm] ss].
  rewrite split_parte by apply formato_02d_sin_dos_puntos.
  rewrite split_parte by apply formato_02d_sin_dos_puntos.
  rewrite split_sin_dos_puntos by apply formato_02d_sin_dos_puntos.
  rewrite !py_int_formato_02d. eexists. split; [reflexivity|].
  rewrite <- Hsum. unfold Qeq, Qdiv, Qplus, Qmult, Qinv, inject_Z.
  cbn [Qnum Qden]. lia.
Qed.

(* ================================================================= *)
(** ** The mandatory columns of a processed file *)

(** The headers the column mapping sees; the mapping is not reached when the
    count of measurements raises. *)
Definition encabezados (sh : DataFrame) : list string :=
  match contar_mediciones (dropna_columnas sh) with
  | Ok (df, _) => df_columns df
  | Raise _ => []
  end.

Lemma renombrar_unico (m : list (string * string)) (k c : string) :
  NoDup (map snd m) -> In (k, c) m -> renombrar m c = k.
Proof.
  intros Hn Hin. unfold renombrar.
  destruct (find (fun kv => String.eqb (snd kv) c) (rev m)) as [[k' c']|] eqn:E.
  - apply find_some in E as [Hin' Hc]. cbn [snd] in Hc.
    apply String.eqb_eq in Hc. subst c'. apply in_rev in Hin'.
    clear - Hn Hin Hin'. induction m as [|[k0 c0] m IH]; [contradiction|].
    cbn [map snd] in Hn. inversion Hn as [|? ? Hno Hn']; subst.
    destruct Hin as [Hin|Hin], Hin' as [Hin'|Hin'].
    + congruence.
    + injection Hin as -> ->. exfalso. apply Hno.
      apply in_map_iff. exists (k', c). auto.
    + injection Hin' as -> ->. exfalso. apply Hno.
      apply in_map_iff. exists (k, c). auto.
    + exact (IH Hn' Hin Hin').
  - pose proof (find_none _ _ E (k, c) (proj1 (in_rev m (k, c)) Hin)) as Hf.
    cbn [snd] in Hf. rewrite String.eqb_refl in Hf. discriminate Hf.
Qed.

Lemma columnas_aplicar_dms (c x : string) (df df' : DataFrame) :
  aplicar_dms x df = Ok df' -> In c (df_columns df) -> In c (df_columns df').
Proof.
  unfold aplicar_dms. destruct (en_columnas x df); [|intro H; injection H as <-; auto].
  destruct (Nat.leb 2 (veces x df)); [discriminate|].
  destruct (mapM parse_dms_to_decimal (columna x df)) as [vs|]; [|discriminate].
  cbn [bind]. intro H. injection H as <-. apply columnas_asignar_quedan.
Qed.

Lemma limpiar_columnas file_name ccte provincia localidad expediente m n
    (df df' : DataFrame) (r : Resumen) (k c : string) :
  limpiar file_name ccte provincia localidad expediente m n df = Ok (df', r) ->
  NoDup (map snd m) -> In (k, c) m -> In c (df_columns df) -> k <> "_idx_num" ->
  In k (df_columns df').
Proof.
  intros H Hn Hin Hc Hk. unfold limpiar in H.
  set (d5 := asignar_constante "Nombre Archivo" _ _) in H.
  assert (H5 : In k (df_columns d5)).
  { unfold d5, asignar_constante. do 5 apply columnas_asignar_quedan.
    unfold rename. cbn [df_columns]. apply in_map_iff. exists c.
    split; [exact (renombrar_unico m k c Hn Hin)|exact Hc]. }
  clearbody d5.
  match type of H with
  | bind ?x _ = _ => destruct x as [d6|] eqn:H6; [|discriminate]
  end. cbn [bind] in H.
  assert (H6' : In k (df_columns d6)).
  { destruct (en_columnas "Resultado" d5); [|injection H6 as <-; exact H5].
    destruct (Nat.leb 2 (veces "Resultado" d5)); [discriminate|].
    injection H6 as <-. apply columnas_asignar_quedan, H5. }
  destruct (aplicar_dms "Lat" d6) as [d7|] eqn:H7; [|discriminate]. cbn [bind] in H.
  destruct (aplicar_dms "Lon" d7) as [d8|] eqn:H8; [|discriminate]. cbn [bind] in H.
  destruct (columna "Expediente" (drop_columna "_idx_num" d8)); [discriminate|].
  injection H as <- _. apply columnas_drop_quedan; [exact Hk|].
  apply (columnas_aplicar_dms k "Lon" d7 d8 H8).
  apply (columnas_aplicar_dms k "Lat" d6 d7 H7). exact H6'.
Qed.

(** A sheet whose date and time share one column. *)
Definition hoja_fecha_y_hora : DataFrame :=
  mkDataFrame
    ["Nro"; "Fecha y Hora"; "Resultado"; "Sonda"]
    [ [Num 1; Otro "2024-03-01 10:00:00"; Txt "1,2"; Txt "EP-600"] ].

Definition archivo_fecha_y_hora : Archivo :=
  mkArchivo "e.xlsx" (Some hoja_fecha_y_hora).

(** X23.  When the mapping finds each field in a header of its own, the processed
    frame has the columns [Fecha], [Hora], [Resultado] and [Sonda].  Otherwise
    it need not: a sheet whose date and time share the header ["Fecha y Hora"]
    passes the check for both fields and is processed, and its frame has no
    column [Fecha]. *)
Theorem procesado_tiene_obligatorias ccte provincia localidad expediente :
  (forall (file : Archivo) (sh df : DataFrame) (r : Resumen)
          (columnas_map : list (string * string)),
     read_excel file = Some sh ->
     mapear mapping_candidates (encabezados sh) [] = inr columnas_map ->
     NoDup (map snd columnas_map) ->
     procesar_uno ccte provincia localidad expediente file = Procesado df r ->
     forall key cands, In (key, cands) mapping_candidates -> opcional key = false ->
                       In key (df_columns df))
  /\ (exists df r,
        procesar_uno ccte provincia localidad expediente archivo_fecha_y_hora
        = Procesado df r
        /\ ~ In "Fecha" (df_columns df)).
Proof.
  split.
  - intros file sh df r m Hs Hm Hn. unfold procesar_uno, encabezados in *.
    rewrite Hs.
    destruct (contar_mediciones (dropna_columnas sh)) as [[d n]|e0]; [|discriminate].
    rewrite Hm.
    destruct (limpiar (name file) ccte provincia localidad expediente m n d)
      as [[df0 r0]|e] eqn:El; [|discriminate].
    intro H. injection H as <- <-. intros key cands Hin Ho.
    destruct (mapear_correcto_gen _ _ _ _ Hm) as (_ & _ & H3).
    destruct (H3 key cands Hin Ho) as (c & Hc & Hf).
    apply (limpiar_columnas _ _ _ _ _ _ _ _ _ _ key c El Hn Hc).
    + exact (proj1 (find_some _ _ Hf)).
    + cbn in Hin.
      repeat (destruct Hin as [Hin|Hin]; [injection Hin as <- _; discriminate|]).
      contradiction.
  - eexists _, _. split; [vm_compute; reflexivity|].
    cbn. intros H.
    repeat (destruct H as [H|H]; [discriminate H|]). contradiction.
Qed.

Lemma procesado_tiene_obligatorias_witness :
  exists df r,
    procesar_uno "CABA" "Buenos Aires" "Salta" "" archivo_completo = Procesado df r
    /\ In "Fecha" (df_columns df) /\ In "Sonda" (df_columns df).
Proof.
  eexists _, _. split; [vm_compute; reflexivity|].
  match goal with
  | |- In _ (df_columns ?d) /\ _ =>
      pose proof (proj1 (procesado_tiene_obligatorias "CABA" "Buenos Aires" "Salta" "")
                    archivo_completo hoja_completa d _
                    [("Fecha", "Fecha"); ("Hora", "Hora");
                     ("Resultado", "Resultado con incertidumbre (V/m)");
                     ("Sonda", "Sonda utilizada")]
                    eq_refl ltac:(vm_compute; reflexivity)
                    ltac:(repeat constructor; cbn; intuition discriminate)
                    ltac:(vm_compute; reflexivity)) as H
  end.
  split.
  - apply (H "Fecha" ["fecha"]); [cbn; auto|reflexivity].
  - apply (H "Sonda" ["sonda"; "sonda utilizada"]); [cbn; auto 10|reflexivity].
Defined.

(* ================================================================= *)
(** ** The summary by locality *)

(** The total of a part of the table, over the files and dates of the whole. *)
Lemma calcular_tiempo_subtabla (cols : list string) (p : Registro -> bool)
    (rs : list Registro) :
  columnas_de_tiempo cols = true ->
  calcular_tiempo_total_por_archivo (mkTabla cols (filter p rs))
  = sumatoria (fun a => sumatoria (tramo_de (filter p rs) a) (claves_fecha rs))
              (claves_archivo rs).
Proof.
  intro Hc. rewrite calcular_tiempo_doble_suma. cbn [columnas filas].
  rewrite Hc. set (T := filter p rs).
  transitivity (sumatoria (fun a => sumatoria (tramo_de T a) (claves_fecha rs))
                          (claves_archivo T)).
  - apply sumatoria_ext. intros a _.
    apply (sumatoria_mas_claves Z.eqb Z.eqb_eq); try apply claves_fecha_NoDup.
    + intros f Hf. apply claves_fecha_In in Hf as (r & Hr & Hf).
      apply claves_fecha_In. exists r. apply filter_In in Hr as [Hr _]. auto.
    + intros f _ Hno. unfold tramo_de. rewrite filter_vacio; [reflexivity|].
      intros r Hr. destruct (es_fecha f r) eqn:E; [|reflexivity].
      exfalso. apply Hno, claves_fecha_In. exists r.
      apply filter_In in Hr as [Hr _].
      split; [exact Hr|apply es_fecha_clave; exact E].
  - apply (sumatoria_mas_claves String.eqb String.eqb_eq);
      try apply claves_archivo_NoDup.
    + intros a Ha. apply claves_archivo_In in Ha as (r & Hr & Ha).
      apply claves_archivo_In. exists r. apply filter_In in Hr as [Hr _]. auto.
    + intros a _ Hno. apply sumatoria_cero. intros f _.
      unfold tramo_de. rewrite (filter_vacio (es_archivo a) T); [reflexivity|].
      intros r Hr. destruct (es_archivo a r) eqn:E; [|reflexivity].
      exfalso. apply Hno, claves_archivo_In. exists r.
      split; [exact Hr|apply es_archivo_clave; exact E].
Qed.

Section PorClave.
Context {K : Type}.
Variables (leb eqb : K -> K -> bool) (clave : Registro -> option K).
Hypothesis eqb_eq : forall x y, eqb x y = true <-> x = y.

(** [for key, g in df.groupby(cols): calcular_tiempo_total_por_archivo(g)] *)
Definition tiempos_por_clave (df : Tabla) : list (K * timedelta) :=
  map (fun g => (fst g,
                 calcular_tiempo_total_por_archivo (mkTabla (columnas df) (snd g))))
      (groupby leb eqb clave (filas df)).

(** No file is shared between groups: the rows of a file have a key, the same
    for all. *)
Definition archivo_en_un_grupo (rs : list Registro) : Prop :=
  forall r a, In r rs -> r_NombreArchivo r = Some a ->
    exists k, clave r = Some k
              /\ forall r', In r' rs -> r_NombreArchivo r' = Some a ->
                            clave r' = Some k.

Lemma sumatoria_indicador_clave (l : list K) (k : K) (x : Z) :
  NoDup l -> In k l ->
  sumatoria (fun m => if eqb m k then x else 0) l = x.
Proof.
  induction l as [|y l IH]; intros N Hk; [contradiction|].
  inversion N as [|? ? Hy N']; subst. rewrite sumatoria_cons.
  assert (Hrefl : forall z, eqb z z = true) by (intro z; apply eqb_eq; reflexivity).
  destruct Hk as [->|Hk].
  - rewrite Hrefl, sumatoria_cero; [lia|].
    intros z Hz. destruct (eqb z k) eqn:E; [|reflexivity].
    apply eqb_eq in E. subst z. contradiction.
  - rewrite (IH N' Hk). destruct (eqb y k) eqn:E; [|lia].
    apply eqb_eq in E. subst y. contradiction.
Qed.

Lemma filtro_clave_archivo (rs : list Registro) (a : string) (k ka : K) :
  (forall r, In r rs -> r_NombreArchivo r = Some a -> clave r = Some ka) ->
  filter (es_archivo a) (filter (en_grupo eqb clave k) rs)
  = if eqb k ka then filter (es_archivo a) rs else [].
Proof.
  intro H. induction rs as [|r rs IH]; [destruct (eqb k ka); reflexivity|].
  assert (IH' := IH (fun r' Hr' => H r' (or_intror Hr'))). clear IH.
  cbn [filter]. destruct (es_archivo a r) eqn:Ea.
  - pose proof (H r (or_introl eq_refl) (proj1 (es_archivo_clave a r) Ea)) as Hk.
    assert (Eg : en_grupo eqb clave k r = eqb k ka).
    { unfold en_grupo. rewrite Hk. reflexivity. }
    rewrite Eg. destruct (eqb k ka); [cbn [filter]; rewrite Ea|]; rewrite IH';
      reflexivity.
  - destruct (en_grupo eqb clave k r); cbn [filter]; rewrite ?Ea, IH';
      reflexivity.
Qed.

Lemma tiempos_por_clave_suma (df : Tabla) :
  archivo_en_un_grupo (filas df) ->
  suma_Z (map snd (tiempos_por_clave df)) = calcular_tiempo_total_por_archivo df.
Proof.
  intro H. unfold tiempos_por_clave, groupby. rewrite !map_map. cbn [fst snd].
  set (rs := filas df) in *. set (Ks := claves leb eqb clave rs).
  change (suma_Z (map ?g ?l)) with (sumatoria g l).
  rewrite (calcular_tiempo_doble_suma df). fold rs.
  destruct (columnas_de_tiempo (columnas df)) eqn:Hc.
  - transitivity
      (sumatoria (fun k =>
         sumatoria (fun a =>
           sumatoria (tramo_de (filter (en_grupo eqb clave k) rs) a)
                     (claves_fecha rs)) (claves_archivo rs)) Ks).
    { apply sumatoria_ext. intros k _.
      exact (calcular_tiempo_subtabla (columnas df) _ rs Hc). }
    rewrite sumatoria_intercambio. apply sumatoria_ext. intros a Ha.
    rewrite sumatoria_intercambio. apply sumatoria_ext. intros f _.
    apply claves_archivo_In in Ha as (r0 & Hr0 & Ha0).
    destruct (H r0 a Hr0 Ha0) as (ka & Hka & Hall).
    transitivity (sumatoria (fun k => if eqb k ka then tramo_de rs a f else 0) Ks).
    + apply sumatoria_ext. intros k _. unfold tramo_de.
      rewrite (filtro_clave_archivo rs a k ka Hall).
      destruct (eqb k ka); reflexivity.
    + apply sumatoria_indicador_clave; [apply claves_NoDup, eqb_eq|].
      apply (claves_In leb eqb clave eqb_eq). exists r0. auto.
  - apply sumatoria_cero. intros k _.
    rewrite calcular_tiempo_doble_suma. cbn [columnas]. rewrite Hc. reflexivity.
Qed.

End PorClave.

(** The key of [df.groupby(["CCTE", "Provincia", "Localidad"])]: a row with a
    null in one of the three is in no group. *)
Definition clave_localidad (r : Registro) : option (string * string * string) :=
  match r_CCTE r, r_Provincia r, r_Localidad r with
  | Some c, Some p, Some l => Some (c, p, l)
  | _, _, _ => None
  end.

Definition eqb3 (x y : string * string * string) : bool :=
  let '(a, b, c) := x in
  let '(a', b', c') := y in
  String.eqb a a' && String.eqb b b' && String.eqb c c'.

(** The order of the group keys: by the first component, then the second,
    then the third. *)
Definition leb3 (x y : string * string * string) : bool :=
  let '(a, b, c) := x in
  let '(a', b', c') := y in
  if String.eqb a a'
  then if String.eqb b b' then String.leb c c' else String.leb b b'
  else String.leb a a'.

Lemma eqb3_eq (x y : string * string * string) : eqb3 x y = true <-> x = y.
Proof.
  destruct x as [[a b] c], y as [[a' b'] c']. unfold eqb3.
  rewrite !andb_true_iff, !String.eqb_eq. split.
  - intros [[-> ->] ->]. reflexivity.
  - intro H. injection H as -> -> ->. auto.
Qed.

(** The column [Tiempo mediciones] of the summary by locality, before it is
    formatted. *)
Definition resumen_localidad_tiempos (df : Tabla)
  : list (string * string * string * timedelta) :=
  tiempos_por_clave leb3 eqb3 clave_localidad df.

(** X24.  When no file is shared between localities (the rows of a file all
    carry one CCTE, province and locality), the times of the summary by
    locality add up to the total of the table. *)
Theorem resumen_localidades_suma_el_total (df : Tabla) :
  archivo_en_un_grupo clave_localidad (filas df) ->
  suma_Z (map snd (resumen_localidad_tiempos df))
  = calcular_tiempo_total_por_archivo df.
Proof. apply tiempos_por_clave_suma, eqb3_eq. Qed.

Definition fila_de (localidad archivo : string) (f : fecha) (h : hora) : Registro :=
  mkRegistro (Some "Salta") (Some "Salta") (Some localidad) None (Some f) (Some h)
             (Some archivo) None None None None None.

Definition tabla_dos_localidades : Tabla :=
  mkTabla columnas_maestra
    [ fila_de "Oran" "a.xlsx" 739000 (time_hms 9 0 0);
      fila_de "Tartagal" "b.xlsx" 739000 (time_hms 10 0 0);
      fila_de "Oran" "a.xlsx" 739000 (time_hms 11 0 0);
      fila_de "Tartagal" "b.xlsx" 739000 (time_hms 10 30 0) ].

Lemma resumen_localidades_suma_el_total_witness :
  suma_Z (map snd (resumen_localidad_tiempos tabla_dos_localidades))
  = calcular_tiempo_total_por_archivo tabla_dos_localidades.
Proof.
  apply resumen_localidades_suma_el_total.
  intros r a Hr Ha. cbn in Hr.
  destruct Hr as [<-|[<-|[<-|[<-|[]]]]]; injection Ha as <-;
    eexists; (split; [reflexivity|]);
    intros r' Hr' Ha'; cbn in Hr';
    destruct Hr' as [<-|[<-|[<-|[<-|[]]]]]; try reflexivity; discriminate Ha'.
Defined.

(* ================================================================= *)
(** ** The colour scale has no gaps *)

Module Escala.
Import Semaforo.
Import SpecFloat FloatOps FloatAxioms.
#[local] Open Scope float_scope.

(** The order of binary64, from its specification. *)
Lemma SFcompare_antisym (x y : spec_float) :
  SFcompare y x = option_map CompOpp (SFcompare x y).
Proof.
  destruct x as [s1| s1| |s1 m1 e1], y as [s2| s2| |s2 m2 e2]; cbn;
    try destruct s1; try destruct s2; try reflexivity;
    rewrite (Z.compare_antisym e1 e2); destruct (e1 ?= e2)%Z; cbn;
    try reflexivity; f_equal; rewrite ?CompOpp_involutive;
    first [ exact (Pos.compare_cont_antisym m2 m1 Eq)
          | exact (eq_sym (Pos.compare_cont_antisym m1 m2 Eq)) ].
Qed.

Lemma SFcompare_None (x y : spec_float) :
  SFcompare x y = None -> x = S754_nan \/ y = S754_nan.
Proof.
  destruct x, y; cbn; intro H; try discriminate H; auto.
Qed.

Lemma SFcompare_refl (x : spec_float) : x <> S754_nan -> SFcompare x x = Some Eq.
Proof.
  destruct x as [s| s| |s m e]; cbn; intro H; try contradiction;
    try destruct s; try reflexivity;
    rewrite Z.compare_refl; f_equal.
  - change (PosDef.Pos.compare_cont Eq m m) with (Pos.compare m m).
    rewrite Pos.compare_refl. reflexivity.
  - change (PosDef.Pos.compare_cont Eq m m) with (Pos.compare m m).
    apply Pos.compare_refl.
Qed.

Lemma leb_sin_nan (a v : float) :
  (a <=? v) = true -> Prim2SF v <> S754_nan /\ is_nan v = false.
Proof.
  rewrite leb_spec. unfold SFleb. intro H.
  assert (Hv : Prim2SF v <> S754_nan).
  { intro E. rewrite E in H. destruct (Prim2SF a); discriminate H. }
  split; [exact Hv|]. unfold is_nan. rewrite eqb_spec. unfold SFeqb.
  rewrite (SFcompare_refl _ Hv). reflexivity.
Qed.

(** Of two numbers, one that is not below the other is at least the other. *)
Lemma ltb_false_leb (v c : float) :
  Prim2SF v <> S754_nan -> Prim2SF c <> S754_nan ->
  (v <? c) = false -> (c <=? v) = true.
Proof.
  intros Hv Hc. rewrite ltb_spec, leb_spec. unfold SFltb, SFleb.
  rewrite (SFcompare_antisym (Prim2SF v) (Prim2SF c)).
  destruct (SFcompare (Prim2SF v) (Prim2SF c)) as [[| |]|] eqn:E; cbn;
    try reflexivity; try discriminate.
  intros _. destruct (SFcompare_None _ _ E); contradiction.
Qed.

(** A value in a range gets the colour of the first range that holds it. *)
Lemma cubeta_primero {C : Type} (rangos : list (float * float * C)) (v : float)
    (defecto : C) (i : nat) :
  cubeta rangos v = Some i ->
  exists low high color,
    nth_error rangos i = Some (low, high, color)
    /\ (low <=? v) && (v <? high) = true
    /\ primero rangos v defecto = color.
Proof.
  revert i. induction rangos as [|[[low high] color] rangos IH]; intros i;
    cbn [cubeta primero]; [discriminate|].
  destruct ((low <=? v) && (v <? high)) eqn:E.
  - intro H. injection H as <-. exists low, high, color. auto.
  - destruct (cubeta rangos v) as [j|]; [|discriminate].
    intro H. injection H as <-. destruct (IH j eq_refl) as (l & h & c & H1 & H2 & H3).
    exists l, h, c. auto.
Qed.

(** Ranges that follow one another: each starts where the one before ends. *)
Inductive Cadena {C : Type} : float -> list (float * float * C) -> float -> Prop :=
| cadena_fin a : Cadena a [] a
| cadena_mas a b c color resto :
    Prim2SF b <> S754_nan -> Cadena b resto c ->
    Cadena a ((a, b, color) :: resto) c.

Lemma leb_ltb_false (a v : float) : (a <=? v) = true -> (v <? a) = false.
Proof.
  rewrite ltb_spec, leb_spec. unfold SFltb, SFleb.
  rewrite (SFcompare_antisym (Prim2SF a) (Prim2SF v)).
  destruct (SFcompare (Prim2SF a) (Prim2SF v)) as [[| |]|]; cbn;
    try reflexivity; discriminate.
Qed.

(** A chain of ranges leaves no gap between its two ends. *)
Lemma cubeta_cadena {C : Type} (a c : float) (rangos : list (float * float * C))
    (v : float) :
  Cadena a rangos c -> Prim2SF v <> S754_nan ->
  (a <=? v) = true -> (v <? c) = true ->
  exists i, cubeta rangos v = Some i.
Proof.
  intros Hc Hv. induction Hc as [a|a b c color resto Hb _ IH]; intros Ha Hlt.
  - rewrite (leb_ltb_false a v Ha) in Hlt. discriminate Hlt.
  - cbn [cubeta]. rewrite Ha. cbn [andb].
    destruct (v <? b) eqn:E; [exists O; reflexivity|].
    destruct (IH (ltb_false_leb v b Hv Hb E) Hlt) as (i & ->).
    exists (S i). reflexivity.
Qed.

Lemma cadena_rangos_colores : Cadena 0 rangos_colores infinity.
Proof.
  unfold rangos_colores.
  repeat (apply cadena_mas; [vm_compute; discriminate|]). apply cadena_fin.
Qed.

Lemma cubeta_hay (v : float) :
  (0 <=? v) = true -> (v <? infinity) = true ->
  exists i, cubeta rangos_colores v = Some i.
Proof.
  intros H0 Hinf. destruct (leb_sin_nan 0 v H0) as [Hv _].
  exact (cubeta_cadena 0 infinity rangos_colores v cadena_rangos_colores Hv H0 Hinf).
Qed.

(** X20.  Every value from zero up, infinity apart, falls in a range of the scale:
    the on-screen indicator and the map give it the colour of that range,
    never the colour kept for values outside the scale. *)
Theorem escala_sin_huecos (v : float) :
  (0 <=? v) = true -> (v <? infinity) = true ->
  exists i low high hex rgb,
    nth_error rangos_colores i = Some (low, high, hex)
    /\ nth_error rangos_colores_map i = Some (low, high, rgb)
    /\ (low <=? v) && (v <? high) = true
    /\ color_localidad v = hex
    /\ color_semaforo v = rgb.
Proof.
  intros H0 Hinf. destruct (cubeta_hay v H0 Hinf) as (i & Hi).
  destruct (leb_sin_nan 0 v H0) as [_ Hnan].
  pose proof Hi as Hm. rewrite cubeta_comun in Hm.
  destruct (cubeta_primero rangos_colores v "#FFFFFF"%string i Hi)
    as (l & h & c & H1 & H2 & H3).
  destruct (cubeta_primero rangos_colores_map v [0; 0; 0]%Z i Hm)
    as (l' & h' & c' & H1' & H2' & H3').
  exists i, l, h, c, c'.
  assert (E : l' = l /\ h' = h).
  { clear - H1 H1'. unfold rangos_colores, rangos_colores_map in *.
    do 10 (destruct i as [|i];
           [cbn in H1, H1'; injection H1 as <- <- _; injection H1' as <- <- _;
            split; reflexivity|]).
    destruct i; discriminate H1. }
  destruct E as [-> ->].
  repeat (split; [assumption|]).
  unfold color_semaforo. rewrite Hnan. exact H3'.
Qed.

Lemma escala_sin_huecos_witness :
  exists i low high hex rgb,
    nth_error rangos_colores i = Some (low, high, hex)
    /\ nth_error rangos_colores_map i = Some (low, high, rgb)
    /\ (low <=? 99.5) && (99.5 <? high) = true
    /\ color_localidad 99.5 = hex
    /\ color_semaforo 99.5 = rgb.
Proof. apply (escala_sin_huecos 99.5); vm_compute; reflexivity. Defined.

End Escala.
